(** * OtelLogger: a shallow embedding of [autogen/logger/otel_logger.py]

    The adapter turns lifecycle events of the agent runtime into log
    records (JSON strings handed to the [logging] back end) and tracing
    spans.  The embedding keeps the shape of the Python module:

    - Python values are an inductive type [pyval]; objects carry the few
      things the module asks of them (class name, module, [str], [repr],
      attributes, an optional [to_json] method);
    - [json.dumps] is a function into [result string] that raises where
      Python raises; a recogniser [json_loads] for the JSON grammar is
      used to state that emitted text is valid JSON;
    - the methods of [OtelLogger] are computations in a small
      reader/state/error monad [M]: the host (thread id, clock, object
      identities, behaviour of the logging sinks) is read, the calls made
      to the logging and tracing back ends are recorded, and exceptions
      propagate unless a [try ... except Exception] catches them. *)

From Stdlib Require Import ZArith NArith List String Ascii Bool Lia.
From Stdlib Require Import DecimalString DecimalFacts DecimalPos DecimalN DecimalZ.
From Stdlib Require Import QArith Qround Qpower Lqa SpecFloat.
Import ListNotations.

#[local] Open Scope string_scope.
#[local] Open Scope Z_scope.

Set Implicit Arguments.
Set Warnings "-register-all".

(* ================================================================== *)
(** ** Exceptions and results *)

(** The exception classes the module can meet.  [BaseOnly] stands for
    the classes that derive from [BaseException] but not from
    [Exception] ([KeyboardInterrupt], [SystemExit]): an
    [except Exception] clause lets them through. *)
Inductive exn : Type :=
| TypeError (msg : string)
| ValueError (msg : string)
| AttributeError (msg : string)
| NameError (msg : string)
| OtherException (cls msg : string)
| BaseOnly (cls msg : string).

Definition is_Exception (e : exn) : bool :=
  match e with
  | BaseOnly _ _ => false
  | _ => true
  end.

(** [str(e)]: the text an f-string [{e}] inserts. *)
Definition exn_str (e : exn) : string :=
  match e with
  | TypeError m | ValueError m | AttributeError m | NameError m => m
  | OtherException _ m | BaseOnly _ m => m
  end.

Inductive result (A : Type) : Type :=
| Ok (a : A)
| Raise (e : exn).
Arguments Ok {A} a.
Arguments Raise {A} e.

Definition returns {A} (r : result A) : bool :=
  match r with Ok _ => true | Raise _ => false end.

(* ================================================================== *)
(** ** Characters, digits and numerals *)

Definition code (c : ascii) : N := N_of_ascii c.

(** The character of a hexadecimal digit, lower case as Python's
    [format(n, "x")] prints it. *)
Definition hexdigit (n : N) : ascii :=
  match n with
  | 0 => "0" | 1 => "1" | 2 => "2" | 3 => "3" | 4 => "4" | 5 => "5"
  | 6 => "6" | 7 => "7" | 8 => "8" | 9 => "9" | 10 => "a" | 11 => "b"
  | 12 => "c" | 13 => "d" | 14 => "e" | _ => "f"
  end%N%char.

(** Two hexadecimal digits of a character code: [format(ord(c), "02x")]. *)
Definition hex2 (c : ascii) : string :=
  String (hexdigit (code c / 16)) (String (hexdigit (code c mod 16)) "").

(** [int.__repr__]: decimal, a minus sign for negative numbers. *)
Definition int_repr (z : Z) : string :=
  NilZero.string_of_int (Z.to_int z).

Definition is_digit (c : ascii) : bool :=
  ((48 <=? code c) && (code c <=? 57))%N.

(** ** Floats

    A float is passed through the module untouched ([cost], values of a
    request) and only ever printed, so a finite float is represented by
    the decimal literal [float.__repr__] prints for it: sign, integer
    part, digits after the point and, in scientific notation, the
    exponent ([1.5e-07]).  No arithmetic is done on these. *)
Inductive pyfloat : Type :=
| FNan
| FInf (neg : bool)
| FFin (neg : bool) (ipart : N) (frac : Decimal.uint) (ex : option Z).

Definition digits_of (u : Decimal.uint) : string := NilEmpty.string_of_uint u.

Definition pad2 (s : string) : string :=
  match s with
  | String c "" => String "0" (String c "")
  | _ => s
  end.

Definition exp_repr (ex : option Z) : string :=
  match ex with
  | None => ""
  | Some e => "e" ++ (if e <? 0 then "-" else "+") ++ pad2 (int_repr (Z.abs e))
  end.

Definition frac_repr (u : Decimal.uint) : string :=
  match u with
  | Decimal.Nil => ""
  | _ => "." ++ digits_of u
  end.

Definition fin_repr (neg : bool) (ipart : N) (frac : Decimal.uint) (ex : option Z) : string :=
  (if neg then "-" else "") ++ int_repr (Z.of_N ipart) ++ frac_repr frac ++ exp_repr ex.

(** [float.__repr__]. *)
Definition float_repr (f : pyfloat) : string :=
  match f with
  | FNan => "nan"
  | FInf false => "inf"
  | FInf true => "-inf"
  | FFin n i fr ex => fin_repr n i fr ex
  end.

(** The text [json.dumps] writes for a float ([allow_nan] is left at its
    default, so the three special values are written as JavaScript
    constants). *)
Definition float_json (f : pyfloat) : string :=
  match f with
  | FNan => "NaN"
  | FInf false => "Infinity"
  | FInf true => "-Infinity"
  | FFin n i fr ex => fin_repr n i fr ex
  end.

(* ================================================================== *)
(** ** Python values *)

(** Keys of a dict.  [KOther] is any other hashable key (a tuple, a
    frozenset, bytes, ...): the module never looks inside one, only
    [json.dumps] reports its class and [repr] prints it. *)
Inductive pykey : Type :=
| KStr (s : string)
| KInt (z : Z)
| KFloat (f : pyfloat)
| KBool (b : bool)
| KNone
| KOther (cls : string) (rep : string).

(** What the module can observe of an object that is not one of the
    built-in JSON types:
    - [o_class]: [type(o).__name__] (and [__qualname__]: classes are
      taken to be top-level ones);
    - [o_module]: [o.__module__];
    - [o_str], [o_repr]: the results of [str(o)] and [repr(o)];
    - [o_agent]: the outcome of [isinstance(o, Agent)];
    - [o_to_json]: [None] when the object has no attribute [to_json],
      otherwise the outcome of [str(o.to_json())]. *)
Record objinfo : Type := mkInfo {
  o_class : string;
  o_module : string;
  o_str : string;
  o_repr : string;
  o_agent : bool;
  o_to_json : option (result string)
}.

(** A dict is the list of its items in insertion order (the order
    [json.dumps] and [repr] follow); its keys are meant to be distinct. *)
Inductive pyval : Type :=
| PNone
| PBool (b : bool)
| PInt (z : Z)
| PFloat (f : pyfloat)
| PStr (s : string)
| PList (l : list pyval)
| PTuple (l : list pyval)
| PDict (items : list (pykey * pyval))
| PObj (info : objinfo) (attrs : list (string * pyval)).

(** [type(v).__name__]. *)
Definition type_name (v : pyval) : string :=
  match v with
  | PNone => "NoneType"
  | PBool _ => "bool"
  | PInt _ => "int"
  | PFloat _ => "float"
  | PStr _ => "str"
  | PList _ => "list"
  | PTuple _ => "tuple"
  | PDict _ => "dict"
  | PObj i _ => o_class i
  end.

Fixpoint lookup {A} (k : string) (l : list (string * A)) : option A :=
  match l with
  | [] => None
  | (k', v) :: t => if String.eqb k k' then Some v else lookup k t
  end.

(** [hasattr(v, name)] and [getattr(v, name)] for a data attribute.
    The built-in values have none of the attributes the module asks for
    ([name], [client], [wrapper_id], [usage], [to_json], ...). *)
Definition hasattr (v : pyval) (name : string) : bool :=
  match v with
  | PObj _ attrs => match lookup name attrs with Some _ => true | None => false end
  | _ => false
  end.

Definition no_attribute (v : pyval) (name : string) : exn :=
  AttributeError ("'" ++ type_name v ++ "' object has no attribute '" ++ name ++ "'").

Definition getattr (v : pyval) (name : string) : result pyval :=
  match v with
  | PObj _ attrs =>
      match lookup name attrs with
      | Some x => Ok x
      | None => Raise (no_attribute v name)
      end
  | _ => Raise (no_attribute v name)
  end.

(** [v.__module__]: defined on instances of Python-level classes; an
    instance of a built-in type has no such attribute. *)
Definition get_module (v : pyval) : result string :=
  match v with
  | PObj i _ => Ok (o_module i)
  | _ => Raise (no_attribute v "__module__")
  end.

(** [hasattr(o, "to_json")]. *)
Definition has_to_json (v : pyval) : bool :=
  match v with
  | PObj i _ => match o_to_json i with Some _ => true | None => false end
  | _ => false
  end.

(* ================================================================== *)
(** ** [repr] and [str] *)

Definition dq : ascii := "034"%char.
Definition sq : ascii := "039"%char.
Definition bslash : ascii := "092"%char.

Fixpoint has_char (c : ascii) (s : string) : bool :=
  match s with
  | EmptyString => false
  | String d r => Ascii.eqb c d || has_char c r
  end.

(** [str.isprintable] on the code points below 256. *)
Definition is_printable (c : ascii) : bool :=
  (((32 <=? code c) && (code c <=? 126)) ||
   ((161 <=? code c) && negb (code c =? 173)))%N.

Definition repr_char (q c : ascii) : string :=
  if Ascii.eqb c q || Ascii.eqb c bslash then String bslash (String c "")
  else if Ascii.eqb c "009" then "\t"
  else if Ascii.eqb c "010" then "\n"
  else if Ascii.eqb c "013" then "\r"
  else if is_printable c then String c ""
  else "\x" ++ hex2 c.

Fixpoint repr_chars (q : ascii) (s : string) : string :=
  match s with
  | EmptyString => ""
  | String c r => repr_char q c ++ repr_chars q r
  end.

(** [repr] of a str: single quotes, unless the text has a single quote
    and no double quote. *)
Definition str_repr (s : string) : string :=
  let q := if has_char sq s && negb (has_char dq s) then dq else sq in
  String q (repr_chars q s ++ String q "").

Definition key_repr (k : pykey) : string :=
  match k with
  | KStr s => str_repr s
  | KInt z => int_repr z
  | KFloat f => float_repr f
  | KBool true => "True"
  | KBool false => "False"
  | KNone => "None"
  | KOther _ r => r
  end.

Fixpoint py_repr (v : pyval) : string :=
  match v with
  | PNone => "None"
  | PBool true => "True"
  | PBool false => "False"
  | PInt z => int_repr z
  | PFloat f => float_repr f
  | PStr s => str_repr s
  | PList l => "[" ++ concat ", " (map py_repr l) ++ "]"
  | PTuple l =>
      match l with
      | [x] => "(" ++ py_repr x ++ ",)"
      | _ => "(" ++ concat ", " (map py_repr l) ++ ")"
      end
  | PDict items =>
      "{" ++ concat ", "
               (map (fun kv => match kv with
                               | (k, x) => key_repr k ++ ": " ++ py_repr x
                               end) items) ++ "}"
  | PObj i _ => o_repr i
  end.

(** [str(v)]. *)
Definition py_str (v : pyval) : string :=
  match v with
  | PStr s => s
  | PObj i _ => o_str i
  | _ => py_repr v
  end.

(* ================================================================== *)
(** ** JSON: [json.dumps] *)

(** The tree of a JSON text.  A number keeps its token. *)
Inductive jval : Type :=
| JNull
| JBool (b : bool)
| JNum (lexeme : string)
| JStr (s : string)
| JArr (elems : list jval)
| JObj (members : list (string * jval)).

(** [json.encoder.py_encode_basestring_ascii] ([ensure_ascii] is left at
    its default): everything outside [' '..'~'] is escaped. *)
Definition json_escape_char (c : ascii) : string :=
  if Ascii.eqb c dq then String bslash (String dq "")
  else if Ascii.eqb c bslash then String bslash (String bslash "")
  else if Ascii.eqb c "010" then "\n"
  else if Ascii.eqb c "013" then "\r"
  else if Ascii.eqb c "009" then "\t"
  else if Ascii.eqb c "012" then "\f"
  else if Ascii.eqb c "008" then "\b"
  else if ((32 <=? code c) && (code c <=? 126))%N then String c ""
  else "\u00" ++ hex2 c.

Fixpoint json_escape (s : string) : string :=
  match s with
  | EmptyString => ""
  | String c r => json_escape_char c ++ json_escape r
  end.

Definition json_string (s : string) : string :=
  String dq (json_escape s ++ String dq "").

Definition render_member (render : jval -> string) (m : string * jval) : string :=
  match m with
  | (k, x) => json_string k ++ ": " ++ render x
  end.

(** The text of a tree, with the default separators [", "] and [": "]. *)
Fixpoint render (j : jval) : string :=
  match j with
  | JNull => "null"
  | JBool true => "true"
  | JBool false => "false"
  | JNum l => l
  | JStr s => json_string s
  | JArr l => "[" ++ concat ", " (map render l) ++ "]"
  | JObj ms => "{" ++ concat ", " (map (render_member render) ms) ++ "}"
  end.

(** The key of a dict item as [json.dumps] writes it; with [skipkeys]
    left at [False] any other key is a [TypeError]. *)
Definition key_json (k : pykey) : result string :=
  match k with
  | KStr s => Ok s
  | KFloat f => Ok (float_json f)
  | KBool true => Ok "true"
  | KBool false => Ok "false"
  | KNone => Ok "null"
  | KInt z => Ok (int_repr z)
  | KOther c _ =>
      Raise (TypeError ("keys must be str, int, float, bool or None, not " ++ c))
  end.

Section Traverse.
Variables A B : Type.
Variable f : A -> result B.

(** Left to right; the first exception ends the traversal. *)
Fixpoint traverse (l : list A) : result (list B) :=
  match l with
  | [] => Ok []
  | x :: t =>
      match f x with
      | Raise e => Raise e
      | Ok y => match traverse t with
                | Raise e => Raise e
                | Ok ys => Ok (y :: ys)
                end
      end
  end.
End Traverse.

(** The [default=] hook of [json.dumps].  Both hooks of this module
    return a str, which the encoder then writes as a JSON string. *)
Definition hook : Type := pyval -> result string.

(** The tree [json.dumps(v, default=h)] writes: lists and tuples become
    arrays, dicts objects, and a value of any other class goes through
    the hook. *)
Fixpoint to_jval (h : hook) (v : pyval) : result jval :=
  match v with
  | PNone => Ok JNull
  | PBool b => Ok (JBool b)
  | PInt z => Ok (JNum (int_repr z))
  | PFloat f => Ok (JNum (float_json f))
  | PStr s => Ok (JStr s)
  | PList l | PTuple l =>
      match traverse (to_jval h) l with
      | Ok js => Ok (JArr js)
      | Raise e => Raise e
      end
  | PDict items =>
      match traverse (fun kv => match kv with
                                | (k, x) =>
                                    match key_json k with
                                    | Raise e => Raise e
                                    | Ok k' => match to_jval h x with
                                               | Raise e => Raise e
                                               | Ok x' => Ok (k', x')
                                               end
                                    end
                                end) items with
      | Ok ms => Ok (JObj ms)
      | Raise e => Raise e
      end
  | PObj _ _ =>
      match h v with
      | Ok s => Ok (JStr s)
      | Raise e => Raise e
      end
  end.

Definition json_dumps_with (h : hook) (v : pyval) : result string :=
  match to_jval h v with
  | Ok j => Ok (render j)
  | Raise e => Raise e
  end.

(** Without a hook, [JSONEncoder.default] raises. *)
Definition no_default : hook :=
  fun o => Raise (TypeError ("Object of type " ++ type_name o ++ " is not JSON serializable")).

(** [json.dumps(v)]. *)
Definition json_dumps (v : pyval) : result string := json_dumps_with no_default v.

(** *** [safe_serialize] *)

Definition placeholder (o : pyval) : string :=
  "<<non-serializable: " ++ type_name o ++ ">>".

(** [str(o.to_json())]. *)
Definition call_to_json (o : pyval) : result string :=
  match o with
  | PObj i _ =>
      match o_to_json i with
      | Some r => r
      | None => Raise (no_attribute o "to_json")
      end
  | _ => Raise (no_attribute o "to_json")
  end.

(** The inner function [default] of [safe_serialize]. *)
Definition default (o : pyval) : result string :=
  if has_to_json o then call_to_json o
  else Ok (placeholder o).

Definition safe_serialize (obj : pyval) : result string :=
  json_dumps_with default obj.

(** The hook of [log_event]:
    [lambda o: f"<<non-serializable: {type(o).__qualname__}>>"]. *)
Definition event_default : hook := fun o => Ok (placeholder o).

(* ================================================================== *)
(** ** JSON: a recogniser for the grammar ([json.loads])

    The recogniser follows [json.scanner] and [json.decoder]: white
    space is skipped between tokens, strings are scanned in strict mode
    (no raw control character), numbers follow the decoder's regular
    expression, and the constants [NaN], [Infinity] and [-Infinity] are
    accepted as the decoder accepts them.  It returns the tree of the
    text; a number keeps its token.  Strings are over the 8-bit alphabet
    of the model: an escape [\uXXXX] above [ÿ] is not accepted. *)

Definition is_ws (c : ascii) : bool :=
  Ascii.eqb c " " || Ascii.eqb c "009" || Ascii.eqb c "010" || Ascii.eqb c "013".

Fixpoint skip_ws (s : string) : string :=
  match s with
  | String c r => if is_ws c then skip_ws r else s
  | EmptyString => s
  end.

(** The character [c], and what follows it. *)
Definition expect (c : ascii) (s : string) : option string :=
  match s with
  | String d r => if Ascii.eqb c d then Some r else None
  | EmptyString => None
  end.

Definition hexval (c : ascii) : option N :=
  let n := code c in
  (if (48 <=? n) && (n <=? 57) then Some (n - 48)
   else if (97 <=? n) && (n <=? 102) then Some (n - 87)
   else if (65 <=? n) && (n <=? 70) then Some (n - 55)
   else None)%N.

Definition hex4 (a b c d : ascii) : option ascii :=
  match hexval a, hexval b, hexval c, hexval d with
  | Some x, Some y, Some z, Some w =>
      let n := (((x * 16 + y) * 16 + z) * 16 + w)%N in
      if (n <? 256)%N then Some (ascii_of_N n) else None
  | _, _, _, _ => None
  end.

(** The character of a one-letter escape. *)
Definition unescape (e : ascii) : option ascii :=
  if Ascii.eqb e dq then Some dq
  else if Ascii.eqb e bslash then Some bslash
  else if Ascii.eqb e "/" then Some "/"%char
  else if Ascii.eqb e "b" then Some "008"%char
  else if Ascii.eqb e "f" then Some "012"%char
  else if Ascii.eqb e "n" then Some "010"%char
  else if Ascii.eqb e "r" then Some "013"%char
  else if Ascii.eqb e "t" then Some "009"%char
  else None.

Definition cons_char (c : ascii) (r : option (string * string)) : option (string * string) :=
  match r with
  | Some (s, rest) => Some (String c s, rest)
  | None => None
  end.

(** The body of a string, after its opening quote: the decoded text and
    what follows the closing quote. *)
Fixpoint scan_string (s : string) : option (string * string) :=
  match s with
  | EmptyString => None
  | String c r =>
      if Ascii.eqb c dq then Some ("", r)
      else if Ascii.eqb c bslash then
        match r with
        | String e r' =>
            if Ascii.eqb e "u" then
              match r' with
              | String h1 (String h2 (String h3 (String h4 r''))) =>
                  match hex4 h1 h2 h3 h4 with
                  | Some ch => cons_char ch (scan_string r'')
                  | None => None
                  end
              | _ => None
              end
            else
              match unescape e with
              | Some ch => cons_char ch (scan_string r')
              | None => None
              end
        | EmptyString => None
        end
      else if (code c <? 32)%N then None
      else cons_char c (scan_string r)
  end.

(** The longest prefix of digits, and the rest. *)
Fixpoint scan_digits (s : string) : string * string :=
  match s with
  | String c r =>
      if is_digit c then
        match scan_digits r with
        | (d, rest) => (String c d, rest)
        end
      else ("", s)
  | EmptyString => ("", "")
  end.

(** The integer part: a single [0], or a non-zero digit and more digits. *)
Definition scan_int (s : string) : option (string * string) :=
  match s with
  | String c r =>
      if Ascii.eqb c "0" then Some ("0", r)
      else if is_digit c then Some (scan_digits s)
      else None
  | EmptyString => None
  end.

(** The optional fraction: a point and one digit or more. *)
Definition scan_frac (s : string) : string * string :=
  match s with
  | String c r =>
      if Ascii.eqb c "." then
        match scan_digits r with
        | (EmptyString, _) => ("", s)
        | (d, rest) => (String c d, rest)
        end
      else ("", s)
  | EmptyString => ("", s)
  end.

(** The optional exponent: [e] or [E], an optional sign, one digit or more. *)
Definition scan_exp (s : string) : string * string :=
  match s with
  | String c r =>
      if Ascii.eqb c "e" || Ascii.eqb c "E" then
        match r with
        | String g r' =>
            if Ascii.eqb g "+" || Ascii.eqb g "-" then
              match scan_digits r' with
              | (EmptyString, _) => ("", s)
              | (d, rest) => (String c (String g d), rest)
              end
            else
              match scan_digits r with
              | (EmptyString, _) => ("", s)
              | (d, rest) => (String c d, rest)
              end
        | EmptyString => ("", s)
        end
      else ("", s)
  | EmptyString => ("", s)
  end.

(** [NUMBER_RE]: an optional minus sign, the integer part, the optional
    fraction and the optional exponent. *)
Definition scan_number (s : string) : option (string * string) :=
  let (sign, s1) := match s with
                    | String c r => if Ascii.eqb c "-" then ("-", r) else ("", s)
                    | EmptyString => ("", s)
                    end in
  match scan_int s1 with
  | None => None
  | Some (i, s2) =>
      let (f, s3) := scan_frac s2 in
      let (e, s4) := scan_exp s3 in
      Some (sign ++ i ++ f ++ e, s4)
  end.

Fixpoint strip_prefix (p s : string) : option string :=
  match p with
  | EmptyString => Some s
  | String c p' =>
      match s with
      | String d s' => if Ascii.eqb c d then strip_prefix p' s' else None
      | EmptyString => None
      end
  end.

(** Scalars other than strings: the three literals, a number, or one of
    the constants the decoder also takes. *)
Definition scan_atom (s : string) : option (jval * string) :=
  match strip_prefix "null" s with
  | Some r => Some (JNull, r)
  | None =>
  match strip_prefix "true" s with
  | Some r => Some (JBool true, r)
  | None =>
  match strip_prefix "false" s with
  | Some r => Some (JBool false, r)
  | None =>
  match scan_number s with
  | Some (l, r) => Some (JNum l, r)
  | None =>
  match strip_prefix "NaN" s with
  | Some r => Some (JNum "NaN", r)
  | None =>
  match strip_prefix "Infinity" s with
  | Some r => Some (JNum "Infinity", r)
  | None =>
  match strip_prefix "-Infinity" s with
  | Some r => Some (JNum "-Infinity", r)
  | None => None
  end end end end end end end.

(** One value at the head of [s] (white space already skipped), with
    [n] bounding the depth of the recursion. *)
Fixpoint parse_value (n : nat) (s : string) : option (jval * string) :=
  match n with
  | O => None
  | S n' =>
      match s with
      | EmptyString => None
      | String c r =>
          if Ascii.eqb c dq then
            match scan_string r with
            | Some (x, rest) => Some (JStr x, rest)
            | None => None
            end
          else if Ascii.eqb c "[" then
            match expect "]" (skip_ws r) with
            | Some rest => Some (JArr [], rest)
            | None =>
                match parse_elems n' (skip_ws r) with
                | Some (l, rest) => Some (JArr l, rest)
                | None => None
                end
            end
          else if Ascii.eqb c "{" then
            match expect "}" (skip_ws r) with
            | Some rest => Some (JObj [], rest)
            | None =>
                match parse_members n' (skip_ws r) with
                | Some (l, rest) => Some (JObj l, rest)
                | None => None
                end
            end
          else scan_atom s
      end
  end

with parse_elems (n : nat) (s : string) : option (list jval * string) :=
  match n with
  | O => None
  | S n' =>
      match parse_value n' s with
      | None => None
      | Some (x, r) =>
          match skip_ws r with
          | String c r1 =>
              if Ascii.eqb c "," then
                match parse_elems n' (skip_ws r1) with
                | Some (l, rest) => Some (x :: l, rest)
                | None => None
                end
              else if Ascii.eqb c "]" then Some ([x], r1)
              else None
          | EmptyString => None
          end
      end
  end

with parse_members (n : nat) (s : string) : option (list (string * jval) * string) :=
  match n with
  | O => None
  | S n' =>
      match s with
      | EmptyString => None
      | String c r =>
          if Ascii.eqb c dq then
            match scan_string r with
            | None => None
            | Some (k, r1) =>
                match skip_ws r1 with
                | String c1 r2 =>
                    if Ascii.eqb c1 ":" then
                      match parse_value n' (skip_ws r2) with
                      | None => None
                      | Some (x, r3) =>
                          match skip_ws r3 with
                          | String c3 r4 =>
                              if Ascii.eqb c3 "," then
                                match parse_members n' (skip_ws r4) with
                                | Some (l, rest) => Some ((k, x) :: l, rest)
                                | None => None
                                end
                              else if Ascii.eqb c3 "}" then Some ([(k, x)], r4)
                              else None
                          | EmptyString => None
                          end
                      end
                    else None
                | EmptyString => None
                end
            end
          else None
      end
  end.

(** [json.loads]: one value, then nothing but white space. *)
Definition json_loads (s : string) : option jval :=
  match parse_value (S (String.length s)) (skip_ws s) with
  | Some (j, rest) =>
      match skip_ws rest with
      | EmptyString => Some j
      | _ => None
      end
  | None => None
  end.

(** The value of a member of an object. *)
Definition member (k : string) (j : jval) : option jval :=
  match j with
  | JObj ms => lookup k ms
  | _ => None
  end.

(* ================================================================== *)
(** ** The host, the recorded effects and the monad *)

(** The three logging entry points the module uses: [self.logger.info]
    and [self.logger.error] (the root logger, which carries the
    OpenTelemetry handler) and [logger.error] of the module-level
    logger. *)
Inductive sink : Type := RootInfo | RootError | ModuleError.

(** A span as the tracer has been told of it: its name, the
    [start_time] argument ([None]: the tracer's own clock), the
    attributes set so far, and [sp_end]: [None] while the span is open,
    [Some None] once ended at the tracer's clock, [Some (Some t)] once
    ended at the instant [t]. *)
Record span : Type := mkSpan {
  sp_name : string;
  sp_start : option Z;
  sp_attrs : list (string * pyval);
  sp_end : option (option Z)
}.

(** What the module reads from its surroundings:
    - [h_thread]: [threading.get_ident()];
    - [h_id]: [id(v)];
    - [h_clock]: the successive results of [get_current_ts()];
    - [h_utcoff]: the offset of local time from UTC, in seconds (a zone
      with a fixed offset);
    - [h_fault]: the exception an entry point of [logging] raises for a
      message, if it raises one. *)
Record host : Type := mkHost {
  h_thread : Z;
  h_id : pyval -> Z;
  h_clock : nat -> string;
  h_utcoff : Z;
  h_fault : sink -> string -> option exn
}.

(** What a run leaves behind, most recent first: the messages accepted
    by the logging entry points, the spans, the lines written to
    standard output; [ticks] counts the readings of the clock. *)
Record effects : Type := mkEff {
  ticks : nat;
  logs : list (sink * string);
  spans : list span;
  stdout : list string
}.

Definition no_effects : effects := mkEff 0 [] [] [].

Definition M (A : Type) : Type := host -> effects -> result A * effects.

Definition ret {A} (a : A) : M A := fun _ e => (Ok a, e).

Definition bind {A B} (m : M A) (k : A -> M B) : M B :=
  fun h e =>
    match m h e with
    | (Ok a, e') => k a h e'
    | (Raise x, e') => (Raise x, e')
    end.

Definition lift {A} (r : result A) : M A := fun _ e => (r, e).

Declare Scope py_scope.
Delimit Scope py_scope with py.
Notation "x <- c ;; k" := (bind c (fun x => k))
  (at level 61, c at next level, right associativity) : py_scope.
Notation "c ;; k" := (bind c (fun _ => k))
  (at level 61, right associativity) : py_scope.
#[local] Open Scope py_scope.

(** [try: body except Exception as e: handler e]. *)
Definition try_except {A} (body : M A) (handler : exn -> M A) : M A :=
  fun h e =>
    match body h e with
    | (Raise x, e') => if is_Exception x then handler x h e' else (Raise x, e')
    | r => r
    end.

(** [threading.get_ident()]. *)
Definition get_ident : M Z := fun h e => (Ok (h_thread h), e).

(** [id(v)]. *)
Definition py_id (v : pyval) : M Z := fun h e => (Ok (h_id h v), e).

(** Modelled from the spec: [get_current_ts] of
    [autogen.logger.logger_utils] is not part of the sources at hand; the
    spec has it produce the timestamp of "now", a calendar date-time
    with microsecond precision.  Each call reads the host's clock. *)
Definition get_current_ts : M string :=
  fun h e =>
    (Ok (h_clock h (ticks e)),
     mkEff (S (ticks e)) (logs e) (spans e) (stdout e)).

(** A call of a logging entry point: the message is recorded, unless
    the entry point raises. *)
Definition emit (s : sink) (msg : string) : M unit :=
  fun h e =>
    match h_fault h s msg with
    | Some x => (Raise x, e)
    | None => (Ok tt, mkEff (ticks e) ((s, msg) :: logs e) (spans e) (stdout e))
    end.

(** [print(v)]. *)
Definition print (v : pyval) : M unit :=
  fun _ e =>
    (Ok tt, mkEff (ticks e) (logs e) (spans e) ((py_str v ++ String "010" "") :: stdout e)).

(** *** The tracer *)

Definition set_spans (l : list span) (e : effects) : effects :=
  mkEff (ticks e) (logs e) l (stdout e).

Definition span_start (name : string) (start : option Z) : M unit :=
  fun _ e => (Ok tt, set_spans (mkSpan name start [] None :: spans e) e).

(** [current_span.set_attribute(k, v)]; an ended span ignores it. *)
Definition set_attribute (k : string) (v : pyval) : M unit :=
  fun _ e =>
    match spans e with
    | sp :: rest =>
        match sp_end sp with
        | None =>
            (Ok tt,
             set_spans (mkSpan (sp_name sp) (sp_start sp) (sp_attrs sp ++ [(k, v)]) None :: rest) e)
        | Some _ => (Ok tt, e)
        end
    | [] => (Ok tt, e)
    end.

(** [current_span.end(t)]; ending a span twice changes nothing. *)
Definition span_end (t : option Z) : M unit :=
  fun _ e =>
    match spans e with
    | sp :: rest =>
        match sp_end sp with
        | None =>
            (Ok tt,
             set_spans (mkSpan (sp_name sp) (sp_start sp) (sp_attrs sp) (Some t) :: rest) e)
        | Some _ => (Ok tt, e)
        end
    | [] => (Ok tt, e)
    end.

(** [with self.tracer.start_as_current_span(name, start_time=start) as
    current_span: body]: on the way out, normal or not, the context
    manager ends the span if the body has not. *)
Definition with_span (name : string) (start : option Z) (body : M unit) : M unit :=
  fun h e =>
    match span_start name start h e with
    | (Raise x, e1) => (Raise x, e1)
    | (Ok _, e1) =>
        match body h e1 with
        | (r, e2) => (r, snd (span_end None h e2))
        end
    end.

(* ================================================================== *)
(** ** Time: [datetime.strptime], [datetime.timestamp] and binary64 *)

Record datetime : Type := mkDT {
  dt_year : Z;
  dt_month : Z;
  dt_day : Z;
  dt_hour : Z;
  dt_minute : Z;
  dt_second : Z;
  dt_micro : Z
}.

Definition dval (c : ascii) : Z := Z.of_N (code c) - 48.

(** A field of the format that takes two digits or one.  [two] and
    [one] say which pairs of digits and which single digits the field's
    regular expression admits.  Every such field is followed by a
    separator, so where the two-digit alternative matches the one-digit
    alternative cannot lead to a match and no backtracking is needed. *)
Definition scan_field (two : Z -> Z -> bool) (one : Z -> bool) (s : string)
  : option (Z * string) :=
  match s with
  | String a r =>
      if is_digit a then
        match r with
        | String b r' =>
            if is_digit b && two (dval a) (dval b)
            then Some (10 * dval a + dval b, r')
            else if one (dval a) then Some (dval a, r) else None
        | EmptyString => if one (dval a) then Some (dval a, r) else None
        end
      else None
  | EmptyString => None
  end.

(** [%m]: [1[0-2]|0[1-9]|[1-9]]. *)
Definition scan_month : string -> option (Z * string) :=
  scan_field (fun a b => ((a =? 1) && (b <=? 2)) || ((a =? 0) && (1 <=? b)))
             (fun a => 1 <=? a).

(** [%d]: [3[01]|[12]\d|0[1-9]|[1-9]| [1-9]]. *)
Definition scan_day (s : string) : option (Z * string) :=
  match scan_field (fun a b => ((a =? 3) && (b <=? 1)) || (a =? 1) || (a =? 2)
                               || ((a =? 0) && (1 <=? b)))
                   (fun a => 1 <=? a) s with
  | Some r => Some r
  | None =>
      match s with
      | String " " (String a r) =>
          if is_digit a && (1 <=? dval a) then Some (dval a, r) else None
      | _ => None
      end
  end.

(** [%H]: [2[0-3]|[0-1]\d|\d]. *)
Definition scan_hour : string -> option (Z * string) :=
  scan_field (fun a b => ((a =? 2) && (b <=? 3)) || (a <=? 1)) (fun _ => true).

(** [%M]: [[0-5]\d|\d]. *)
Definition scan_minute : string -> option (Z * string) :=
  scan_field (fun a _ => a <=? 5) (fun _ => true).

(** [%S]: [6[0-1]|[0-5]\d|\d]. *)
Definition scan_second : string -> option (Z * string) :=
  scan_field (fun a b => ((a =? 6) && (b <=? 1)) || (a <=? 5)) (fun _ => true).

(** [%Y]: four digits. *)
Definition scan_year (s : string) : option (Z * string) :=
  match s with
  | String a (String b (String c (String d r))) =>
      if is_digit a && is_digit b && is_digit c && is_digit d
      then Some (((dval a * 10 + dval b) * 10 + dval c) * 10 + dval d, r)
      else None
  | _ => None
  end.

(** [%f]: one to six digits, read as if padded with zeros on the right. *)
Fixpoint scan_micro_aux (n : nat) (acc : Z) (s : string) : Z * string :=
  match n with
  | O => (acc, s)
  | S n' =>
      match s with
      | String c r =>
          if is_digit c then scan_micro_aux n' (acc * 10 + dval c) r
          else (acc * 10 ^ Z.of_nat n, s)
      | EmptyString => (acc * 10 ^ Z.of_nat n, s)
      end
  end.

Definition scan_micro (s : string) : option (Z * string) :=
  match s with
  | String c r => if is_digit c then Some (scan_micro_aux 5 (dval c) r) else None
  | EmptyString => None
  end.

(** White space as the regular expression [\s] sees it on a str. *)
Definition is_space (c : ascii) : bool :=
  (((9 <=? code c) && (code c <=? 13)) || ((28 <=? code c) && (code c <=? 32))
   || (code c =? 133) || (code c =? 160))%N.

Fixpoint skip_space (s : string) : string :=
  match s with
  | String c r => if is_space c then skip_space r else s
  | EmptyString => s
  end.

(** [\s+] *)
Definition scan_spaces (s : string) : option string :=
  match s with
  | String c r => if is_space c then Some (skip_space r) else None
  | EmptyString => None
  end.

Definition obind {A B} (o : option A) (k : A -> option B) : option B :=
  match o with
  | Some a => k a
  | None => None
  end.

(** The regular expression of the format ["%Y-%m-%d %H:%M:%S.%f"]. *)
Definition match_format (s : string) : option (datetime * string) :=
  obind (scan_year s) (fun '(y, s) =>
  obind (expect "-" s) (fun s =>
  obind (scan_month s) (fun '(mo, s) =>
  obind (expect "-" s) (fun s =>
  obind (scan_day s) (fun '(d, s) =>
  obind (scan_spaces s) (fun s =>
  obind (scan_hour s) (fun '(h, s) =>
  obind (expect ":" s) (fun s =>
  obind (scan_minute s) (fun '(mi, s) =>
  obind (expect ":" s) (fun s =>
  obind (scan_second s) (fun '(sec, s) =>
  obind (expect "." s) (fun s =>
  obind (scan_micro s) (fun '(us, s) =>
  Some (mkDT y mo d h mi sec us, s)))))))))))))).

Definition is_leap (y : Z) : bool :=
  (y mod 4 =? 0) && (negb (y mod 100 =? 0) || (y mod 400 =? 0)).

Definition days_in_month (y m : Z) : Z :=
  if m =? 2 then (if is_leap y then 29 else 28)
  else if (m =? 4) || (m =? 6) || (m =? 9) || (m =? 11) then 30
  else 31.

Definition time_format : string := "%Y-%m-%d %H:%M:%S.%f".

(** [datetime.strptime(data, "%Y-%m-%d %H:%M:%S.%f")]. *)
Definition strptime (data : pyval) : result datetime :=
  match data with
  | PStr s =>
      match match_format s with
      | None =>
          Raise (ValueError ("time data " ++ str_repr s ++ " does not match format "
                             ++ str_repr time_format))
      | Some (dt, EmptyString) =>
          if dt_year dt =? 0 then Raise (ValueError "year 0 is out of range")
          else if days_in_month (dt_year dt) (dt_month dt) <? dt_day dt
          then Raise (ValueError "day is out of range for month")
          else if 59 <? dt_second dt
          then Raise (ValueError "second must be in 0..59")
          else Ok dt
      | Some (_, rest) => Raise (ValueError ("unconverted data remains: " ++ rest))
      end
  | _ =>
      Raise (TypeError ("strptime() argument 1 must be str, not " ++ type_name data))
  end.

(** *** Binary64 arithmetic

    A finite double is the rational it denotes.  [round53] rounds a
    rational to the nearest number with a 53-bit significand, ties to
    even; the magnitudes met here (from a microsecond to the
    nanoseconds of the year 9999) are far from the limits of the
    exponent, which is therefore left unbounded. *)

Definition pow2 (e : Z) : Q := (2 ^ e)%Q.

(** [floor (log2 x)] for [x > 0]. *)
Definition ilog2 (x : Q) : Z :=
  let l := Z.log2 (Qnum x) - Z.log2 (Zpos (Qden x)) in
  if Qle_bool (pow2 l) x then l else l - 1.

(** The nearest integer, ties to even. *)
Definition rne (y : Q) : Z :=
  let f := Qfloor y in
  match ((y - inject_Z f) ?= (1 # 2))%Q with
  | Lt => f
  | Gt => f + 1
  | Eq => if Z.even f then f else f + 1
  end.

Definition round53_pos (x : Q) : Q :=
  let e := ilog2 x - 52 in
  (inject_Z (rne (x * pow2 (- e))) * pow2 e)%Q.

Definition round53 (x : Q) : Q :=
  match Qnum x with
  | Z0 => 0%Q
  | Zpos _ => round53_pos x
  | Zneg _ => (- round53_pos (- x))%Q
  end.

Definition fadd (x y : Q) : Q := round53 (x + y).
Definition fmul (x y : Q) : Q := round53 (x * y).
Definition fdiv (x y : Q) : Q := round53 (x / y).
Definition float_of_int (z : Z) : Q := round53 (inject_Z z).

(** [int(x)]: truncation towards zero. *)
Definition int_of_float (x : Q) : Z :=
  if Qle_bool 0 x then Qfloor x else Qceiling x.

(** *** [datetime.timestamp] *)

Definition days_before_year (y : Z) : Z :=
  (y - 1) * 365 + (y - 1) / 4 - (y - 1) / 100 + (y - 1) / 400.

Definition days_before_month (y m : Z) : Z :=
  nth (Z.to_nat m) [0; 0; 31; 59; 90; 120; 151; 181; 212; 243; 273; 304; 334] 0
  + (if (2 <? m) && is_leap y then 1 else 0).

Definition ymd_to_ord (y m d : Z) : Z :=
  days_before_year y + days_before_month y m + d.

(** [utc_to_seconds]: seconds from the start of the proleptic calendar
    of the date-time's fields. *)
Definition utc_to_seconds (dt : datetime) : Z :=
  ymd_to_ord (dt_year dt) (dt_month dt) (dt_day dt) * 86400
  + dt_hour dt * 3600 + dt_minute dt * 60 + dt_second dt.

Definition min_seconds : Z := 86400.
Definition max_seconds : Z := 3652060 * 86400.
Definition epoch : Z := 719163 * 86400.

(** [local(u)]: the local time of the instant [u] in a zone [off]
    seconds east of UTC; it has to fall in the years 1 to 9999. *)
Definition local (off u : Z) : result Z :=
  if u + off <? min_seconds then Raise (ValueError "year 0 is out of range")
  else if max_seconds <=? u + off then Raise (ValueError "year 10000 is out of range")
  else Ok (u + off).

(** [local_to_seconds] for a naive date-time ([fold] is 0): the instant
    [u1] whose local time is [dt].  The function also looks a day
    earlier for a second solution; in a zone with a fixed offset there
    is none, but the look itself fails on the first day of year 1. *)
Definition local_to_seconds (off : Z) (dt : datetime) : result Z :=
  let t := utc_to_seconds dt in
  match local off t with
  | Raise e => Raise e
  | Ok lt =>
      let a := lt - t in
      let u1 := t - a in
      match local off u1 with
      | Raise e => Raise e
      | Ok _ =>
          match local off (u1 - 86400) with
          | Raise e => Raise e
          | Ok _ => Ok u1
          end
      end
  end.

(** [dt.timestamp()] of a naive date-time:
    [seconds - epoch + microsecond / 1e6], in doubles. *)
Definition timestamp (off : Z) (dt : datetime) : result Q :=
  match local_to_seconds off dt with
  | Raise e => Raise e
  | Ok seconds =>
      Ok (fadd (float_of_int (seconds - epoch))
               (fdiv (float_of_int (dt_micro dt)) (float_of_int 1000000)))
  end.

(** [int(dt.timestamp() * 1e9)]: the instant in nanoseconds. *)
Definition to_ns (off : Z) (dt : datetime) : result Z :=
  match timestamp off dt with
  | Raise e => Raise e
  | Ok t => Ok (int_of_float (fmul t (float_of_int 1000000000)))
  end.

(* ================================================================== *)
(** ** [uuid.uuid4] *)

(** [k] hexadecimal digits of [n], most significant first, in front of
    [acc]: [format(n, "032x")] when [k] is 32 and [n < 2 ^ 128]. *)
Fixpoint hex_of (k : nat) (n : Z) (acc : string) : string :=
  match k with
  | O => acc
  | S k' => hex_of k' (n / 16) (String (hexdigit (Z.to_N (n mod 16))) acc)
  end.

(** [UUID(bytes=os.urandom(16), version=4).int]: the sixteen random
    bytes are the low 128 bits of [rnd]; the variant and version bits
    are then forced. *)
Definition uuid4_int (rnd : Z) : Z :=
  let i := rnd mod 2 ^ 128 in
  let i := Z.land i (Z.lnot (Z.shiftl 49152 48)) in
  let i := Z.lor i (Z.shiftl 32768 48) in
  let i := Z.land i (Z.lnot (Z.shiftl 61440 64)) in
  Z.lor i (Z.shiftl 4 76).

(** [UUID.__str__]: the 32 digits in groups of 8, 4, 4, 4 and 12. *)
Definition uuid_str (i : Z) : string :=
  let h := hex_of 32 i "" in
  substring 0 8 h ++ "-" ++ substring 8 4 h ++ "-" ++ substring 12 4 h
  ++ "-" ++ substring 16 4 h ++ "-" ++ substring 20 12 h.

(** [str(uuid.uuid4())]. *)
Definition uuid4 (rnd : Z) : string := uuid_str (uuid4_int rnd).

Definition is_hex (c : ascii) : bool :=
  match hexval c with Some _ => true | None => false end.

(** [n] hexadecimal digits at the head of [s]; what follows them. *)
Fixpoint take_hex (n : nat) (s : string) : option string :=
  match n with
  | O => Some s
  | S n' =>
      match s with
      | String c r => if is_hex c then take_hex n' r else None
      | EmptyString => None
      end
  end.

(** The canonical text of a UUID: 8-4-4-4-12 hexadecimal digits. *)
Definition is_uuid (s : string) : bool :=
  match
    obind (take_hex 8 s) (fun s =>
    obind (expect "-" s) (fun s =>
    obind (take_hex 4 s) (fun s =>
    obind (expect "-" s) (fun s =>
    obind (take_hex 4 s) (fun s =>
    obind (expect "-" s) (fun s =>
    obind (take_hex 4 s) (fun s =>
    obind (expect "-" s) (fun s =>
    take_hex 12 s))))))))
  with
  | Some EmptyString => true
  | _ => false
  end.

(* ================================================================== *)
(** ** The logger *)

(** Names bound in the module's namespace once it is imported (the
    imports under [TYPE_CHECKING] are not executed). *)
Definition module_globals : list string :=
  ["annotations"; "datetime"; "json"; "logging"; "os"; "threading"; "uuid";
   "TYPE_CHECKING"; "Any"; "Callable"; "Dict"; "List"; "Optional"; "Tuple";
   "TypeVar"; "Union"; "AzureOpenAI"; "OpenAI"; "ChatCompletion"; "BaseLogger";
   "get_current_ts"; "to_dict"; "LLMConfig"; "trace"; "TracerProvider";
   "BatchSpanProcessor"; "set_logger_provider"; "LoggerProvider";
   "LoggingHandler"; "BatchLogRecordProcessor"; "Resource";
   "ConsoleSpanExporter"; "OTLPLogExporter"; "OTLPSpanExporter"; "logger";
   "F"; "__all__"; "safe_serialize"; "OtelLogger"].

(** Evaluating a global name in a module whose namespace binds the
    names [ns]. *)
Definition global_in (ns : list string) (name : string) : result unit :=
  if existsb (String.eqb name) ns then Ok tt
  else Raise (NameError ("name '" ++ name ++ "' is not defined")).

(** [os.environ]. *)
Definition environ : Type := string -> option string.

(** [os.environ.get(k, dflt)]. *)
Definition environ_get (env : environ) (k dflt : string) : string :=
  match env k with
  | Some v => v
  | None => dflt
  end.

Inductive exporter : Type :=
| OTLPLogExporter
| OTLPSpanExporter
| AzureMonitorLogExporter (connection_string : option string)
| AzureMonitorTraceExporter (connection_string : option string).

Record OtelLogger : Type := mkLogger {
  config : pyval;
  session_id : string;
  log_exporter : exporter;
  span_exporter : exporter
}.

(** [OtelLogger.__init__], run in a module whose namespace binds the
    names [ns]: the session id is drawn, then the exporters are chosen
    from [EXPORTER_TYPE].  (The providers, the handler and the tracer
    that are then wired up are the back ends behind [emit] and
    [with_span].) *)
Definition init_in (ns : list string) (cfg : pyval) (env : environ) (rnd : Z)
  : result OtelLogger :=
  let sid := uuid4 rnd in
  if String.eqb (environ_get env "EXPORTER_TYPE" "otlp") "otlp" then
    match global_in ns "OTLPLogExporter" with
    | Raise e => Raise e
    | Ok _ =>
        match global_in ns "OTLPSpanExporter" with
        | Raise e => Raise e
        | Ok _ => Ok (mkLogger cfg sid OTLPLogExporter OTLPSpanExporter)
        end
    end
  else
    match global_in ns "AzureMonitorLogExporter" with
    | Raise e => Raise e
    | Ok _ =>
        let log_exp :=
          AzureMonitorLogExporter (env "APPLICATIONINSIGHTS_CONNECTION_STRING") in
        match global_in ns "AzureMonitorTraceExporter" with
        | Raise e => Raise e
        | Ok _ =>
            Ok (mkLogger cfg sid log_exp
                  (AzureMonitorTraceExporter (env "APPLICATIONINSIGHTS_CONNECTION_STRING")))
        end
    end.

(** [OtelLogger(config)] in the module as it is. *)
Definition init (cfg : pyval) (env : environ) (rnd : Z) : result OtelLogger :=
  init_in module_globals cfg env rnd.

(** [try: body finally: return v]: whatever the body does, [v] is
    returned. *)
Definition finally_return {A B} (body : M A) (v : B) : M B :=
  fun h e => (Ok v, snd (body h e)).

Definition start (self : OtelLogger) : M string :=
  finally_return
    (try_except
       (emit RootInfo ("Started new session with Session ID: " ++ session_id self))
       (fun x => emit ModuleError
                   ("[otel_logger] Failed to create logging file: " ++ exn_str x)))
    (session_id self).

(** Modelled from the spec: the test [k in exclude] of [to_dict]; a key
    that is not a str is in no exclusion set of strs. *)
Definition excluded (exclude : list string) (k : pykey) : bool :=
  match k with
  | KStr s => existsb (String.eqb s) exclude
  | _ => false
  end.

(** Modelled from the spec: [to_dict] of [autogen.logger.logger_utils]
    is not part of the sources at hand.  The spec: "projects an
    arbitrary config-like structure into a plain mapping, dropping keys
    present in an exclusion set ... Must not mutate the input."  A
    mapping loses the items whose key is in [exclude]; any other value
    is returned as it is. *)
Definition to_dict (obj : pyval) (exclude : list string) : pyval :=
  match obj with
  | PDict items => PDict (filter (fun kv => negb (excluded exclude (fst kv))) items)
  | _ => obj
  end.

(** [int(dt.timestamp() * 1e9)] in the host's zone. *)
Definition instant (dt : datetime) : M Z :=
  fun h e => (to_ns (h_utcoff h) dt, e).

(** [str(source.name) if hasattr(source, "name") else source]. *)
Definition source_label (source : pyval) : result pyval :=
  if hasattr source "name" then
    match getattr source "name" with
    | Ok n => Ok (PStr (py_str n))
    | Raise e => Raise e
    end
  else Ok source.

(** [response.usage.<field>]. *)
Definition usage_of (response : pyval) (field : string) : result pyval :=
  match getattr response "usage" with
  | Raise e => Raise e
  | Ok u => getattr u field
  end.

(** The first lines of [log_chat_completion]: the source itself when it
    is a str, ["Unknown"] when it is [None], else [source.name]. *)
Definition chat_source_name (source : pyval) : result pyval :=
  match source with
  | PStr _ => Ok source
  | PNone => Ok (PStr "Unknown")
  | _ => getattr source "name"
  end.

Definition log_chat_completion (self : OtelLogger)
    (invocation_id client_id wrapper_id source request response
     is_cached cost start_time : pyval) : M unit :=
  thread_id <- get_ident ;;
  source_name <- lift (chat_source_name source) ;;
  try_except
    (end_time <- get_current_ts ;;
     prompt_tokens <- lift (usage_of response "prompt_tokens") ;;
     completion_tokens <- lift (usage_of response "completion_tokens") ;;
     total_tokens <- lift (usage_of response "total_tokens") ;;
     log_data <- lift (json_dumps (PDict
       [(KStr "invocation_id", PStr (py_str invocation_id));
        (KStr "client_id", client_id);
        (KStr "wrapper_id", wrapper_id);
        (KStr "request", to_dict request []);
        (KStr "response", PStr (py_str response));
        (KStr "is_cached", is_cached);
        (KStr "cost", cost);
        (KStr "start_time", start_time);
        (KStr "end_time", PStr end_time);
        (KStr "thread_id", PInt thread_id);
        (KStr "source_name", source_name);
        (KStr "prompt_tokens", prompt_tokens);
        (KStr "completion_tokens", completion_tokens);
        (KStr "total_tokens", total_tokens)])) ;;
     start_time_stamp <- lift (strptime start_time) ;;
     now <- get_current_ts ;;
     end_time_stamp <- lift (strptime (PStr now)) ;;
     start_ns <- instant start_time_stamp ;;
     with_span "llm_span" (Some start_ns)
       (set_attribute "data" (PStr log_data) ;;
        set_attribute "cost" cost ;;
        set_attribute "source_name" source_name ;;
        p <- lift (usage_of response "prompt_tokens") ;;
        set_attribute "prompt_tokens" p ;;
        c <- lift (usage_of response "completion_tokens") ;;
        set_attribute "completion_tokens" c ;;
        t <- lift (usage_of response "total_tokens") ;;
        set_attribute "total_tokens" t ;;
        end_ns <- instant end_time_stamp ;;
        span_end (Some end_ns)) ;;
     emit RootInfo log_data)
    (fun x => emit RootError
                ("[otel_logger] Failed to log chat completion: " ++ exn_str x)).

(** [x is not None]. *)
Definition is_not_None (v : pyval) : bool :=
  match v with
  | PNone => false
  | _ => true
  end.

Definition log_new_agent (self : OtelLogger) (agent init_args : pyval) : M unit :=
  thread_id <- get_ident ;;
  try_except
    (agent_id <- py_id agent ;;
     agent_name <- lift (if hasattr agent "name" then
                           match getattr agent "name" with
                           | Ok n => Ok (if is_not_None n then n else PStr "")
                           | Raise e => Raise e
                           end
                         else Ok (PStr "")) ;;
     wrapper_id <- lift (if hasattr agent "client" then
                           match getattr agent "client" with
                           | Ok c => if is_not_None c then getattr c "wrapper_id"
                                     else Ok (PStr "")
                           | Raise e => Raise e
                           end
                         else Ok (PStr "")) ;;
     current_time <- get_current_ts ;;
     log_data <- lift (json_dumps (PDict
       [(KStr "id", PInt agent_id);
        (KStr "agent_name", agent_name);
        (KStr "wrapper_id", to_dict wrapper_id []);
        (KStr "session_id", PStr (session_id self));
        (KStr "current_time", PStr current_time);
        (KStr "agent_type", PStr (type_name agent));
        (KStr "thread_id", PInt thread_id)])) ;;
     emit RootInfo log_data)
    (fun x => emit RootError ("[otel_logger] Failed to log new agent: " ++ exn_str x)).

(** The keyword arguments of a call, as the dict [kwargs]. *)
Definition kwargs_dict (kwargs : list (string * pyval)) : pyval :=
  PDict (map (fun kv => (KStr (fst kv), snd kv)) kwargs).

Definition is_Agent (v : pyval) : bool :=
  match v with
  | PObj i _ => o_agent i
  | _ => false
  end.

Definition log_event (self : OtelLogger) (source name : pyval)
    (kwargs : list (string * pyval)) : M unit :=
  json_args <- lift (json_dumps_with event_default (kwargs_dict kwargs)) ;;
  thread_id <- get_ident ;;
  print (kwargs_dict kwargs) ;;
  if is_Agent source then
    try_except
      (start_time <- match lookup "start_time" kwargs with
                     | None | Some PNone => ret None
                     | Some st =>
                         start_time_stamp <- lift (strptime st) ;;
                         t <- instant start_time_stamp ;;
                         ret (Some t)
                     end ;;
       source_id <- py_id source ;;
       source_name <- lift (source_label source) ;;
       agent_module <- lift (get_module source) ;;
       timestamp <- get_current_ts ;;
       log_data <- lift (json_dumps (PDict
         [(KStr "source_id", PInt source_id);
          (KStr "source_name", source_name);
          (KStr "event_name", name);
          (KStr "agent_module", PStr agent_module);
          (KStr "agent_class", PStr (type_name source));
          (KStr "json_state", PStr json_args);
          (KStr "timestamp", PStr timestamp);
          (KStr "thread_id", PInt thread_id)])) ;;
       n <- lift (getattr source "name") ;;
       with_span (py_str n ++ ":" ++ py_str name) start_time
         (n' <- lift (getattr source "name") ;;
          set_attribute "source_name" n' ;;
          set_attribute "event_name" name ;;
          set_attribute "data" (PStr log_data) ;;
          span_end None) ;;
       emit RootInfo log_data)
      (fun x => emit RootError ("[otel_logger] Failed to log event " ++ exn_str x))
  else
    try_except
      (source_id <- py_id source ;;
       source_name <- lift (source_label source) ;;
       timestamp <- get_current_ts ;;
       log_data <- lift (json_dumps (PDict
         [(KStr "source_id", PInt source_id);
          (KStr "source_name", source_name);
          (KStr "event_name", name);
          (KStr "json_state", PStr json_args);
          (KStr "timestamp", PStr timestamp);
          (KStr "thread_id", PInt thread_id)])) ;;
       emit RootInfo log_data)
      (fun x => emit RootError ("[otel_logger] Failed to log event " ++ exn_str x)).

(** The keys [log_new_wrapper] keeps out of the record. *)
Definition wrapper_exclude : list string :=
  ["self"; "__class__"; "api_key"; "organization"; "base_url";
   "azure_endpoint"; "azure_ad_token"; "azure_ad_token_provider"].

Definition log_new_wrapper (self : OtelLogger) (wrapper init_args : pyval) : M unit :=
  thread_id <- get_ident ;;
  try_except
    (let args := to_dict init_args wrapper_exclude in
     wrapper_id <- py_id wrapper ;;
     json_state <- lift (json_dumps args) ;;
     timestamp <- get_current_ts ;;
     log_data <- lift (json_dumps (PDict
       [(KStr "wrapper_id", PInt wrapper_id);
        (KStr "session_id", PStr (session_id self));
        (KStr "json_state", PStr json_state);
        (KStr "timestamp", PStr timestamp);
        (KStr "thread_id", PInt thread_id)])) ;;
     emit RootInfo log_data)
    (fun x => emit RootError ("[otel_logger] Failed to log new wrapper " ++ exn_str x)).

Definition log_new_client (self : OtelLogger) (client wrapper init_args : pyval) : M unit :=
  thread_id <- get_ident ;;
  try_except
    (client_id <- py_id client ;;
     wrapper_id <- py_id wrapper ;;
     json_state <- lift (json_dumps init_args) ;;
     timestamp <- get_current_ts ;;
     log_data <- lift (json_dumps (PDict
       [(KStr "client_id", PInt client_id);
        (KStr "wrapper_id", PInt wrapper_id);
        (KStr "session_id", PStr (session_id self));
        (KStr "class", PStr (type_name client));
        (KStr "json_state", PStr json_state);
        (KStr "timestamp", PStr timestamp);
        (KStr "thread_id", PInt thread_id)])) ;;
     emit RootInfo log_data)
    (fun x => emit RootError ("[otel_logger] Failed to log new client " ++ exn_str x)).

Definition log_function_use (self : OtelLogger) (source function args returns : pyval)
  : M unit :=
  thread_id <- get_ident ;;
  try_except
    (source_id <- py_id source ;;
     source_name <- lift (source_label source) ;;
     agent_module <- lift (get_module source) ;;
     timestamp <- get_current_ts ;;
     input_args <- lift (safe_serialize args) ;;
     returned <- lift (safe_serialize returns) ;;
     log_data <- lift (json_dumps (PDict
       [(KStr "source_id", PInt source_id);
        (KStr "source_name", source_name);
        (KStr "agent_module", PStr agent_module);
        (KStr "agent_class", PStr (type_name source));
        (KStr "timestamp", PStr timestamp);
        (KStr "thread_id", PInt thread_id);
        (KStr "input_args", PStr input_args);
        (KStr "returns", PStr returned)])) ;;
     with_span "function_span" None
       (label <- lift (source_label source) ;;
        set_attribute "source_name" label ;;
        set_attribute "data" (PStr log_data) ;;
        span_end None) ;;
     emit RootInfo log_data)
    (fun x => emit RootError ("[otel_logger] Failed to log function use " ++ exn_str x)).

(** [get_connection]: nothing to do. *)
Definition get_connection (self : OtelLogger) : M unit := ret tt.

(** [stop]: closes and removes the [FileHandler]s of the root logger.
    The handler [__init__] installed is not one of them, so the entry
    points behind [emit] stay as they are. *)
Definition stop (self : OtelLogger) : M unit := ret tt.

(** *** [stop] and the handlers of the root logger

    What [stop] works on is the list [self.logger.handlers].  A handler
    is known by its identity (handlers compare by identity); [is_file]
    says of an identity whether the object is a [logging.FileHandler]. *)

(** [self.logger.removeHandler(hdlr)]: [self.handlers.remove(hdlr)]
    when [hdlr in self.handlers]; the first occurrence goes. *)
Fixpoint remove_handler (x : Z) (l : list Z) : list Z :=
  match l with
  | [] => []
  | y :: t => if x =? y then t else y :: remove_handler x t
  end.

(** The loop [for handler in self.logger.handlers: ...] of [stop].  The
    iterator of a list is an index into the list as it is at that
    moment: [i] is the index, [hs] the list, [closed] the handlers
    closed so far, most recent first.  Each turn moves the index on,
    and the list never grows, so [fuel] at least the length of the list
    is never used up. *)
Fixpoint stop_loop (is_file : Z -> bool) (fuel i : nat) (hs closed : list Z)
  : list Z * list Z :=
  match fuel with
  | O => (hs, closed)
  | S fuel' =>
      match nth_error hs i with
      | None => (hs, closed)
      | Some hd =>
          if is_file hd
          then stop_loop is_file fuel' (S i) (remove_handler hd hs) (hd :: closed)
          else stop_loop is_file fuel' (S i) hs closed
      end
  end.

(** [stop] on the handlers [hs]: the handlers left, and the handlers
    closed. *)
Definition stop_handlers (is_file : Z -> bool) (hs : list Z) : list Z * list Z :=
  stop_loop is_file (List.length hs) 0 hs [].

(** [n] calls of [stop] in a row. *)
Fixpoint stop_times (is_file : Z -> bool) (n : nat) (hs : list Z) : list Z :=
  match n with
  | O => hs
  | S n' => stop_times is_file n' (fst (stop_handlers is_file hs))
  end.

(* ================================================================== *)
(** * Properties *)

Unset Implicit Arguments.

(** ** Strings *)

Lemma append_nil_r (s : string) : s ++ "" = s.
Proof. induction s; simpl; congruence. Qed.

Lemma append_assoc (a b c : string) : (a ++ b) ++ c = a ++ (b ++ c).
Proof. induction a; simpl; congruence. Qed.

Lemma length_append (a b : string) :
  String.length (a ++ b) = (String.length a + String.length b)%nat.
Proof. induction a; simpl; congruence. Qed.

(** *** Strings survive [json.dumps] and the scanner *)

Lemma scan_escape_char (c : ascii) (t r rest : string) :
  scan_string t = Some (r, rest) ->
  scan_string (json_escape_char c ++ t) = Some (String c r, rest).
Proof.
  intros Ht.
  destruct c as [[] [] [] [] [] [] [] []];
    cbv [json_escape_char hex2 code]; simpl; rewrite ?Ht; reflexivity.
Qed.

Lemma scan_json_escape (s rest : string) :
  scan_string (json_escape s ++ String dq rest) = Some (s, rest).
Proof.
  induction s as [|c s IH]; simpl.
  - reflexivity.
  - rewrite append_assoc. now apply scan_escape_char.
Qed.

(** *** Numbers survive [json.dumps] and the scanner *)

(** What can follow a value inside a JSON text: nothing, a comma or a
    closing bracket. *)
Definition delim (s : string) : Prop :=
  match s with
  | EmptyString => True
  | String c _ => c = ","%char \/ c = "]"%char \/ c = "}"%char
  end.

Definition nodigit (s : string) : Prop :=
  match s with
  | EmptyString => True
  | String c _ => is_digit c = false
  end.

Lemma delim_nodigit s : delim s -> nodigit s.
Proof.
  destruct s as [|c s]; simpl; auto.
  intros [-> | [-> | ->]]; reflexivity.
Qed.

Lemma scan_digits_app (s rest d r : string) :
  nodigit rest ->
  scan_digits s = (d, r) ->
  scan_digits (s ++ rest) = (d, r ++ rest).
Proof.
  intros Hrest. revert d r.
  induction s as [|c s IH]; simpl; intros d r H.
  - inversion H; subst. destruct rest as [|c r']; simpl in *; auto.
    now rewrite Hrest.
  - destruct (is_digit c).
    + destruct (scan_digits s) as [d0 r0]. inversion H; subst.
      now rewrite (IH _ _ eq_refl).
    + now inversion H.
Qed.

Lemma scan_digits_uint (u : Decimal.uint) (rest : string) :
  nodigit rest ->
  scan_digits (digits_of u ++ rest) = (digits_of u, rest).
Proof.
  intros Hrest. unfold digits_of.
  induction u; simpl; try (rewrite IHu; reflexivity).
  destruct rest as [|c r]; simpl in *; auto. now rewrite Hrest.
Qed.

Lemma digits_of_nonempty (u : Decimal.uint) :
  u <> Decimal.Nil -> exists c r, digits_of u = String c r /\ is_digit c = true.
Proof.
  destruct u; intros H; try congruence; simpl; eauto.
Qed.

(** The decimal numeral of a positive number does not start with [0]. *)
Lemma to_uint_head (p : positive) :
  exists c r, digits_of (Pos.to_uint p) = String c r
              /\ is_digit c = true /\ c <> "0"%char.
Proof.
  assert (Hn : Decimal.unorm (Pos.to_uint p) = Pos.to_uint p).
  { rewrite <- (DecimalPos.Unsigned.to_of (Pos.to_uint p)).
    now rewrite DecimalPos.Unsigned.of_to. }
  pose proof (DecimalPos.Unsigned.to_uint_nonzero p) as Hz.
  pose proof (DecimalPos.Unsigned.to_uint_nonnil p) as Hnil.
  destruct (Pos.to_uint p) as [|u|u|u|u|u|u|u|u|u|u] eqn:E;
    try congruence;
    try (simpl; do 2 eexists; split; [reflexivity | split; [reflexivity | discriminate]]).
  exfalso.
  rewrite DecimalFacts.unorm_D0 in Hn.
  unfold Decimal.unorm in Hn.
  destruct (Decimal.nzhead u) eqn:Eh; try discriminate Hn.
  - apply Hz. exact (eq_sym Hn).
  - now apply DecimalFacts.nzhead_nonzero in Eh.
Qed.

Lemma scan_int_uint (p : positive) (rest : string) :
  nodigit rest ->
  scan_int (digits_of (Pos.to_uint p) ++ rest)
  = Some (digits_of (Pos.to_uint p), rest).
Proof.
  intros Hrest.
  destruct (to_uint_head p) as (c & r & E & Hd & H0).
  pose proof (scan_digits_uint (Pos.to_uint p) rest Hrest) as Hs.
  rewrite E in *. simpl in *. 
  destruct (Ascii.eqb_spec c "0"); [congruence|].
  rewrite Hd in *. now rewrite Hs.
Qed.

(** The numeral of a natural number, as [scan_int] sees it. *)
Lemma scan_int_nat (n : N) (rest : string) :
  nodigit rest ->
  scan_int (int_repr (Z.of_N n) ++ rest) = Some (int_repr (Z.of_N n), rest).
Proof.
  intros Hrest. destruct n as [|p].
  - reflexivity.
  - unfold int_repr. simpl.
    change (NilZero.string_of_uint (Pos.to_uint p)) with
      (match Pos.to_uint p with
       | Decimal.Nil => "0"
       | _ => digits_of (Pos.to_uint p)
       end).
    pose proof (DecimalPos.Unsigned.to_uint_nonnil p) as Hnil.
    pose proof (scan_int_uint p rest Hrest) as H.
    destruct (Pos.to_uint p); try congruence; exact H.
Qed.

Lemma scan_frac_delim (rest : string) : delim rest -> scan_frac rest = ("", rest).
Proof.
  destruct rest as [|c r]; simpl; auto.
  intros [-> | [-> | ->]]; reflexivity.
Qed.

Lemma scan_exp_delim (rest : string) : delim rest -> scan_exp rest = ("", rest).
Proof.
  destruct rest as [|c r]; simpl; auto.
  intros [-> | [-> | ->]]; reflexivity.
Qed.

(** The numeral of a natural number is a non-empty run of digits. *)
Lemma int_repr_digits (n : Z) :
  0 <= n -> exists u, u <> Decimal.Nil /\ int_repr n = digits_of u.
Proof.
  intros Hn. destruct n as [|p|p]; try lia.
  - exists (Decimal.D0 Decimal.Nil). split; [discriminate | reflexivity].
  - exists (Pos.to_uint p). split.
    + apply DecimalPos.Unsigned.to_uint_nonnil.
    + unfold int_repr. simpl. unfold NilZero.string_of_uint.
      pose proof (DecimalPos.Unsigned.to_uint_nonnil p).
      destruct (Pos.to_uint p); try reflexivity; congruence.
Qed.

Lemma pad2_digits (u : Decimal.uint) :
  u <> Decimal.Nil ->
  exists u', u' <> Decimal.Nil /\ pad2 (digits_of u) = digits_of u'.
Proof.
  intros Hu.
  assert (H : pad2 (digits_of u) = digits_of u
              \/ pad2 (digits_of u) = digits_of (Decimal.D0 u)).
  { change (digits_of (Decimal.D0 u)) with (String "0" (digits_of u)).
    unfold pad2. destruct (digits_of u) as [|c [|d r]]; auto. }
  destruct H as [H | H]; rewrite H.
  - exists u. now split.
  - exists (Decimal.D0 u). split; [discriminate | reflexivity].
Qed.

Lemma scan_digits_nonnil (u : Decimal.uint) (rest : string) :
  u <> Decimal.Nil -> nodigit rest ->
  exists c r, digits_of u = String c r
              /\ scan_digits (digits_of u ++ rest) = (String c r, rest).
Proof.
  intros Hu Hrest.
  destruct (digits_of_nonempty u Hu) as (c & r & E & _).
  exists c, r. split; auto. rewrite <- E. now apply scan_digits_uint.
Qed.

Lemma scan_exp_repr (ex : option Z) (rest : string) :
  delim rest -> scan_exp (exp_repr ex ++ rest) = (exp_repr ex, rest).
Proof.
  intros Hrest. destruct ex as [e|]; simpl.
  2: now apply scan_exp_delim.
  destruct (int_repr_digits (Z.abs e) (Z.abs_nonneg e)) as (u & Hu & Eu).
  destruct (pad2_digits u Hu) as (u' & Hu' & Eu').
  rewrite Eu, Eu'.
  destruct (scan_digits_nonnil u' rest Hu' (delim_nodigit _ Hrest)) as (c & r & E & Hs).
  destruct (e <? 0); simpl; rewrite Hs; rewrite E; reflexivity.
Qed.

Definition exp_head (s : string) : Prop :=
  match s with
  | EmptyString => True
  | String c _ => is_digit c = false /\ c <> "."%char
  end.

Lemma exp_repr_head (ex : option Z) (rest : string) :
  delim rest -> exp_head (exp_repr ex ++ rest).
Proof.
  intros Hrest. destruct ex as [e|]; simpl.
  - split; [reflexivity | discriminate].
  - destruct rest as [|c r]; simpl in *; auto.
    destruct Hrest as [-> | [-> | ->]]; split; try reflexivity; discriminate.
Qed.

Lemma scan_frac_repr (fr : Decimal.uint) (rest : string) :
  exp_head rest -> scan_frac (frac_repr fr ++ rest) = (frac_repr fr, rest).
Proof.
  intros Hrest.
  assert (Hnd : nodigit rest) by (destruct rest; simpl in *; tauto).
  destruct (Decimal.uint_eq_dec fr Decimal.Nil) as [-> | Hfr].
  - simpl. destruct rest as [|c r]; simpl in *; auto.
    destruct Hrest as [_ Hc].
    destruct (Ascii.eqb_spec c "."); [congruence | reflexivity].
  - destruct (scan_digits_nonnil fr rest Hfr Hnd) as (c & r & E & Hs).
    assert (Hf : frac_repr fr = String "." (digits_of fr))
      by (destruct fr; try congruence; reflexivity).
    rewrite Hf. simpl. rewrite Hs, E. reflexivity.
Qed.

Lemma frac_repr_head (fr : Decimal.uint) (rest : string) :
  exp_head rest -> nodigit (frac_repr fr ++ rest).
Proof.
  intros Hrest. destruct fr; simpl; try reflexivity.
  destruct rest; simpl in *; tauto.
Qed.

Lemma scan_number_unsigned (c : ascii) (r : string) :
  c <> "-"%char ->
  scan_number (String c r)
  = match scan_int (String c r) with
    | None => None
    | Some (i, s2) =>
        let (f, s3) := scan_frac s2 in
        let (e, s4) := scan_exp s3 in
        Some (i ++ f ++ e, s4)
    end.
Proof.
  intros Hc. unfold scan_number.
  destruct (Ascii.eqb_spec c "-"); [congruence|].
  destruct (scan_int (String c r)) as [[i s2]|]; auto.
Qed.

(** The scanner takes the whole literal of a finite float, and of an
    int, and stops there. *)
Lemma scan_number_fin (neg : bool) (i : N) (fr : Decimal.uint) (ex : option Z)
      (rest : string) :
  delim rest ->
  scan_number (fin_repr neg i fr ex ++ rest) = Some (fin_repr neg i fr ex, rest).
Proof.
  intros Hrest. unfold fin_repr.
  pose proof (exp_repr_head ex rest Hrest) as He.
  pose proof (frac_repr_head fr _ He) as Hf.
  pose proof (scan_int_nat i (frac_repr fr ++ exp_repr ex ++ rest) Hf) as Hi.
  rewrite !append_assoc.
  destruct neg.
  - unfold scan_number. simpl.
    rewrite Hi, (scan_frac_repr fr _ He), (scan_exp_repr ex rest Hrest).
    reflexivity.
  - destruct (int_repr_digits (Z.of_N i) (N2Z.is_nonneg i)) as (u & Hu & Eu).
    destruct (digits_of_nonempty u Hu) as (c & r & E & Hd).
    assert (Hc : c <> "-"%char) by (intros ->; discriminate Hd).
    rewrite Eu, E in *. cbn [append] in *.
    rewrite (scan_number_unsigned c _ Hc).
    rewrite Hi, (scan_frac_repr fr _ He), (scan_exp_repr ex rest Hrest).
    reflexivity.
Qed.

Lemma scan_number_int (z : Z) (rest : string) :
  delim rest ->
  scan_number (int_repr z ++ rest) = Some (int_repr z, rest).
Proof.
  intros Hrest.
  assert (E : int_repr z = fin_repr (z <? 0) (Z.to_N (Z.abs z)) Decimal.Nil None).
  { unfold fin_repr. simpl. rewrite !append_nil_r.
    destruct z as [|p|p]; try reflexivity. }
  rewrite E. now apply scan_number_fin.
Qed.

(** ** The text of a tree parses back to the tree *)

Definition num_head (c : ascii) : Prop :=
  is_digit c = true \/ c = "-"%char \/ c = "N"%char \/ c = "I"%char.

(** A number token: it starts like a number and, followed by what can
    follow a value, the scanner reads it back whole. *)
Definition num_lexeme (l : string) : Prop :=
  (exists c r, l = String c r /\ num_head c) /\
  forall rest, delim rest -> scan_atom (l ++ rest) = Some (JNum l, rest).

(** Trees whose number tokens are number tokens. *)
Fixpoint wf_jval (j : jval) : Prop :=
  match j with
  | JNum l => num_lexeme l
  | JArr l => fold_right (fun x P => wf_jval x /\ P) True l
  | JObj ms => fold_right (fun m P => wf_jval (snd m) /\ P) True ms
  | _ => True
  end.

(** The depth [parse_value] needs for a tree. *)
Fixpoint need (j : jval) : nat :=
  match j with
  | JArr l => S (fold_right (fun x n => S (Nat.max (need x) n)) 0%nat l)
  | JObj ms => S (fold_right (fun m n => S (Nat.max (need (snd m)) n)) 0%nat ms)
  | _ => 1%nat
  end.

Lemma num_head_facts (c : ascii) :
  num_head c ->
  is_ws c = false /\ Ascii.eqb c dq = false /\ Ascii.eqb c "[" = false
  /\ Ascii.eqb c "{" = false /\ Ascii.eqb "]" c = false.
Proof.
  intros H.
  assert (G : forall d, is_digit d = false -> d <> "-"%char -> d <> "N"%char ->
                        d <> "I"%char -> Ascii.eqb c d = false).
  { intros d Hd H1 H2 H3. destruct (Ascii.eqb_spec c d) as [-> | ]; auto.
    destruct H as [H | [H | [H | H]]]; congruence. }
  unfold is_ws. rewrite !G by (reflexivity || discriminate).
  repeat split.
  rewrite Ascii.eqb_sym. apply G; reflexivity || discriminate.
Qed.

Lemma scan_atom_number (c : ascii) (r l rest : string) :
  is_digit c = true \/ c = "-"%char ->
  scan_number (String c r) = Some (l, rest) ->
  scan_atom (String c r) = Some (JNum l, rest).
Proof.
  intros Hc Hs. unfold scan_atom.
  assert (G : forall d, is_digit d = false -> d <> "-"%char -> Ascii.eqb d c = false).
  { intros d Hd H1. destruct (Ascii.eqb_spec d c) as [<- | ]; auto.
    destruct Hc; congruence. }
  cbn [strip_prefix].
  rewrite !G by (reflexivity || discriminate).
  now rewrite Hs.
Qed.

Lemma num_lexeme_fin (neg : bool) (i : N) (fr : Decimal.uint) (ex : option Z) :
  num_lexeme (fin_repr neg i fr ex).
Proof.
  assert (H : exists c r, fin_repr neg i fr ex = String c r
                          /\ (is_digit c = true \/ c = "-"%char)).
  { unfold fin_repr. destruct neg; cbn [append].
    - do 2 eexists. split; [reflexivity | now right].
    - destruct (int_repr_digits (Z.of_N i) (N2Z.is_nonneg i)) as (u & Hu & Eu).
      destruct (digits_of_nonempty u Hu) as (c & r & E & Hd).
      rewrite Eu, E. cbn [append]. do 2 eexists. split; [reflexivity | now left]. }
  destruct H as (c & r & E & Hc). split.
  - exists c, r. split; auto. unfold num_head. tauto.
  - intros rest Hrest.
    pose proof (scan_number_fin neg i fr ex rest Hrest) as Hs.
    rewrite E in *. cbn [append] in *. now apply scan_atom_number.
Qed.

Lemma num_lexeme_int (z : Z) : num_lexeme (int_repr z).
Proof.
  assert (E : int_repr z = fin_repr (z <? 0) (Z.to_N (Z.abs z)) Decimal.Nil None).
  { unfold fin_repr. simpl. rewrite !append_nil_r.
    destruct z as [|p|p]; try reflexivity. }
  rewrite E. apply num_lexeme_fin.
Qed.

Lemma num_lexeme_float (f : pyfloat) : num_lexeme (float_json f).
Proof.
  destruct f as [|[]|neg i fr ex]; simpl.
  4: apply num_lexeme_fin.
  all: split; [do 2 eexists; split; [reflexivity | unfold num_head; auto] |].
  all: intros rest _; reflexivity.
Qed.

(** A rendered tree starts with a character that is neither white
    space nor a closing bracket. *)
Lemma render_head (j : jval) :
  wf_jval j ->
  exists c r, render j = String c r /\ is_ws c = false /\ Ascii.eqb "]" c = false.
Proof.
  destruct j as [|[]|l|s|l|ms]; simpl; intros H;
    try (do 2 eexists; split; [reflexivity | split; reflexivity]).
  destruct H as [(c & r & -> & Hc) _].
  destruct (num_head_facts c Hc) as (? & _ & _ & _ & ?). eauto.
Qed.

Lemma skip_ws_render (j : jval) (rest : string) :
  wf_jval j -> skip_ws (render j ++ rest) = render j ++ rest.
Proof.
  intros H. destruct (render_head j H) as (c & r & -> & Hc & _).
  simpl. now rewrite Hc.
Qed.

Definition needs (l : list jval) : nat :=
  fold_right (fun x n => S (Nat.max (need x) n)) 0%nat l.

Definition wfs (l : list jval) : Prop :=
  fold_right (fun x P => wf_jval x /\ P) True l.

Definition parses (n : nat) : Prop :=
  forall k, (k < n)%nat -> forall j rest,
    wf_jval j -> (need j <= k)%nat -> delim rest ->
    parse_value k (render j ++ rest) = Some (j, rest).

Lemma parse_elems_render (l : list jval) :
  forall n x rest,
    parses n -> wf_jval x -> wfs l -> (needs (x :: l) <= n)%nat ->
    parse_elems n (concat ", " (map render (x :: l)) ++ String "]" rest)
    = Some (x :: l, rest).
Proof.
  induction l as [|y l IH]; intros n x rest Hp Hx Hl Hn.
  - simpl in Hn. destruct n as [|n]; [lia|].
    cbn [map concat parse_elems].
    rewrite (Hp n) by (simpl; auto; lia). reflexivity.
  - cbn [needs fold_right] in Hn. fold (needs l) in Hn.
    destruct n as [|n]; [lia|].
    destruct Hl as [Hy Hl].
    change (concat ", " (map render (x :: y :: l)))
      with (render x ++ ", " ++ concat ", " (map render (y :: l))).
    rewrite !append_assoc. cbn [parse_elems].
    rewrite (Hp n) by (simpl; auto; lia).
    cbn [append skip_ws is_ws Ascii.eqb Bool.eqb orb andb].
    assert (Hs : skip_ws (concat ", " (map render (y :: l)) ++ String "]" rest)
                 = concat ", " (map render (y :: l)) ++ String "]" rest).
    { destruct l as [|z l'].
      - cbn [map concat]. now apply skip_ws_render.
      - change (concat ", " (map render (y :: z :: l')))
          with (render y ++ ", " ++ concat ", " (map render (z :: l'))).
        rewrite append_assoc. now apply skip_ws_render. }
    rewrite Hs.
    rewrite (IH n y rest); auto.
    + intros k Hk. apply Hp. lia.
    + cbn [needs fold_right]. fold (needs l). lia.
Qed.

Definition mneeds (ms : list (string * jval)) : nat :=
  fold_right (fun m n => S (Nat.max (need (snd m)) n)) 0%nat ms.

Definition mwfs (ms : list (string * jval)) : Prop :=
  fold_right (fun m P => wf_jval (snd m) /\ P) True ms.

Lemma parse_members_render (ms : list (string * jval)) :
  forall n m rest,
    parses n -> wf_jval (snd m) -> mwfs ms -> (mneeds (m :: ms) <= n)%nat ->
    parse_members n (concat ", " (map (render_member render) (m :: ms))
                     ++ String "}" rest)
    = Some (m :: ms, rest).
Proof.
  induction ms as [|m' ms IH]; intros n [k x] rest Hp Hx Hl Hn.
  - simpl in Hn, Hx. destruct n as [|n]; [lia|].
    cbn [map concat render_member]. unfold json_string.
    rewrite !append_assoc. cbn [append parse_members].
    rewrite Ascii.eqb_refl.
    rewrite !append_assoc. cbn [append].
    rewrite scan_json_escape.
    cbn [append skip_ws is_ws Ascii.eqb Bool.eqb orb andb].
    rewrite (skip_ws_render x _ Hx).
    rewrite (Hp n) by (simpl; auto; lia). reflexivity.
  - cbn [mneeds fold_right snd] in Hn. fold (mneeds ms) in Hn. simpl in Hx.
    destruct n as [|n]; [lia|].
    destruct Hl as [Hy Hl].
    change (concat ", " (map (render_member render) ((k, x) :: m' :: ms)))
      with ((json_string k ++ ": " ++ render x) ++ ", "
            ++ concat ", " (map (render_member render) (m' :: ms))).
    unfold json_string at 1.
    rewrite !append_assoc. cbn [append parse_members].
    rewrite Ascii.eqb_refl.
    rewrite !append_assoc. cbn [append].
    rewrite scan_json_escape.
    cbn [append skip_ws is_ws Ascii.eqb Bool.eqb orb andb].
    rewrite (skip_ws_render x _ Hx).
    rewrite (Hp n) by (simpl; auto; lia).
    cbn [append skip_ws is_ws Ascii.eqb Bool.eqb orb andb].
    assert (Hs : forall t, skip_ws (concat ", " (map (render_member render) (m' :: ms)) ++ t)
                 = concat ", " (map (render_member render) (m' :: ms)) ++ t).
    { intros t. destruct m' as [k' x']. destruct ms as [|z ms']; reflexivity. }
    rewrite Hs.
    rewrite (IH n m' rest); auto.
    + intros j Hj. apply Hp. lia.
    + cbn [mneeds fold_right]. fold (mneeds ms). lia.
Qed.

Lemma parse_render_fuel (n : nat) :
  forall j rest,
    wf_jval j -> (need j <= n)%nat -> delim rest ->
    parse_value n (render j ++ rest) = Some (j, rest).
Proof.
  induction n as [n IH] using (well_founded_induction lt_wf).
  intros j rest Hj Hn Hrest.
  destruct n as [|n]; [exfalso; destruct j; cbn [need] in Hn; lia|].
  assert (Hp : parses n) by (intros k Hk; apply IH; lia).
  destruct j as [|[]|l|s|l|ms]; try reflexivity.
  - (* number *)
    destruct Hj as [(c & r & -> & Hc) Hscan].
    destruct (num_head_facts c Hc) as (_ & H1 & H2 & H3 & _).
    cbn [render append parse_value]. rewrite H1, H2, H3.
    exact (Hscan rest Hrest).
  - (* string *)
    cbn [render]. unfold json_string.
    cbn [append parse_value]. rewrite Ascii.eqb_refl.
    rewrite append_assoc. cbn [append]. now rewrite scan_json_escape.
  - (* array *)
    cbn [render]. rewrite !append_assoc. cbn [append parse_value].
    cbn [Ascii.eqb Bool.eqb andb dq].
    destruct l as [|x l]; [reflexivity|].
    destruct Hj as [Hx Hl]. cbn [need] in Hn. fold (needs (x :: l)) in Hn.
    assert (Hs : skip_ws (concat ", " (map render (x :: l)) ++ String "]" rest)
                 = concat ", " (map render (x :: l)) ++ String "]" rest
                 /\ expect "]" (concat ", " (map render (x :: l)) ++ String "]" rest)
                    = None).
    { destruct (render_head x Hx) as (c & r & E & Hc & Hb).
      destruct l as [|z l'].
      - cbn [map concat]. rewrite E. cbn [append skip_ws expect].
        now rewrite Hc, Hb.
      - change (concat ", " (map render (x :: z :: l')))
          with (render x ++ ", " ++ concat ", " (map render (z :: l'))).
        rewrite E. cbn [append skip_ws expect]. now rewrite Hc, Hb. }
    destruct Hs as [Hs He]. rewrite Hs, He.
    rewrite (parse_elems_render l n x rest); auto. lia.
  - (* object *)
    cbn [render]. rewrite !append_assoc. cbn [append parse_value].
    cbn [Ascii.eqb Bool.eqb andb dq].
    destruct ms as [|m ms]; [reflexivity|].
    destruct Hj as [Hx Hl]. cbn [need] in Hn. fold (mneeds (m :: ms)) in Hn.
    assert (Hs : skip_ws (concat ", " (map (render_member render) (m :: ms))
                          ++ String "}" rest)
                 = concat ", " (map (render_member render) (m :: ms)) ++ String "}" rest
                 /\ expect "}" (concat ", " (map (render_member render) (m :: ms))
                                ++ String "}" rest) = None).
    { destruct m as [k x]. destruct ms as [|z ms']; split; reflexivity. }
    destruct Hs as [Hs He]. rewrite Hs, He.
    rewrite (parse_members_render ms n m rest); auto. lia.
Qed.

(** Induction on trees and on values, with the hypothesis for every
    element of a list. *)
Section jval_induction.
Variable P : jval -> Prop.
Hypothesis Hnull : P JNull.
Hypothesis Hbool : forall b, P (JBool b).
Hypothesis Hnum : forall l, P (JNum l).
Hypothesis Hstr : forall s, P (JStr s).
Hypothesis Harr : forall l, Forall P l -> P (JArr l).
Hypothesis Hobj : forall ms, Forall (fun m => P (snd m)) ms -> P (JObj ms).

Fixpoint jval_induction (j : jval) : P j :=
  match j with
  | JNull => Hnull
  | JBool b => Hbool b
  | JNum l => Hnum l
  | JStr s => Hstr s
  | JArr l =>
      Harr l ((fix go (l : list jval) : Forall P l :=
                 match l with
                 | [] => Forall_nil P
                 | x :: t => Forall_cons x (jval_induction x) (go t)
                 end) l)
  | JObj ms =>
      Hobj ms ((fix go (ms : list (string * jval)) : Forall (fun m => P (snd m)) ms :=
                  match ms with
                  | [] => Forall_nil _
                  | m :: t => Forall_cons m (jval_induction (snd m)) (go t)
                  end) ms)
  end.
End jval_induction.

Section pyval_induction.
Variable P : pyval -> Prop.
Hypothesis Hnone : P PNone.
Hypothesis Hbool : forall b, P (PBool b).
Hypothesis Hint : forall z, P (PInt z).
Hypothesis Hfloat : forall f, P (PFloat f).
Hypothesis Hstr : forall s, P (PStr s).
Hypothesis Hlist : forall l, Forall P l -> P (PList l).
Hypothesis Htuple : forall l, Forall P l -> P (PTuple l).
Hypothesis Hdict : forall items, Forall (fun kv => P (snd kv)) items -> P (PDict items).
Hypothesis Hobj : forall i attrs, P (PObj i attrs).

Fixpoint pyval_induction (v : pyval) : P v :=
  let go := fix go (l : list pyval) : Forall P l :=
              match l with
              | [] => Forall_nil P
              | x :: t => Forall_cons x (pyval_induction x) (go t)
              end in
  match v with
  | PNone => Hnone
  | PBool b => Hbool b
  | PInt z => Hint z
  | PFloat f => Hfloat f
  | PStr s => Hstr s
  | PList l => Hlist l (go l)
  | PTuple l => Htuple l (go l)
  | PDict items =>
      Hdict items
        ((fix go (l : list (pykey * pyval)) : Forall (fun kv => P (snd kv)) l :=
            match l with
            | [] => Forall_nil _
            | kv :: t => Forall_cons kv (pyval_induction (snd kv)) (go t)
            end) items)
  | PObj i attrs => Hobj i attrs
  end.
End pyval_induction.

Lemma need_le_length (j : jval) :
  wf_jval j -> (need j <= String.length (render j))%nat.
Proof.
  induction j as [| [] | l | s | l IH | ms IH] using jval_induction;
    intros Hj; try (simpl; lia).
  - destruct Hj as [(c & r & -> & _) _]. simpl. lia.
  - cbn [need render]. fold (needs l).
    rewrite ?length_append. cbn [String.length append].
    rewrite ?length_append. cbn [String.length].
    enough (needs l <= String.length (concat ", " (map render l)) + 1)%nat by lia.
    simpl in Hj. fold (wfs l) in Hj.
    induction l as [|x l IHl]; [simpl; lia|].
    inversion IH as [|? ? Hx Hl]; subst. destruct Hj as [Wx Wl].
    specialize (IHl Hl Wl). specialize (Hx Wx).
    cbn [needs fold_right]. fold (needs l).
    destruct l as [|y l].
    + cbn [map concat needs fold_right]. lia.
    + change (concat ", " (map render (x :: y :: l)))
        with (render x ++ ", " ++ concat ", " (map render (y :: l))).
      rewrite !length_append. cbn [String.length]. lia.
  - cbn [need render]. fold (mneeds ms).
    rewrite ?length_append. cbn [String.length append].
    rewrite ?length_append. cbn [String.length].
    enough (mneeds ms <= String.length (concat ", " (map (render_member render) ms)) + 1)%nat
      by lia.
    simpl in Hj. fold (mwfs ms) in Hj.
    induction ms as [|[k x] ms IHl]; [simpl; lia|].
    inversion IH as [|? ? Hx Hl]; subst. destruct Hj as [Wx Wl].
    specialize (IHl Hl Wl). specialize (Hx Wx). cbn [snd] in *.
    cbn [mneeds fold_right snd]. fold (mneeds ms).
    destruct ms as [|y ms].
    + cbn [map concat mneeds fold_right render_member].
      rewrite !length_append. lia.
    + change (concat ", " (map (render_member render) ((k, x) :: y :: ms)))
        with ((json_string k ++ ": " ++ render x) ++ ", "
              ++ concat ", " (map (render_member render) (y :: ms))).
      rewrite !length_append. cbn [String.length]. lia.
Qed.

(** The text of a well-formed tree is valid JSON, and parses back to
    the tree. *)
Theorem json_loads_render (j : jval) :
  wf_jval j -> json_loads (render j) = Some j.
Proof.
  intros Hj. unfold json_loads.
  pose proof (skip_ws_render j "" Hj) as Hs. rewrite append_nil_r in Hs.
  rewrite Hs.
  pose proof (parse_render_fuel (S (String.length (render j))) j "" Hj) as Hp.
  rewrite append_nil_r in Hp. rewrite Hp; auto.
  - pose proof (need_le_length j Hj). lia.
  - exact I.
Qed.

Lemma traverse_Forall2 {A B} (f : A -> result B) (l : list A) (ys : list B) :
  traverse f l = Ok ys -> Forall2 (fun x y => f x = Ok y) l ys.
Proof.
  revert ys. induction l as [|x l IH]; simpl; intros ys H.
  - inversion H. constructor.
  - destruct (f x) eqn:Ex; try discriminate.
    destruct (traverse f l) eqn:El; try discriminate.
    inversion H; subst. constructor; auto.
Qed.

(** Whatever the hook, the tree [json.dumps] builds is well formed. *)
Lemma to_jval_wf (h : hook) (v : pyval) :
  forall j, to_jval h v = Ok j -> wf_jval j.
Proof.
  induction v as [| b | z | f | s | l IH | l IH | items IH | i attrs]
    using pyval_induction; intros j H; simpl in H;
    try (inversion H; subst; simpl; auto; fail).
  - inversion H. apply num_lexeme_int.
  - inversion H. apply num_lexeme_float.
  - destruct (traverse (to_jval h) l) as [js|] eqn:E; inversion H; subst.
    apply traverse_Forall2 in E. simpl.
    induction E as [|x y l js Hxy E IHE]; simpl; auto.
    inversion IH; subst. split; auto.
  - destruct (traverse (to_jval h) l) as [js|] eqn:E; inversion H; subst.
    apply traverse_Forall2 in E. simpl.
    induction E as [|x y l js Hxy E IHE]; simpl; auto.
    inversion IH; subst. split; auto.
  - match type of H with
    | match traverse ?f items with _ => _ end = _ =>
        destruct (traverse f items) as [ms|] eqn:E; inversion H; subst
    end.
    apply traverse_Forall2 in E. simpl.
    induction E as [|[k x] [k' y] l ms Hxy E IHE]; simpl; auto.
    inversion IH; subst. split; auto.
    destruct (key_json k); try discriminate.
    destruct (to_jval h x) eqn:Ex; try discriminate.
    inversion Hxy; subst. auto.
  - destruct (h (PObj i attrs)); inversion H. exact I.
Qed.

(** What [json.dumps] returns, with any hook, is valid JSON: it is the
    text of the tree [to_jval] builds, and it parses back to that
    tree. *)
Theorem json_dumps_with_valid (h : hook) (v : pyval) (s : string) :
  json_dumps_with h v = Ok s ->
  exists j, to_jval h v = Ok j /\ s = render j /\ json_loads s = Some j.
Proof.
  unfold json_dumps_with. intros H.
  destruct (to_jval h v) as [j|] eqn:E; inversion H; subst.
  exists j. repeat split. apply json_loads_render. now apply (to_jval_wf h v).
Qed.

(* ================================================================== *)
(** ** [safe_serialize] *)

Definition key_ok (k : pykey) : bool :=
  match k with
  | KOther _ _ => false
  | _ => true
  end.

(** The inputs on which [safe_serialize] has nothing to stumble on:
    every key of every mapping is a str, a number, a bool or [None],
    and no [to_json] method raises.  (Objects are leaves: what is
    inside one is not visited.) *)
Fixpoint safe_input (v : pyval) : bool :=
  match v with
  | PList l | PTuple l => forallb safe_input l
  | PDict items => forallb (fun kv => key_ok (fst kv) && safe_input (snd kv)) items
  | PObj i _ =>
      match o_to_json i with
      | Some (Raise _) => false
      | _ => true
      end
  | _ => true
  end.

(** The string that stands for a leaf that is not serializable: the
    stringified result of its [to_json] method when it has one, else
    the marker with the name of its type. *)
Definition leaf_text (o : pyval) : string :=
  match o with
  | PObj i _ =>
      match o_to_json i with
      | Some (Ok s) => s
      | _ => placeholder o
      end
  | _ => placeholder o
  end.

Definition key_text (k : pykey) : string :=
  match key_json k with
  | Ok s => s
  | Raise _ => ""
  end.

(** The input as a JSON tree, each leaf that is not serializable
    replaced by its [leaf_text]. *)
Fixpoint safe_tree (v : pyval) : jval :=
  match v with
  | PNone => JNull
  | PBool b => JBool b
  | PInt z => JNum (int_repr z)
  | PFloat f => JNum (float_json f)
  | PStr s => JStr s
  | PList l | PTuple l => JArr (map safe_tree l)
  | PDict items => JObj (map (fun kv => (key_text (fst kv), safe_tree (snd kv))) items)
  | PObj _ _ => JStr (leaf_text v)
  end.

Lemma traverse_map {A B} (f : A -> result B) (g : A -> B) (l : list A) :
  Forall (fun x => f x = Ok (g x)) l -> traverse f l = Ok (map g l).
Proof.
  induction 1 as [|x l Hx Hl IH]; simpl; auto. now rewrite Hx, IH.
Qed.

Lemma to_jval_safe (v : pyval) :
  safe_input v = true -> to_jval default v = Ok (safe_tree v).
Proof.
  induction v as [| b | z | f | s | l IH | l IH | items IH | i attrs]
    using pyval_induction; intros H; try reflexivity.
  - cbn [to_jval safe_tree]. cbn [safe_input] in H.
    rewrite (traverse_map (to_jval default) safe_tree); auto.
    rewrite forallb_forall in H. rewrite Forall_forall in *. auto.
  - cbn [to_jval safe_tree]. cbn [safe_input] in H.
    rewrite (traverse_map (to_jval default) safe_tree); auto.
    rewrite forallb_forall in H. rewrite Forall_forall in *. auto.
  - cbn [to_jval safe_tree]. cbn [safe_input] in H.
    rewrite (traverse_map _ (fun kv => (key_text (fst kv), safe_tree (snd kv)))); auto.
    rewrite forallb_forall in H. rewrite Forall_forall in *.
    intros [k x] Hin. specialize (H _ Hin). specialize (IH _ Hin).
    cbn [fst snd] in *. apply andb_true_iff in H. destruct H as [Hk Hx].
    rewrite (IH Hx). unfold key_text.
    destruct k as [| | | [] | |]; try reflexivity. discriminate Hk.
  - cbn [to_jval safe_tree safe_input leaf_text] in *.
    unfold default, has_to_json, call_to_json.
    destruct (o_to_json i) as [[s|x]|]; try reflexivity. discriminate H.
Qed.

(** [safe_serialize] returns exactly on these inputs. *)
Lemma safe_serialize_returns (v : pyval) :
  returns (safe_serialize v) = safe_input v.
Proof.
  destruct (safe_input v) eqn:H.
  - unfold safe_serialize, json_dumps_with. now rewrite (to_jval_safe v H).
  - unfold safe_serialize, json_dumps_with.
    enough (forall j, to_jval default v <> Ok j) as G
        by (destruct (to_jval default v); [now elim (G a) | reflexivity]).
    revert H.
    induction v as [| b | z | f | s | l IH | l IH | items IH | i attrs]
      using pyval_induction; intros H j; try discriminate H.
    + cbn [to_jval]. cbn [safe_input] in H.
      destruct (traverse (to_jval default) l) as [js|] eqn:E; try discriminate.
      exfalso. apply traverse_Forall2 in E. clear j.
      induction E as [|x y l js Hxy E IHE]; [discriminate H|].
      inversion IH; subst. cbn [forallb] in H.
      apply andb_false_iff in H. destruct H as [H | H]; eauto.
      exact (H2 H y Hxy).
    + cbn [to_jval]. cbn [safe_input] in H.
      destruct (traverse (to_jval default) l) as [js|] eqn:E; try discriminate.
      exfalso. apply traverse_Forall2 in E. clear j.
      induction E as [|x y l js Hxy E IHE]; [discriminate H|].
      inversion IH; subst. cbn [forallb] in H.
      apply andb_false_iff in H. destruct H as [H | H]; eauto.
      exact (H2 H y Hxy).
    + cbn [to_jval]. cbn [safe_input] in H.
      match goal with
      | |- match traverse ?f items with _ => _ end <> _ =>
          destruct (traverse f items) as [ms|] eqn:E; try discriminate
      end.
      exfalso. apply traverse_Forall2 in E. clear j.
      induction E as [|[k x] [k' y] l ms Hxy E IHE]; [discriminate H|].
      inversion IH; subst. cbn [forallb fst snd] in *.
      apply andb_false_iff in H. destruct H as [H | H]; eauto.
      apply andb_false_iff in H. destruct H as [H | H].
      * destruct k; try discriminate H. discriminate Hxy.
      * destruct (key_json k); try discriminate.
        destruct (to_jval default x) eqn:Ex; try discriminate.
        exact (H2 H _ eq_refl).
    + cbn [to_jval safe_input] in *. unfold default, has_to_json, call_to_json.
      destruct (o_to_json i) as [[s|x]|]; try discriminate H. discriminate.
Qed.



Definition sample_leaf : pyval :=
  PObj (mkInfo "Socket" "net" "<socket>" "<Socket object>" false None) [].

Definition sample_jsonable : pyval :=
  PObj (mkInfo "Model" "app" "<model>" "<Model object>" false (Some (Ok "{}"))) [].

Definition sample_payload : pyval :=
  PDict [(KStr "conn", sample_leaf);
         (KInt 7, PList [PFloat (FFin false 1 (Decimal.D5 Decimal.Nil) None); sample_jsonable]);
         (KNone, PTuple [PStr "a"; PNone; PBool true])].


Example safe_serialize_sample :
  safe_serialize sample_payload
  = Ok ("{" ++ String dq ("conn" ++ String dq (": " ++ String dq ("<<non-serializable: Socket>>"
        ++ String dq (", " ++ String dq ("7" ++ String dq (": [1.5, " ++ String dq ("{}"
        ++ String dq ("], " ++ String dq ("null" ++ String dq (": [" ++ String dq ("a"
        ++ String dq ", null, true]}")))))))))))).
Proof. reflexivity. Qed.

(** ** Records *)

(** The value under the str key [k] of a dict. *)
Fixpoint dict_get (k : string) (items : list (pykey * pyval)) : option pyval :=
  match items with
  | [] => None
  | (KStr k', v) :: t => if String.eqb k k' then Some v else dict_get k t
  | _ :: t => dict_get k t
  end.

Definition str_keys (items : list (pykey * pyval)) : bool :=
  forallb (fun kv => match fst kv with KStr _ => true | _ => false end) items.

(** The members of the object [json.dumps] writes for a dict with str
    keys are the items of the dict, in order. *)
Lemma to_jval_record (h : hook) (items : list (pykey * pyval)) :
  str_keys items = true ->
  forall j, to_jval h (PDict items) = Ok j ->
  forall k,
    match dict_get k items with
    | Some v => exists jv, to_jval h v = Ok jv /\ member k j = Some jv
    | None => member k j = None
    end.
Proof.
  intros Hk j H k. cbn [to_jval] in H.
  match type of H with
  | match traverse ?f items with _ => _ end = _ =>
      destruct (traverse f items) as [ms|] eqn:E; inversion H; subst; clear H
  end.
  apply traverse_Forall2 in E. cbn [member].
  induction E as [|[k0 x] [k1 y] l ms Hxy E IH].
  - reflexivity.
  - cbn [str_keys forallb fst] in Hk. destruct k0; try discriminate Hk.
    cbn [andb] in Hk.
    cbn [key_json] in Hxy. destruct (to_jval h x) as [jx|] eqn:Ex; try discriminate.
    inversion Hxy; subst. cbn [dict_get lookup].
    destruct (String.eqb k k1); [eauto | exact (IH Hk)].
Qed.

(* ================================================================== *)
(** ** Construction and the session id *)

Lemma is_hex_hexdigit (n : N) : is_hex (hexdigit n) = true.
Proof.
  destruct n as [|p]; [reflexivity|].
  do 5 (try (destruct p as [p|p|]; try reflexivity)).
Qed.

(** Whatever the random bytes, [str(uuid.uuid4())] has the canonical
    form of a UUID. *)
Lemma is_uuid_uuid_str (i : Z) : is_uuid (uuid_str i) = true.
Proof.
  unfold uuid_str. cbn [hex_of]. cbn [substring append].
  unfold is_uuid.
  do 5 (cbn [take_hex obind expect Ascii.eqb Bool.eqb andb];
        rewrite !is_hex_hexdigit).
  reflexivity.
Qed.

Definition env_of (v : option string) : environ :=
  fun k => if String.eqb k "EXPORTER_TYPE" then v else None.




Lemma init_session_id (cfg : pyval) (env : environ) (rnd : Z) (self : OtelLogger) :
  init cfg env rnd = Ok self -> session_id self = uuid4 rnd.
Proof.
  unfold init, init_in.
  destruct (String.eqb _ _);
    repeat match goal with
           | |- context [global_in ?ns ?n] => destruct (global_in ns n)
           end; intros H; inversion H; reflexivity.
Qed.

Lemma start_returns (self : OtelLogger) (h : host) (e : effects) :
  fst (start self h e) = Ok (session_id self).
Proof. reflexivity. Qed.

(** C8: [start] returns the session id of the instance, which has the
    canonical form of a UUID, whatever the logging entry points do; and
    when the announcement raises an [Exception], the failure is
    reported on the error channel of the module's logger. *)
Theorem start_returns_uuid (cfg : pyval) (env : environ) (rnd : Z) (self : OtelLogger)
        (h : host) (e : effects) :
  init cfg env rnd = Ok self ->
  fst (start self h e) = Ok (session_id self)
  /\ is_uuid (session_id self) = true
  /\ (forall x,
        h_fault h RootInfo ("Started new session with Session ID: " ++ session_id self)
        = Some x ->
        is_Exception x = true ->
        h_fault h ModuleError ("[otel_logger] Failed to create logging file: " ++ exn_str x)
        = None ->
        logs (snd (start self h e))
        = (ModuleError, "[otel_logger] Failed to create logging file: " ++ exn_str x)
            :: logs e).
Proof.
  intros Hinit. split; [reflexivity | split].
  - rewrite (init_session_id cfg env rnd self Hinit). apply is_uuid_uuid_str.
  - intros x Hx Hex Hm.
    unfold start, finally_return, try_except, emit. cbn [snd].
    rewrite Hx, Hex, Hm. reflexivity.
Qed.

Definition failing_info : host :=
  mkHost 1 (fun _ => 1) (fun _ => "2024-01-01 00:00:00.000000") 0
    (fun s _ => match s with
                | RootInfo => Some (OtherException "OSError" "exporter unavailable")
                | _ => None
                end).

Definition sample_logger : OtelLogger :=
  mkLogger PNone (uuid4 42) OTLPLogExporter OTLPSpanExporter.

Lemma start_returns_uuid_witness :
  init PNone (env_of None) 42 = Ok sample_logger
  /\ fst (start sample_logger failing_info no_effects) = Ok (session_id sample_logger)
  /\ is_uuid (session_id sample_logger) = true
  /\ logs (snd (start sample_logger failing_info no_effects))
     = [(ModuleError, "[otel_logger] Failed to create logging file: exporter unavailable")].
Proof.
  assert (H : init PNone (env_of None) 42 = Ok sample_logger) by reflexivity.
  destruct (start_returns_uuid PNone (env_of None) 42 sample_logger failing_info
              no_effects H) as (H1 & H2 & H3).
  split; [exact H | split; [exact H1 | split; [exact H2 |]]].
  exact (H3 (OtherException "OSError" "exporter unavailable") eq_refl eq_refl eq_refl).
Defined.

(** [n] calls in a row, and what each returned. *)
Fixpoint repeat_call {A} (n : nat) (m : M A) : M (list A) :=
  match n with
  | O => ret []
  | S n' => x <- m ;; l <- repeat_call n' m ;; ret (x :: l)
  end.

(** C9: the session id is drawn once, when the instance is
    constructed; [start] only reads it, so however many times it is
    called, in whatever state, it returns that same id. *)
Theorem start_same_session_id (n : nat) (self : OtelLogger) (h : host) (e : effects)
        (ns : list string) (cfg : pyval) (env : environ) (rnd : Z) :
  fst (repeat_call n (start self) h e) = Ok (repeat (session_id self) n)
  /\ match init_in ns cfg env rnd with
     | Ok l => session_id l = uuid4 rnd
     | Raise _ => True
     end.
Proof.
  split.
  - revert e. induction n as [|n IH]; intros e; [reflexivity|].
    cbn [repeat_call repeat]. unfold bind at 1.
    destruct (start self h e) as [r e1] eqn:E.
    pose proof (start_returns self h e) as Hr. rewrite E in Hr. cbn [fst] in Hr.
    subst r. unfold bind at 1.
    specialize (IH e1). destruct (repeat_call n (start self) h e1) as [rl e2].
    cbn [fst] in IH. subst rl. reflexivity.
  - unfold init_in.
    destruct (String.eqb _ _);
      repeat match goal with
             | |- context [global_in ?ns ?n] => destruct (global_in ns n)
             end; auto.
Qed.

(* ================================================================== *)
(** ** What a computation leaves on the logging channel and on
       standard output *)

(** [m] does not write to standard output. *)
Definition keeps_stdout {A} (m : M A) : Prop :=
  forall h e, stdout (snd (m h e)) = stdout e.

(** [m] does not log. *)
Definition silent {A} (m : M A) : Prop :=
  forall h e, logs (snd (m h e)) = logs e.

(** [m] logs nothing, or it returns normally having logged one record
    at level INFO, and that record satisfies [P]. *)
Definition emits_info {A} (P : string -> Prop) (m : M A) : Prop :=
  forall h e,
    logs (snd (m h e)) = logs e
    \/ exists rec, logs (snd (m h e)) = (RootInfo, rec) :: logs e
                   /\ P rec /\ returns (fst (m h e)) = true.

Create HintDb quiet discriminated.

Section Frames.
Context {A B : Type}.

Lemma ks_ret (a : A) : keeps_stdout (ret a).
Proof. now intros h e. Qed.

Lemma ks_lift (r : result A) : keeps_stdout (lift r).
Proof. now intros h e. Qed.

Lemma ks_bind (m : M A) (k : A -> M B) :
  keeps_stdout m -> (forall a, keeps_stdout (k a)) -> keeps_stdout (bind m k).
Proof.
  intros Hm Hk h e. unfold bind. specialize (Hm h e).
  destruct (m h e) as [[a|x] e1]; cbn [snd] in *; auto.
  now rewrite Hk.
Qed.

Lemma ks_try (body : M A) (handler : exn -> M A) :
  keeps_stdout body -> (forall x, keeps_stdout (handler x)) ->
  keeps_stdout (try_except body handler).
Proof.
  intros Hm Hk h e. unfold try_except. specialize (Hm h e).
  destruct (body h e) as [[a|x] e1]; cbn [snd] in *; auto.
  destruct (is_Exception x); cbn [snd]; auto. now rewrite Hk.
Qed.

Lemma silent_ret (a : A) : silent (ret a).
Proof. now intros h e. Qed.

Lemma silent_lift (r : result A) : silent (lift r).
Proof. now intros h e. Qed.

Lemma silent_bind (m : M A) (k : A -> M B) :
  silent m -> (forall a, silent (k a)) -> silent (bind m k).
Proof.
  intros Hm Hk h e. unfold bind. specialize (Hm h e).
  destruct (m h e) as [[a|x] e1]; cbn [snd] in *; auto.
  now rewrite Hk.
Qed.

Lemma emits_silent (P : string -> Prop) (m : M A) : silent m -> emits_info P m.
Proof. intros H h e. left. apply H. Qed.

(** A silent step, then a continuation that is fine for every
    result of the step. *)
Lemma emits_bind (P : string -> Prop) (m : M A) (k : A -> M B) :
  silent m -> (forall a, emits_info P (k a)) -> emits_info P (bind m k).
Proof.
  intros Hm Hk h e. unfold bind. specialize (Hm h e).
  destruct (m h e) as [[a|x] e1]; cbn [snd fst] in *; auto.
  rewrite <- Hm. apply Hk.
Qed.

(** A pure step: the continuation only has to be fine for the value
    the step returns. *)
Lemma emits_lift (P : string -> Prop) (r : result A) (k : A -> M B) :
  (forall a, r = Ok a -> emits_info P (k a)) -> emits_info P (bind (lift r) k).
Proof.
  intros Hk h e. unfold bind, lift.
  destruct r as [a|x]; cbn [snd fst]; auto. now apply Hk.
Qed.
End Frames.

Lemma ks_get_ident : keeps_stdout get_ident.
Proof. now intros h e. Qed.

Lemma ks_py_id (v : pyval) : keeps_stdout (py_id v).
Proof. now intros h e. Qed.

Lemma ks_get_current_ts : keeps_stdout get_current_ts.
Proof. now intros h e. Qed.

Lemma ks_instant (dt : datetime) : keeps_stdout (instant dt).
Proof. now intros h e. Qed.

Lemma ks_emit (s : sink) (msg : string) : keeps_stdout (emit s msg).
Proof. intros h e. unfold emit. now destruct (h_fault h s msg). Qed.

Lemma ks_set_attribute (k : string) (v : pyval) : keeps_stdout (set_attribute k v).
Proof.
  intros h e. unfold set_attribute.
  destruct (spans e) as [|sp rest]; auto. now destruct (sp_end sp).
Qed.

Lemma ks_span_end (t : option Z) : keeps_stdout (span_end t).
Proof.
  intros h e. unfold span_end.
  destruct (spans e) as [|sp rest]; auto. now destruct (sp_end sp).
Qed.

Lemma ks_with_span (name : string) (start : option Z) (body : M unit) :
  keeps_stdout body -> keeps_stdout (with_span name start body).
Proof.
  intros Hb h e. unfold with_span, span_start.
  match goal with |- context [body h ?e1] => specialize (Hb h e1); destruct (body h e1) as [r e2] end.
  cbn [snd] in *. rewrite (ks_span_end None h e2). exact Hb.
Qed.

Lemma silent_get_ident : silent get_ident.
Proof. now intros h e. Qed.

Lemma silent_py_id (v : pyval) : silent (py_id v).
Proof. now intros h e. Qed.

Lemma silent_get_current_ts : silent get_current_ts.
Proof. now intros h e. Qed.

Lemma silent_instant (dt : datetime) : silent (instant dt).
Proof. now intros h e. Qed.

Lemma silent_print (v : pyval) : silent (print v).
Proof. now intros h e. Qed.

Lemma silent_set_attribute (k : string) (v : pyval) : silent (set_attribute k v).
Proof.
  intros h e. unfold set_attribute.
  destruct (spans e) as [|sp rest]; auto. now destruct (sp_end sp).
Qed.

Lemma silent_span_end (t : option Z) : silent (span_end t).
Proof.
  intros h e. unfold span_end.
  destruct (spans e) as [|sp rest]; auto. now destruct (sp_end sp).
Qed.

Lemma silent_with_span (name : string) (start : option Z) (body : M unit) :
  silent body -> silent (with_span name start body).
Proof.
  intros Hb h e. unfold with_span, span_start.
  match goal with |- context [body h ?e1] => specialize (Hb h e1); destruct (body h e1) as [r e2] end.
  cbn [snd] in *. rewrite (silent_span_end None h e2). exact Hb.
Qed.

Lemma emits_emit (P : string -> Prop) (rec : string) :
  P rec -> emits_info P (emit RootInfo rec).
Proof.
  intros HP h e. unfold emit. destruct (h_fault h RootInfo rec); cbn [snd fst]; auto.
  right. exists rec. auto.
Qed.

#[export] Hint Resolve ks_ret ks_lift ks_get_ident ks_py_id ks_get_current_ts
  ks_instant ks_emit ks_set_attribute ks_span_end
  silent_ret silent_lift silent_get_ident silent_py_id silent_get_current_ts
  silent_instant silent_print silent_set_attribute silent_span_end : quiet.

(** Steps through a sequence of binds. *)
Ltac quiet :=
  repeat match goal with
    | |- keeps_stdout (with_span _ _ _) => apply ks_with_span
    | |- keeps_stdout (try_except _ _) => apply ks_try; [|intro]
    | |- keeps_stdout (bind _ _) => apply ks_bind; [|intro]
    | |- silent (with_span _ _ _) => apply silent_with_span
    | |- silent (bind _ _) => apply silent_bind; [|intro]
    | |- keeps_stdout (match ?x with _ => _ end) => destruct x
    | |- silent (match ?x with _ => _ end) => destruct x
    | |- _ => solve [auto with quiet]
    end.

(** After a guarded body, the log holds what it held, or one more
    record: the body's INFO record, or the handler's ERROR message. *)
Lemma guarded_logs (P : string -> Prop) (body : M unit) (msg : exn -> string)
      (h : host) (e : effects) :
  emits_info P body ->
  let e' := snd (try_except body (fun x => emit RootError (msg x)) h e) in
  logs e' = logs e
  \/ (exists rec, logs e' = (RootInfo, rec) :: logs e /\ P rec)
  \/ (exists x, logs e' = (RootError, msg x) :: logs e).
Proof.
  intros Hb. cbv zeta. unfold try_except. specialize (Hb h e).
  destruct (body h e) as [[a|x] e1]; cbn [fst snd] in *.
  - destruct Hb as [Hb | (rec & Hb & HP & _)]; eauto.
  - destruct Hb as [Hb | (rec & _ & _ & Hr)]; [|discriminate Hr].
    destruct (is_Exception x); cbn [snd]; auto.
    unfold emit. destruct (h_fault h RootError (msg x)); cbn [snd logs]; auto.
    right. right. exists x. now rewrite Hb.
Qed.

Lemma guarded_info (P : string -> Prop) (body : M unit) (msg : exn -> string)
      (h : host) (e : effects) (rec : string) :
  emits_info P body ->
  logs (snd (try_except body (fun x => emit RootError (msg x)) h e))
  = (RootInfo, rec) :: logs e ->
  P rec.
Proof.
  intros Hb H.
  destruct (guarded_logs P body msg h e Hb) as [G | [(r & G & HP) | (x & G)]];
    rewrite G in H.
  - exfalso. apply (f_equal (@List.length _)) in H. simpl in H. lia.
  - inversion H. now subst.
  - inversion H.
Qed.

(* ================================================================== *)
(** ** [log_event] and standard output *)


Definition quiet_host : host :=
  mkHost 139872 (fun _ => 94601) (fun _ => "2024-01-01 00:00:01.500000") 0
    (fun _ _ => None).

Definition tuple_keyed : pyval := PDict [(KOther "tuple" "(1, 2)", PInt 3)].




(* ================================================================== *)
(** ** The records and the session id *)

(** [m] leaves the log as it was, or adds the INFO record of a
    successful call, which satisfies [P], or adds an ERROR message. *)
Definition emits_or_reports {A} (P : string -> Prop) (m : M A) : Prop :=
  forall h e,
    logs (snd (m h e)) = logs e
    \/ (exists rec, logs (snd (m h e)) = (RootInfo, rec) :: logs e /\ P rec)
    \/ (exists msg, logs (snd (m h e)) = (RootError, msg) :: logs e).

Lemma reports_guarded (P : string -> Prop) (body : M unit) (msg : exn -> string) :
  emits_info P body ->
  emits_or_reports P (try_except body (fun x => emit RootError (msg x))).
Proof.
  intros Hb h e.
  destruct (guarded_logs P body msg h e Hb) as [G | [G | (x & G)]]; eauto.
Qed.

Lemma reports_bind {A B} (P : string -> Prop) (m : M A) (k : A -> M B) :
  silent m -> (forall a, emits_or_reports P (k a)) -> emits_or_reports P (bind m k).
Proof.
  intros Hm Hk h e. unfold bind. specialize (Hm h e).
  destruct (m h e) as [[a|x] e1]; cbn [snd fst] in *; auto.
  rewrite <- Hm. apply Hk.
Qed.

Lemma reports_info {A} (P : string -> Prop) (m : M A) (h : host) (e : effects)
      (rec : string) :
  emits_or_reports P m ->
  logs (snd (m h e)) = (RootInfo, rec) :: logs e -> P rec.
Proof.
  intros Hm H. destruct (Hm h e) as [G | [(r & G & HP) | (x & G)]]; rewrite G in H.
  - exfalso. apply (f_equal (@List.length _)) in H. simpl in H. lia.
  - inversion H. now subst.
  - inversion H.
Qed.

Ltac emits :=
  repeat match goal with
    | |- emits_or_reports _ (try_except _ _) => apply reports_guarded
    | |- emits_or_reports _ (bind _ _) => apply reports_bind; [solve [quiet] | intro]
    | |- emits_or_reports _ (if ?b then _ else _) => destruct b
    | |- emits_info _ (bind (lift _) _) => apply emits_lift; intros ? ?
    | |- emits_info _ (bind _ _) => apply emits_bind; [solve [quiet] | intro]
    | |- emits_info _ (emit RootInfo _) => apply emits_emit
    end.

(** The record [json.dumps] writes for a dict with str keys is valid
    JSON; it has a member for each item and no other. *)
Lemma record_member (items : list (pykey * pyval)) (rec : string) (k : string) :
  str_keys items = true ->
  json_dumps (PDict items) = Ok rec ->
  exists j, json_loads rec = Some j
            /\ match dict_get k items with
               | Some v => exists jv, to_jval no_default v = Ok jv /\ member k j = Some jv
               | None => member k j = None
               end.
Proof.
  intros Hk H. destruct (json_dumps_with_valid no_default _ _ H) as (j & Hj & _ & Hl).
  exists j. split; auto. exact (to_jval_record no_default items Hk j Hj k).
Qed.

(** The record is a JSON object with the session id [sid] under
    [session_id]. *)
Definition carries_session (sid rec : string) : Prop :=
  exists j, json_loads rec = Some j /\ member "session_id" j = Some (JStr sid).

(** The record is a JSON object with no member [session_id]. *)
Definition lacks_session (rec : string) : Prop :=
  exists j, json_loads rec = Some j /\ member "session_id" j = None.

Ltac by_record k :=
  match goal with
  | H : json_dumps (PDict ?items) = Ok ?rec |- _ =>
      let j := fresh "j" in
      let Hj := fresh "Hj" in
      let Hm := fresh "Hm" in
      destruct (record_member items rec k eq_refl H) as (j & Hj & Hm);
      cbn [dict_get String.eqb Ascii.eqb Bool.eqb andb] in Hm;
      exists j; split; [exact Hj|]
  end.

Lemma new_agent_record (self : OtelLogger) (agent init_args : pyval) :
  emits_or_reports (carries_session (session_id self)) (log_new_agent self agent init_args).
Proof.
  unfold log_new_agent. emits.
  by_record "session_id". destruct Hm as (jv & Hv & Hm).
  inversion Hv; subst. exact Hm.
Qed.

Lemma new_wrapper_record (self : OtelLogger) (wrapper init_args : pyval) :
  emits_or_reports (carries_session (session_id self)) (log_new_wrapper self wrapper init_args).
Proof.
  unfold log_new_wrapper. emits.
  by_record "session_id". destruct Hm as (jv & Hv & Hm).
  inversion Hv; subst. exact Hm.
Qed.

Lemma new_client_record (self : OtelLogger) (client wrapper init_args : pyval) :
  emits_or_reports (carries_session (session_id self))
    (log_new_client self client wrapper init_args).
Proof.
  unfold log_new_client. emits.
  by_record "session_id". destruct Hm as (jv & Hv & Hm).
  inversion Hv; subst. exact Hm.
Qed.

Lemma chat_completion_record (self : OtelLogger)
      (invocation_id client_id wrapper_id source request response
       is_cached cost start_time : pyval) :
  emits_or_reports lacks_session
    (log_chat_completion self invocation_id client_id wrapper_id source request
       response is_cached cost start_time).
Proof.
  unfold log_chat_completion. emits. by_record "session_id". exact Hm.
Qed.

Lemma event_record (self : OtelLogger) (source name : pyval)
      (kwargs : list (string * pyval)) :
  emits_or_reports lacks_session (log_event self source name kwargs).
Proof.
  unfold log_event. emits; by_record "session_id"; exact Hm.
Qed.

Lemma function_use_record (self : OtelLogger) (source function args returned : pyval) :
  emits_or_reports lacks_session (log_function_use self source function args returned).
Proof.
  unfold log_function_use. emits. by_record "session_id". exact Hm.
Qed.

(** [p] occurs somewhere in [s]. *)
Fixpoint occurs (p s : string) : bool :=
  String.prefix p s ||
  match s with
  | String _ r => occurs p r
  | EmptyString => false
  end.

Definition sample_usage : pyval :=
  PObj (mkInfo "CompletionUsage" "openai.types.completion_usage" "CompletionUsage()"
          "CompletionUsage()" false None)
    [("prompt_tokens", PInt 10); ("completion_tokens", PInt 5); ("total_tokens", PInt 15)].

Definition sample_response : pyval :=
  PObj (mkInfo "ChatCompletion" "openai.types.chat.chat_completion"
          "ChatCompletion(id='cmpl-1')" "ChatCompletion(id='cmpl-1')" false None)
    [("usage", sample_usage)].

Definition sample_invocation : pyval :=
  PObj (mkInfo "UUID" "uuid" "5f2b1c0e-8d3a-4e57-9b1a-0c6a7d2e4f11"
          "UUID('5f2b1c0e-8d3a-4e57-9b1a-0c6a7d2e4f11')" false None) [].

Definition sample_agent : pyval :=
  PObj (mkInfo "AssistantAgent" "autogen.agentchat.assistant_agent"
          "<AssistantAgent>" "<AssistantAgent>" true None)
    [("name", PStr "planner")].

Definition sample_request : pyval :=
  PDict [(KStr "model", PStr "gpt-4");
         (KStr "messages", PList [PDict [(KStr "role", PStr "user");
                                         (KStr "content", PStr "hi")]])].

(** 0.002 *)
Definition sample_cost : pyval :=
  PFloat (FFin false 0 (Decimal.D0 (Decimal.D0 (Decimal.D2 Decimal.Nil))) None).

(** C4 (as stated, refuted): after [start] has returned the session
    id, the records of [log_chat_completion], [log_event] and
    [log_function_use] are emitted without it: the id occurs nowhere in
    their text. *)
Lemma records_without_session_id :
  let sid := session_id sample_logger in
  let e0 := snd (start sample_logger quiet_host no_effects) in
  fst (start sample_logger quiet_host no_effects) = Ok sid
  /\ (exists rec,
        logs (snd (log_chat_completion sample_logger sample_invocation (PInt 1) (PInt 2)
                     sample_agent sample_request sample_response (PInt 0) sample_cost
                     (PStr "2024-01-01 00:00:00.000000") quiet_host e0))
        = (RootInfo, rec) :: logs e0
        /\ occurs sid rec = false)
  /\ (exists rec,
        logs (snd (log_event sample_logger sample_agent (PStr "received")
                     [("message", PStr "hi")] quiet_host e0))
        = (RootInfo, rec) :: logs e0
        /\ occurs sid rec = false)
  /\ (exists rec,
        logs (snd (log_function_use sample_logger sample_agent PNone
                     (PDict [(KStr "x", PInt 1)]) (PInt 2) quiet_host e0))
        = (RootInfo, rec) :: logs e0
        /\ occurs sid rec = false).
Proof.
  cbv zeta. split; [reflexivity|].
  repeat split; eexists; (split; [vm_compute; reflexivity | vm_compute; reflexivity]).
Qed.

(** C4 (amended): the records of [log_new_agent], [log_new_wrapper] and
    [log_new_client] are JSON objects that carry, under [session_id],
    the identifier [start] returns; the records of
    [log_chat_completion], [log_event] and [log_function_use] are JSON
    objects with no member [session_id]. *)
Theorem session_id_in_records (self : OtelLogger) (h : host) (e : effects) (rec : string) :
  fst (start self h e) = Ok (session_id self)
  /\ (forall agent init_args,
        logs (snd (log_new_agent self agent init_args h e)) = (RootInfo, rec) :: logs e ->
        carries_session (session_id self) rec)
  /\ (forall wrapper init_args,
        logs (snd (log_new_wrapper self wrapper init_args h e)) = (RootInfo, rec) :: logs e ->
        carries_session (session_id self) rec)
  /\ (forall client wrapper init_args,
        logs (snd (log_new_client self client wrapper init_args h e))
        = (RootInfo, rec) :: logs e ->
        carries_session (session_id self) rec)
  /\ (forall invocation_id client_id wrapper_id source request response
             is_cached cost start_time,
        logs (snd (log_chat_completion self invocation_id client_id wrapper_id source
                     request response is_cached cost start_time h e))
        = (RootInfo, rec) :: logs e ->
        lacks_session rec)
  /\ (forall source name kwargs,
        logs (snd (log_event self source name kwargs h e)) = (RootInfo, rec) :: logs e ->
        lacks_session rec)
  /\ (forall source function args returned,
        logs (snd (log_function_use self source function args returned h e))
        = (RootInfo, rec) :: logs e ->
        lacks_session rec).
Proof.
  split; [reflexivity|].
  repeat split; intros.
  - eapply reports_info; [apply new_agent_record | eassumption].
  - eapply reports_info; [apply new_wrapper_record | eassumption].
  - eapply reports_info; [apply new_client_record | eassumption].
  - eapply reports_info; [apply chat_completion_record | eassumption].
  - eapply reports_info; [apply event_record | eassumption].
  - eapply reports_info; [apply function_use_record | eassumption].
Qed.

Lemma session_id_in_records_witness :
  exists rec,
    logs (snd (log_new_agent sample_logger sample_agent PNone quiet_host no_effects))
    = (RootInfo, rec) :: logs no_effects
    /\ carries_session (session_id sample_logger) rec.
Proof.
  eexists. split; [vm_compute; reflexivity|].
  apply (proj1 (proj2 (session_id_in_records sample_logger quiet_host no_effects _))
           sample_agent PNone).
  vm_compute. reflexivity.
Defined.

(* ================================================================== *)
(** ** The fault guard *)

(** C1 (the code departs from the claim): two public operations do
    part of their work before their [try].  [log_chat_completion] reads
    [source.name] first, so a source that is neither a str nor [None]
    and has no [name] makes the call raise [AttributeError];
    [log_event] encodes its keyword arguments first, so a mapping with a
    tuple for a key among them makes the call raise [TypeError].  In
    both cases the exception reaches the caller and nothing is reported
    on any channel. *)
Theorem guard_misses_source_and_kwargs
        (self : OtelLogger) (a1 a2 a3 a4 a5 a6 a7 a8 source name : pyval)
        (h : host) (e : effects) :
  log_chat_completion self a1 a2 a3 (PInt 7) a4 a5 a6 a7 a8 h e
  = (Raise (AttributeError "'int' object has no attribute 'name'"), e)
  /\ log_event self source name [("message", tuple_keyed)] h e
     = (Raise (TypeError "keys must be str, int, float, bool or None, not tuple"), e).
Proof. split; reflexivity. Qed.

(** The unguarded step of [log_chat_completion], in general. *)
Lemma chat_completion_raises_without_name
      (self : OtelLogger) (a1 a2 a3 source a4 a5 a6 a7 a8 : pyval)
      (h : host) (e : effects) :
  (forall s, source <> PStr s) -> source <> PNone -> hasattr source "name" = false ->
  log_chat_completion self a1 a2 a3 source a4 a5 a6 a7 a8 h e
  = (Raise (no_attribute source "name"), e).
Proof.
  intros Hs Hn Ha. unfold log_chat_completion, chat_source_name, bind, get_ident, lift.
  assert (G : getattr source "name" = Raise (no_attribute source "name")).
  { unfold getattr, hasattr in *. destruct source; auto.
    destruct (lookup "name" attrs); [discriminate Ha | reflexivity]. }
  destruct source; try congruence; try (rewrite G; reflexivity).
Qed.

(** The sibling operations do all of their work under the guard: with
    logging entry points that accept every message they return
    normally, whatever they are given. *)
Definition accepting (h : host) : Prop := forall s msg, h_fault h s msg = None.

Definition only_exceptions {A} (m : M A) : Prop :=
  forall h e, accepting h ->
    match fst (m h e) with
    | Ok _ => True
    | Raise x => is_Exception x = true
    end.

Lemma oe_bind {A B} (m : M A) (k : A -> M B) :
  only_exceptions m -> (forall a, only_exceptions (k a)) -> only_exceptions (bind m k).
Proof.
  intros Hm Hk h e Hh. unfold bind. specialize (Hm h e Hh).
  destruct (m h e) as [[a|x] e1]; cbn [fst] in *; auto. now apply Hk.
Qed.

Lemma oe_lift {A} (r : result A) :
  match r with Ok _ => True | Raise x => is_Exception x = true end ->
  only_exceptions (lift r).
Proof. intros H h e _. exact H. Qed.

Lemma oe_emit (s : sink) (msg : string) : only_exceptions (emit s msg).
Proof. intros h e Hh. unfold emit. now rewrite Hh. Qed.

Lemma oe_total {A} (m : M A) :
  (forall h e, exists a, fst (m h e) = Ok a) -> only_exceptions m.
Proof. intros H h e _. destruct (H h e) as (a & ->). exact I. Qed.

Lemma guarded_returns (body : M unit) (msg : exn -> string) (h : host) (e : effects) :
  accepting h -> only_exceptions body ->
  fst (try_except body (fun x => emit RootError (msg x)) h e) = Ok tt.
Proof.
  intros Hh Hb. unfold try_except. specialize (Hb h e Hh).
  destruct (body h e) as [[[]|x] e1]; cbn [fst] in *; auto.
  rewrite Hb. unfold emit. now rewrite Hh.
Qed.

Lemma getattr_exception (v : pyval) (name : string) :
  match getattr v name with Ok _ => True | Raise x => is_Exception x = true end.
Proof.
  unfold getattr. destruct v; try reflexivity. now destruct (lookup name attrs).
Qed.

Lemma to_jval_exception (v : pyval) :
  match to_jval no_default v with Ok _ => True | Raise x => is_Exception x = true end.
Proof.
  induction v as [| b | z | f | s | l IH | l IH | items IH | i attrs]
    using pyval_induction; cbn [to_jval]; auto.
  - induction IH as [|x l Hx Hl IHl]; cbn [traverse]; auto.
    destruct (to_jval no_default x); auto.
    destruct (traverse (to_jval no_default) l); auto.
  - induction IH as [|x l Hx Hl IHl]; cbn [traverse]; auto.
    destruct (to_jval no_default x); auto.
    destruct (traverse (to_jval no_default) l); auto.
  - induction IH as [|[k x] l Hx Hl IHl]; cbn [traverse]; auto.
    cbn [snd] in Hx. destruct k as [| | | [] | |]; cbn [key_json]; auto;
      destruct (to_jval no_default x); auto;
      match goal with
      | |- context [traverse ?f l] => destruct (traverse f l); auto
      end.
  - reflexivity.
Qed.

Lemma json_dumps_exception (v : pyval) :
  match json_dumps v with Ok _ => True | Raise x => is_Exception x = true end.
Proof.
  unfold json_dumps, json_dumps_with. pose proof (to_jval_exception v).
  now destruct (to_jval no_default v).
Qed.

Ltac guarded :=
  repeat match goal with
    | |- only_exceptions (bind (lift _) _) => apply oe_bind; [apply oe_lift | intro]
    | |- only_exceptions (bind _ _) =>
        apply oe_bind; [apply oe_total; intros; eexists; reflexivity | intro]
    | |- only_exceptions (emit _ _) => apply oe_emit
    | |- match json_dumps ?v with _ => _ end => apply json_dumps_exception
    | |- match getattr ?v ?n with _ => _ end => apply getattr_exception
    end.

Lemma new_agent_returns (self : OtelLogger) (agent init_args : pyval)
      (h : host) (e : effects) :
  accepting h -> fst (log_new_agent self agent init_args h e) = Ok tt.
Proof.
  intros Hh. unfold log_new_agent. unfold bind at 1. unfold get_ident at 1.
  apply guarded_returns; auto. guarded.
  - destruct (hasattr agent "name"); [|exact I].
    pose proof (getattr_exception agent "name").
    now destruct (getattr agent "name").
  - destruct (hasattr agent "client"); [|exact I].
    pose proof (getattr_exception agent "client").
    destruct (getattr agent "client") as [c|]; auto.
    destruct (is_not_None c); [apply getattr_exception | exact I].
Qed.

Lemma new_wrapper_returns (self : OtelLogger) (wrapper init_args : pyval)
      (h : host) (e : effects) :
  accepting h -> fst (log_new_wrapper self wrapper init_args h e) = Ok tt.
Proof.
  intros Hh. unfold log_new_wrapper. unfold bind at 1. unfold get_ident at 1.
  apply guarded_returns; auto. cbv zeta. guarded.
Qed.

Lemma new_client_returns (self : OtelLogger) (client wrapper init_args : pyval)
      (h : host) (e : effects) :
  accepting h -> fst (log_new_client self client wrapper init_args h e) = Ok tt.
Proof.
  intros Hh. unfold log_new_client. unfold bind at 1. unfold get_ident at 1.
  apply guarded_returns; auto. guarded.
Qed.

(* ================================================================== *)
(** ** [log_new_wrapper] and the redacted keys *)












Definition init_args_a : list (pykey * pyval) :=
  [(KStr "api_key", PStr "sk-live-123"); (KStr "model", PStr "gpt-4");
   (KStr "base_url", PStr "https://a.example")].



(* ================================================================== *)
(** ** [log_chat_completion]: the record and the span *)

(** The dict [log_chat_completion] encodes. *)
Definition chat_fields (invocation_id client_id wrapper_id request response
                        is_cached cost start_time : pyval)
           (end_time : string) (thread_id : Z)
           (source_name prompt_tokens completion_tokens total_tokens : pyval)
  : list (pykey * pyval) :=
  [(KStr "invocation_id", PStr (py_str invocation_id));
   (KStr "client_id", client_id);
   (KStr "wrapper_id", wrapper_id);
   (KStr "request", to_dict request []);
   (KStr "response", PStr (py_str response));
   (KStr "is_cached", is_cached);
   (KStr "cost", cost);
   (KStr "start_time", start_time);
   (KStr "end_time", PStr end_time);
   (KStr "thread_id", PInt thread_id);
   (KStr "source_name", source_name);
   (KStr "prompt_tokens", prompt_tokens);
   (KStr "completion_tokens", completion_tokens);
   (KStr "total_tokens", total_tokens)].

Lemma handler_no_info (x : exn) (msg : string) (h : host) (e1 e : effects) (rec : string) :
  logs e1 = logs e ->
  logs (snd (if is_Exception x then emit RootError msg h e1 else (Raise x, e1)))
  = (RootInfo, rec) :: logs e -> False.
Proof.
  intros He H.
  destruct (is_Exception x);
    [unfold emit in H; destruct (h_fault h RootError msg)|];
    cbn [snd logs] in H; rewrite He in H.
  - apply (f_equal (@List.length _)) in H. simpl in H. lia.
  - inversion H.
  - apply (f_equal (@List.length _)) in H. simpl in H. lia.
Qed.

(** Runs a method symbolically: every step that can raise is split
    into its two outcomes. *)
Ltac run_step :=
  first
    [ progress cbn [fst snd logs spans ticks stdout set_spans sp_end sp_name sp_start
                    sp_attrs app]
    | match goal with
      | |- context [match ?r with Ok _ => _ | Raise _ => _ end] => destruct r eqn:?
      end ].

Ltac run :=
  unfold try_except, bind, lift, ret, get_current_ts, get_ident, instant, with_span,
    span_start, span_end, set_attribute;
  repeat run_step.

(** Closes the runs that end in the handler or in an exception. *)
Ltac no_info :=
  let H := fresh "H" in
  intros H; exfalso;
  first [ eapply handler_no_info in H; [exact H | reflexivity]
        | apply (f_equal (@List.length _)) in H; simpl in H; lia ].

(** A call of [log_chat_completion] that emits its record has gone
    through every step: the lookups, the encoding, the two parses and
    the two conversions succeeded, and the span was recorded. *)
Lemma chat_completion_went_through (self : OtelLogger)
      (invocation_id client_id wrapper_id source request response
       is_cached cost start_time : pyval) (h : host) (e : effects) (rec : string) :
  logs (snd (log_chat_completion self invocation_id client_id wrapper_id source
               request response is_cached cost start_time h e))
  = (RootInfo, rec) :: logs e ->
  exists sn p c t dt0 dt1 t0 t1,
    chat_source_name source = Ok sn
    /\ usage_of response "prompt_tokens" = Ok p
    /\ usage_of response "completion_tokens" = Ok c
    /\ usage_of response "total_tokens" = Ok t
    /\ json_dumps (PDict (chat_fields invocation_id client_id wrapper_id request
                            response is_cached cost start_time
                            (h_clock h (ticks e)) (h_thread h) sn p c t)) = Ok rec
    /\ strptime start_time = Ok dt0
    /\ strptime (PStr (h_clock h (S (ticks e)))) = Ok dt1
    /\ to_ns (h_utcoff h) dt0 = Ok t0
    /\ to_ns (h_utcoff h) dt1 = Ok t1
    /\ spans (snd (log_chat_completion self invocation_id client_id wrapper_id source
                     request response is_cached cost start_time h e))
       = mkSpan "llm_span" (Some t0)
           [("data", PStr rec); ("cost", cost); ("source_name", sn);
            ("prompt_tokens", p); ("completion_tokens", c); ("total_tokens", t)]
           (Some (Some t1)) :: spans e.
Proof.
  unfold chat_fields, log_chat_completion. run.
  all: try no_info.
  unfold emit at 1. destruct (h_fault h RootInfo _) eqn:Ef; cbn [fst snd logs set_spans].
  - no_info.
  - intros H. injection H as <-.
    do 8 eexists. repeat split; try eassumption; try reflexivity.
    unfold emit. rewrite Ef. reflexivity.
Qed.

(* ================================================================== *)
(** ** Rounding to binary64 is monotone *)

Lemma pow2_pos (e : Z) : (0 < pow2 e)%Q.
Proof. unfold pow2. apply Qpower_0_lt. reflexivity. Qed.

Lemma pow2_add (a b : Z) : (pow2 (a + b) == pow2 a * pow2 b)%Q.
Proof. unfold pow2. apply Qpower_plus. discriminate. Qed.

Lemma pow2_le (a b : Z) : a <= b -> (pow2 a <= pow2 b)%Q.
Proof. intros H. unfold pow2. apply Qpower_le_compat_l; auto. discriminate. Qed.

Lemma pow2_cancel (e : Z) : (pow2 (- e) * pow2 e == 1)%Q.
Proof. rewrite <- pow2_add. replace (- e + e) with 0 by lia. reflexivity. Qed.

Lemma pow2_Z (k : Z) : 0 <= k -> (pow2 k == inject_Z (2 ^ k))%Q.
Proof. intros H. unfold pow2. now rewrite Zpower_Qpower. Qed.


(** *** Rounding to the nearest integer *)

Lemma rne_floor (y : Q) : rne y = Qfloor y \/ rne y = Qfloor y + 1.
Proof.
  unfold rne. destruct (_ ?= _)%Q; auto. destruct (Z.even _); auto.
Qed.

Lemma rne_comp (y1 y2 : Q) : (y1 == y2)%Q -> rne y1 = rne y2.
Proof.
  intros H. unfold rne. rewrite (Qfloor_comp _ _ H).
  assert (E : (y1 - inject_Z (Qfloor y2) == y2 - inject_Z (Qfloor y2))%Q)
    by (rewrite H; reflexivity).
  now rewrite (Qcompare_comp _ _ E _ _ (Qeq_refl (1 # 2))).
Qed.

Lemma rne_Z (n : Z) : rne (inject_Z n) = n.
Proof.
  unfold rne. rewrite Qfloor_Z.
  assert (E : (inject_Z n - inject_Z n ?= 1 # 2)%Q = Lt).
  { apply (proj1 (Qlt_alt _ _)). lra. }
  now rewrite E.
Qed.

Lemma rne_mono (y1 y2 : Q) : (y1 <= y2)%Q -> rne y1 <= rne y2.
Proof.
  intros H.
  pose proof (Qfloor_resp_le _ _ H) as Hf.
  destruct (Z.eq_dec (Qfloor y1) (Qfloor y2)) as [E | E].
  - unfold rne. rewrite E.
    destruct (Qcompare_spec (y1 - inject_Z (Qfloor y2)) (1 # 2)) as [H1 | H1 | H1];
      destruct (Qcompare_spec (y2 - inject_Z (Qfloor y2)) (1 # 2)) as [H2 | H2 | H2];
      try lia; try (destruct (Z.even (Qfloor y2)); lia); exfalso; lra.
  - destruct (rne_floor y1) as [-> | ->], (rne_floor y2) as [-> | ->]; lia.
Qed.

(** *** The exponent *)

Lemma ilog2_spec (x : Q) :
  (0 < x)%Q -> (pow2 (ilog2 x) <= x)%Q /\ (x < pow2 (ilog2 x + 1))%Q.
Proof.
  intros Hx. destruct x as [n d].
  assert (Hn : 0 < n) by (unfold Qlt in Hx; simpl in Hx; lia).
  unfold ilog2. cbn [Qnum Qden].
  set (a := Z.log2 n). set (b := Z.log2 (Z.pos d)).
  destruct (Z.log2_spec n Hn) as [Ha1 Ha2]. fold a in Ha1, Ha2.
  destruct (Z.log2_spec (Z.pos d) (Pos2Z.is_pos d)) as [Hb1 Hb2]. fold b in Hb1, Hb2.
  assert (Ha0 : 0 <= a) by apply Z.log2_nonneg.
  assert (Hb0 : 0 <= b) by apply Z.log2_nonneg.
  assert (HA : (pow2 a == inject_Z (2 ^ a))%Q) by now apply pow2_Z.
  assert (HB : (pow2 b == inject_Z (2 ^ b))%Q) by now apply pow2_Z.
  assert (Hx' : (n # d == inject_Z n / inject_Z (Z.pos d))%Q) by apply Qmake_Qdiv.
  assert (Hd : (0 < inject_Z (Z.pos d))%Q) by (change 0%Q with (inject_Z 0); rewrite <- Zlt_Qlt; lia).
  assert (Hlo : (pow2 (a - b - 1) < n # d)%Q /\ (n # d < pow2 (a - b + 1))%Q).
  { assert (E1 : (pow2 (a - b - 1) * (2 * pow2 b) == pow2 a)%Q).
    { replace a with ((a - b - 1) + (1 + b)) at 2 by lia.
      rewrite (pow2_add (a - b - 1)), (pow2_add 1 b). reflexivity. }
    assert (E2 : (pow2 (a - b + 1) * pow2 b == 2 * pow2 a)%Q).
    { replace (a - b + 1) with (1 + a + - b) by lia.
      rewrite !pow2_add. rewrite <- Qmult_assoc, pow2_cancel. 
      change (pow2 1) with 2%Q. ring. }
    assert (E3 : ((n # d) * inject_Z (Z.pos d) == inject_Z n)%Q).
    { rewrite Hx'. field. lra. }
    assert (G1 : (inject_Z (2 ^ a) <= inject_Z n)%Q) by (rewrite <- Zle_Qle; lia).
    assert (G2 : (inject_Z n < 2 * inject_Z (2 ^ a))%Q).
    { change 2%Q with (inject_Z 2). rewrite <- inject_Z_mult, <- Zlt_Qlt.
      replace (Z.succ a) with (a + 1) in Ha2 by lia.
      rewrite Z.pow_add_r in Ha2 by lia. lia. }
    assert (G3 : (inject_Z (2 ^ b) <= inject_Z (Z.pos d))%Q) by (rewrite <- Zle_Qle; lia).
    assert (G4 : (inject_Z (Z.pos d) < 2 * inject_Z (2 ^ b))%Q).
    { change 2%Q with (inject_Z 2). rewrite <- inject_Z_mult, <- Zlt_Qlt.
      replace (Z.succ b) with (b + 1) in Hb2 by lia.
      rewrite Z.pow_add_r in Hb2 by lia. lia. }
    pose proof (pow2_pos (a - b - 1)). pose proof (pow2_pos (a - b + 1)).
    pose proof (pow2_pos b). rewrite HA in *. rewrite HB in *.
    generalize dependent (pow2 (a - b - 1)). generalize dependent (pow2 (a - b + 1)).
    generalize dependent (inject_Z (2 ^ a)). generalize dependent (inject_Z (2 ^ b)).
    generalize dependent (inject_Z n). generalize dependent (inject_Z (Z.pos d)).
    generalize dependent (n # d). clear. intros. split; nra. }
  destruct Hlo as [Hlo Hhi].
  destruct (Qle_bool (pow2 (a - b)) (n # d)) eqn:Eb.
  - apply Qle_bool_iff in Eb. auto.
  - replace (a - b - 1 + 1) with (a - b) by lia. split; [lra|].
    destruct (Qlt_le_dec (n # d) (pow2 (a - b))) as [G | G]; auto.
    apply Qle_bool_iff in G. congruence.
Qed.

Lemma pow2_lt_inv (a b : Z) : (pow2 a < pow2 b)%Q -> a < b.
Proof.
  intros H. destruct (Z_lt_le_dec a b) as [G | G]; auto.
  apply pow2_le in G. lra.
Qed.

(** The exponent grows with the number. *)
Lemma ilog2_mono (x y : Q) : (0 < x)%Q -> (x <= y)%Q -> ilog2 x <= ilog2 y.
Proof.
  intros Hx Hxy.
  destruct (ilog2_spec x Hx) as [Hx1 Hx2].
  destruct (ilog2_spec y) as [Hy1 Hy2]; [lra|].
  assert (H : (pow2 (ilog2 x) < pow2 (ilog2 y + 1))%Q) by lra.
  apply pow2_lt_inv in H. lia.
Qed.

(** *** Rounding to 53 bits *)

(** The scaled number lies between [2 ^ 52] and [2 ^ 53]. *)
Lemma scaled_range (x : Q) :
  (0 < x)%Q ->
  (inject_Z (2 ^ 52) <= x * pow2 (- (ilog2 x - 52)))%Q
  /\ (x * pow2 (- (ilog2 x - 52)) <= inject_Z (2 ^ 53))%Q.
Proof.
  intros Hx. destruct (ilog2_spec x Hx) as [H1 H2].
  set (l := ilog2 x) in *.
  pose proof (pow2_pos (- (l - 52))) as Hp.
  assert (E1 : (pow2 l * pow2 (- (l - 52)) == inject_Z (2 ^ 52))%Q).
  { rewrite <- pow2_add. replace (l + - (l - 52)) with 52 by lia. now apply pow2_Z. }
  assert (E2 : (pow2 (l + 1) * pow2 (- (l - 52)) == inject_Z (2 ^ 53))%Q).
  { rewrite <- pow2_add. replace (l + 1 + - (l - 52)) with 53 by lia. now apply pow2_Z. }
  rewrite <- E1, <- E2.
  split; apply Qmult_le_compat_r; lra.
Qed.

Lemma round53_pos_range (x : Q) :
  (0 < x)%Q ->
  (pow2 (ilog2 x) <= round53_pos x)%Q /\ (round53_pos x <= pow2 (ilog2 x + 1))%Q.
Proof.
  intros Hx. destruct (scaled_range x Hx) as [H1 H2].
  apply rne_mono in H1, H2. rewrite rne_Z in H1, H2.
  unfold round53_pos. set (l := ilog2 x) in *.
  set (m := rne (x * pow2 (- (l - 52)))) in *.
  pose proof (pow2_pos (l - 52)) as Hp.
  assert (E1 : (pow2 l == inject_Z (2 ^ 52) * pow2 (l - 52))%Q).
  { rewrite <- (pow2_Z 52) by lia. rewrite <- pow2_add. now replace (52 + (l - 52)) with l by lia. }
  assert (E2 : (pow2 (l + 1) == inject_Z (2 ^ 53) * pow2 (l - 52))%Q).
  { rewrite <- (pow2_Z 53) by lia. rewrite <- pow2_add.
    now replace (53 + (l - 52)) with (l + 1) by lia. }
  rewrite E1, E2.
  split; apply Qmult_le_compat_r; try lra; rewrite <- Zle_Qle; assumption.
Qed.

Lemma round53_pos_mono (x y : Q) :
  (0 < x)%Q -> (x <= y)%Q -> (round53_pos x <= round53_pos y)%Q.
Proof.
  intros Hx Hxy. assert (Hy : (0 < y)%Q) by lra.
  pose proof (ilog2_mono x y Hx Hxy) as Hl.
  destruct (Z.eq_dec (ilog2 x) (ilog2 y)) as [E | E].
  - unfold round53_pos. rewrite E.
    pose proof (pow2_pos (ilog2 y - 52)). pose proof (pow2_pos (- (ilog2 y - 52))).
    apply Qmult_le_compat_r; [|lra].
    rewrite <- Zle_Qle. apply rne_mono. apply Qmult_le_compat_r; lra.
  - destruct (round53_pos_range x Hx) as [_ H1].
    destruct (round53_pos_range y Hy) as [H2 _].
    assert (H3 : (pow2 (ilog2 x + 1) <= pow2 (ilog2 y))%Q) by (apply pow2_le; lia).
    lra.
Qed.

Lemma round53_pos_pos (x : Q) : (0 < x)%Q -> (0 < round53_pos x)%Q.
Proof.
  intros Hx. destruct (round53_pos_range x Hx) as [H _].
  pose proof (pow2_pos (ilog2 x)). lra.
Qed.

Lemma Qnum_pos (x : Q) : (0 < x)%Q <-> exists p, Qnum x = Z.pos p.
Proof.
  destruct x as [[|p|p] d]; unfold Qlt; cbn; split; intros H;
    try lia; try (destruct H; discriminate); eauto.
Qed.

Lemma Qnum_neg (x : Q) : (x < 0)%Q <-> exists p, Qnum x = Z.neg p.
Proof.
  destruct x as [[|p|p] d]; unfold Qlt; cbn; split; intros H;
    try lia; try (destruct H; discriminate); eauto.
Qed.

(** Rounding is monotone. *)
Lemma round53_mono (x y : Q) : (x <= y)%Q -> (round53 x <= round53 y)%Q.
Proof.
  intros H. unfold round53.
  destruct (Qnum x) as [|p|p] eqn:Ex; destruct (Qnum y) as [|q|q] eqn:Ey.
  all: try assert (Hx : (0 < x)%Q) by (apply Qnum_pos; eauto).
  all: try assert (Hx : (x < 0)%Q) by (apply Qnum_neg; eauto).
  all: try assert (Hx : (x == 0)%Q) by (destruct x; cbn in Ex; subst; reflexivity).
  all: try assert (Hy : (0 < y)%Q) by (apply Qnum_pos; eauto).
  all: try assert (Hy : (y < 0)%Q) by (apply Qnum_neg; eauto).
  all: try assert (Hy : (y == 0)%Q) by (destruct y; cbn in Ey; subst; reflexivity).
  all: try (exfalso; lra).
  - lra.
  - pose proof (round53_pos_pos y Hy). lra.
  - now apply round53_pos_mono.
  - pose proof (round53_pos_pos (- x)). lra.
  - pose proof (round53_pos_pos (- x)). pose proof (round53_pos_pos y Hy). lra.
  - pose proof (round53_pos_mono (- y) (- x)). lra.
Qed.

Lemma round53_comp (x y : Q) : (x == y)%Q -> (round53 x == round53 y)%Q.
Proof.
  intros H. apply Qle_antisym; apply round53_mono; rewrite H; apply Qle_refl.
Qed.

Lemma round53_pos_int (s : Z) :
  0 < s < 2 ^ 53 -> (round53_pos (inject_Z s) == inject_Z s)%Q.
Proof.
  intros Hs.
  assert (Hx : (0 < inject_Z s)%Q)
    by (change 0%Q with (inject_Z 0); rewrite <- Zlt_Qlt; lia).
  destruct (ilog2_spec _ Hx) as [H1 H2].
  unfold round53_pos. set (l := ilog2 (inject_Z s)) in *.
  assert (Hl : l < 53).
  { apply pow2_lt_inv. rewrite (pow2_Z 53) by lia.
    assert ((inject_Z s < inject_Z (2 ^ 53))%Q) by (rewrite <- Zlt_Qlt; lia). lra. }
  assert (E : (pow2 (- (l - 52)) == inject_Z (2 ^ (- (l - 52))))%Q)
    by (apply pow2_Z; lia).
  assert (Ey : (inject_Z s * pow2 (- (l - 52)) == inject_Z (s * 2 ^ (- (l - 52))))%Q)
    by (rewrite E, inject_Z_mult; reflexivity).
  rewrite (rne_comp _ _ Ey), rne_Z, inject_Z_mult, <- E.
  rewrite <- Qmult_assoc, pow2_cancel. ring.
Qed.

(** An integer below [2 ^ 53] in magnitude is a double. *)
Lemma round53_int (s : Z) :
  - 2 ^ 53 < s < 2 ^ 53 -> (round53 (inject_Z s) == inject_Z s)%Q.
Proof.
  intros Hs. unfold round53. cbn [Qnum inject_Z].
  destruct s as [|p|p].
  - reflexivity.
  - apply round53_pos_int. lia.
  - assert (E : (- inject_Z (Z.neg p) == inject_Z (Z.pos p))%Q) by reflexivity.
    assert (G : (round53_pos (- inject_Z (Z.neg p)) == inject_Z (Z.pos p))%Q).
    { change (- inject_Z (Z.neg p))%Q with (inject_Z (Z.pos p)).
      apply round53_pos_int. lia. }
    rewrite G. reflexivity.
Qed.


(** The double of [seconds + microsecond / 1e6]. *)
Definition stamp (s us : Z) : Q :=
  fadd (float_of_int s) (fdiv (float_of_int us) (float_of_int 1000000)).

Lemma fraction_range (us : Z) :
  0 <= us < 1000000 ->
  (0 <= fdiv (float_of_int us) (float_of_int 1000000))%Q
  /\ (fdiv (float_of_int us) (float_of_int 1000000) <= 1)%Q.
Proof.
  intros Hus. unfold fdiv, float_of_int.
  assert (E1 : (round53 (inject_Z us) == inject_Z us)%Q) by (apply round53_int; lia).
  assert (E2 : (round53 (inject_Z 1000000) == inject_Z 1000000)%Q)
    by (apply round53_int; lia).
  assert (E : (round53 (inject_Z us) / round53 (inject_Z 1000000)
               == inject_Z us / inject_Z 1000000)%Q) by (rewrite E1, E2; reflexivity).
  rewrite (round53_comp _ _ E).
  assert (H0 : (0 <= inject_Z us)%Q)
    by (change 0%Q with (inject_Z 0); rewrite <- Zle_Qle; lia).
  assert (H1 : (inject_Z us <= inject_Z 1000000)%Q) by (rewrite <- Zle_Qle; lia).
  assert (Hc : (inject_Z 1000000 == 1000000)%Q) by reflexivity.
  split.
  - change 0%Q with (round53 0). apply round53_mono.
    apply Qle_shift_div_l; lra.
  - assert (R1 : (round53 1 == 1)%Q) by (apply (round53_int 1); lia).
    rewrite <- R1. apply round53_mono. apply Qle_shift_div_r; lra.
Qed.





Lemma to_ns_stamp (off : Z) (dt : datetime) (t : Z) :
  to_ns off dt = Ok t ->
  t = int_of_float (fmul (stamp (utc_to_seconds dt - off - epoch) (dt_micro dt))
                         (float_of_int 1000000000))
  /\ - 2 ^ 53 < utc_to_seconds dt - off - epoch < 2 ^ 53.
Proof.
  unfold to_ns, timestamp, local_to_seconds, local, stamp.
  set (u := utc_to_seconds dt).
  destruct (u + off <? min_seconds) eqn:E1; [discriminate|].
  destruct (max_seconds <=? u + off) eqn:E2; [discriminate|].
  replace (u - (u + off - u)) with (u - off) by lia.
  destruct (u - off + off <? min_seconds) eqn:E3; [discriminate|].
  destruct (max_seconds <=? u - off + off) eqn:E4; [discriminate|].
  destruct (u - off - 86400 + off <? min_seconds) eqn:E5; [discriminate|].
  destruct (max_seconds <=? u - off - 86400 + off) eqn:E6; [discriminate|].
  intros H. inversion H. split; [reflexivity|].
  unfold min_seconds, max_seconds, epoch in *. lia.
Qed.





(** *** The rounding against the reference definitions

    [SpecFloat] is the formalisation of IEEE 754 that the primitive
    floats are specified by.  On the numbers of a time stamp the
    operations above give what its binary64 operations give. *)

Definition b64_of_Z (z : Z) : spec_float := binary_normalize 53 1024 z 0 false.

Definition b64_value (f : spec_float) : Q :=
  match f with
  | S754_finite s m e => ((if s then -1 else 1) * inject_Z (Z.pos m) * pow2 e)%Q
  | _ => 0%Q
  end.

Definition b64_stamp (s us : Z) : spec_float :=
  SFadd 53 1024 (b64_of_Z s) (SFdiv 53 1024 (b64_of_Z us) (b64_of_Z 1000000)).

Example stamp_agrees_2024 :
  (b64_value (b64_stamp 1709210096 654321) == stamp 1709210096 654321)%Q
  /\ (b64_value (SFmul 53 1024 (b64_stamp 1709210096 654321) (b64_of_Z 1000000000))
      == fmul (stamp 1709210096 654321) (float_of_int 1000000000))%Q.
Proof. split; vm_compute; reflexivity. Qed.

Example stamp_agrees_before_epoch :
  (b64_value (b64_stamp (-1) 999999) == stamp (-1) 999999)%Q
  /\ (b64_value (SFmul 53 1024 (b64_stamp (-1) 999999) (b64_of_Z 1000000000))
      == fmul (stamp (-1) 999999) (float_of_int 1000000000))%Q.
Proof. split; vm_compute; reflexivity. Qed.

Example to_ns_2024 :
  to_ns 0 (mkDT 2024 2 29 12 34 56 654321) = Ok 1709210096654320896
  /\ to_ns 3600 (mkDT 2024 2 29 12 34 56 654321) = Ok 1709206496654320896
  /\ to_ns 0 (mkDT 1969 12 31 23 59 59 999999) = Ok (-1000).
Proof. repeat split; vm_compute; reflexivity. Qed.

(* ================================================================== *)
(** ** [log_chat_completion]: usage, cost and the instants of the span *)

Ltac split_sinks :=
  unfold emit;
  repeat match goal with
    | |- context [match h_fault ?a ?b ?c with _ => _ end] => destruct (h_fault a b c)
    | |- context [if is_Exception ?x then _ else _] => destruct (is_Exception x)
    end;
  cbn [fst snd logs spans ticks stdout set_spans].



(** A call whose arguments are in order goes through: the record is
    emitted and the span recorded. *)
Lemma chat_completion_goes_through (self : OtelLogger)
      (invocation_id client_id wrapper_id source request response
       is_cached cost start_time : pyval) (h : host) (e : effects)
      (sn p c t : pyval) (rec : string) (dt0 dt1 : datetime) (t0 t1 : Z) :
  chat_source_name source = Ok sn ->
  usage_of response "prompt_tokens" = Ok p ->
  usage_of response "completion_tokens" = Ok c ->
  usage_of response "total_tokens" = Ok t ->
  json_dumps (PDict (chat_fields invocation_id client_id wrapper_id request
                       response is_cached cost start_time
                       (h_clock h (ticks e)) (h_thread h) sn p c t)) = Ok rec ->
  strptime start_time = Ok dt0 ->
  strptime (PStr (h_clock h (S (ticks e)))) = Ok dt1 ->
  to_ns (h_utcoff h) dt0 = Ok t0 ->
  to_ns (h_utcoff h) dt1 = Ok t1 ->
  h_fault h RootInfo rec = None ->
  log_chat_completion self invocation_id client_id wrapper_id source request
    response is_cached cost start_time h e
  = (Ok tt,
     mkEff (S (S (ticks e))) ((RootInfo, rec) :: logs e)
       (mkSpan "llm_span" (Some t0)
          [("data", PStr rec); ("cost", cost); ("source_name", sn);
           ("prompt_tokens", p); ("completion_tokens", c); ("total_tokens", t)]
          (Some (Some t1)) :: spans e)
       (stdout e)).
Proof.
  intros Hsn Hp Hc Ht Hrec H0 H1 Hn0 Hn1 Hf.
  unfold chat_fields in Hrec.
  unfold log_chat_completion, try_except, bind, lift, ret, get_current_ts, get_ident,
    instant, with_span, span_start, span_end, set_attribute, emit.
  rewrite Hsn. cbn [fst snd ticks logs spans stdout].
  rewrite Hp, Hc, Ht, Hrec, H0.
  cbn [fst snd ticks logs spans stdout]. rewrite H1, Hn0.
  cbn [fst snd ticks logs spans stdout set_spans sp_end sp_name sp_start sp_attrs app].
  rewrite Hn1.
  cbn [fst snd ticks logs spans stdout set_spans sp_end sp_name sp_start sp_attrs app].
  rewrite Hf. reflexivity.
Qed.

(** The values [json.dumps] encodes without a hook: no object at any
    depth, and every key a str, a number, a bool or [None]. *)
Fixpoint jsonable (v : pyval) : bool :=
  match v with
  | PList l | PTuple l => forallb jsonable l
  | PDict items => forallb (fun kv => key_ok (fst kv) && jsonable (snd kv)) items
  | PObj _ _ => false
  | _ => true
  end.

Lemma to_jval_jsonable (h : hook) (v : pyval) :
  jsonable v = true -> to_jval h v = Ok (safe_tree v).
Proof.
  induction v as [| b | z | f | s | l IH | l IH | items IH | i attrs]
    using pyval_induction; intros H; try reflexivity; try discriminate H.
  - cbn [to_jval safe_tree]. cbn [jsonable] in H.
    rewrite (traverse_map (to_jval h) safe_tree); auto.
    rewrite forallb_forall in H. rewrite Forall_forall in *. auto.
  - cbn [to_jval safe_tree]. cbn [jsonable] in H.
    rewrite (traverse_map (to_jval h) safe_tree); auto.
    rewrite forallb_forall in H. rewrite Forall_forall in *. auto.
  - cbn [to_jval safe_tree]. cbn [jsonable] in H.
    rewrite (traverse_map _ (fun kv => (key_text (fst kv), safe_tree (snd kv)))); auto.
    rewrite forallb_forall in H. rewrite Forall_forall in *.
    intros [k x] Hin. specialize (H _ Hin). specialize (IH _ Hin).
    cbn [fst snd] in *. apply andb_true_iff in H. destruct H as [Hk Hx].
    rewrite (IH Hx). unfold key_text.
    destruct k as [| | | [] | |]; try reflexivity. discriminate Hk.
Qed.

(** [int(datetime.strptime(s, fmt).timestamp() * 1e9)]: the instant a
    time stamp stands for, in nanoseconds since the epoch. *)
Definition instant_of (off : Z) (data : pyval) : result Z :=
  match strptime data with
  | Raise x => Raise x
  | Ok dt => to_ns off dt
  end.

Lemma instant_of_inv (off : Z) (data : pyval) (t : Z) :
  instant_of off data = Ok t ->
  exists dt, strptime data = Ok dt /\ to_ns off dt = Ok t.
Proof.
  unfold instant_of. destruct (strptime data) as [dt|x]; [|discriminate].
  intros H. now exists dt.
Qed.

Lemma strptime_str (data : pyval) (dt : datetime) :
  strptime data = Ok dt -> exists s, data = PStr s.
Proof.
  destruct data; try discriminate. intros _. now eexists.
Qed.

(** C6: a call of [log_chat_completion] that is in order (the response
    carries the three usage counts, the cost is a float, the source has
    a name, the plain arguments are values [json.dumps] encodes, the
    two time stamps stand for instants, the log handler accepts the
    record) returns normally, emits one record and records one span.
    The record is a JSON object that holds the three token counts and
    the cost as the numbers they are; the span carries the same three
    counts and the cost as attributes of their own, next to the
    attribute [data] that holds the record. *)
Theorem chat_completion_usage_and_cost (self : OtelLogger)
        (invocation_id client_id wrapper_id source request response
         is_cached start_time : pyval) (cost : pyfloat) (p c t : Z)
        (h : host) (e : effects) (sn : pyval) (t0 t1 : Z) :
  usage_of response "prompt_tokens" = Ok (PInt p) ->
  usage_of response "completion_tokens" = Ok (PInt c) ->
  usage_of response "total_tokens" = Ok (PInt t) ->
  chat_source_name source = Ok sn ->
  jsonable sn = true ->
  jsonable client_id = true ->
  jsonable wrapper_id = true ->
  jsonable is_cached = true ->
  jsonable (to_dict request []) = true ->
  instant_of (h_utcoff h) start_time = Ok t0 ->
  instant_of (h_utcoff h) (PStr (h_clock h (S (ticks e)))) = Ok t1 ->
  (forall msg, h_fault h RootInfo msg = None) ->
  exists rec j sp,
    log_chat_completion self invocation_id client_id wrapper_id source request
      response is_cached (PFloat cost) start_time h e
    = (Ok tt, mkEff (S (S (ticks e))) ((RootInfo, rec) :: logs e)
                (sp :: spans e) (stdout e))
    /\ json_loads rec = Some j
    /\ member "prompt_tokens" j = Some (JNum (int_repr p))
    /\ member "completion_tokens" j = Some (JNum (int_repr c))
    /\ member "total_tokens" j = Some (JNum (int_repr t))
    /\ member "cost" j = Some (JNum (float_json cost))
    /\ lookup "prompt_tokens" (sp_attrs sp) = Some (PInt p)
    /\ lookup "completion_tokens" (sp_attrs sp) = Some (PInt c)
    /\ lookup "total_tokens" (sp_attrs sp) = Some (PInt t)
    /\ lookup "cost" (sp_attrs sp) = Some (PFloat cost)
    /\ lookup "data" (sp_attrs sp) = Some (PStr rec).
Proof.
  intros Hp Hc Ht Hsn Jsn Jc Jw Ji Jr H0 H1 Hf.
  destruct (instant_of_inv _ _ _ H0) as (dt0 & P0 & N0).
  destruct (instant_of_inv _ _ _ H1) as (dt1 & P1 & N1).
  destruct (strptime_str _ _ P0) as (st & ->).
  set (fields := chat_fields invocation_id client_id wrapper_id request response
                   is_cached (PFloat cost) (PStr st) (h_clock h (ticks e)) (h_thread h)
                   sn (PInt p) (PInt c) (PInt t)).
  assert (Hj : jsonable (PDict fields) = true).
  { unfold fields, chat_fields. cbn [jsonable forallb fst snd key_ok andb].
    rewrite Jsn, Jc, Jw, Ji. cbn [to_dict] in *. rewrite Jr. reflexivity. }
  assert (Hd : json_dumps (PDict fields) = Ok (render (safe_tree (PDict fields)))).
  { unfold json_dumps, json_dumps_with. now rewrite (to_jval_jsonable no_default _ Hj). }
  destruct (json_dumps_with_valid no_default _ _ Hd) as (j & Hjv & _ & Hl).
  exists (render (safe_tree (PDict fields))), j. eexists.
  split.
  { apply (chat_completion_goes_through self invocation_id client_id wrapper_id source
             request response is_cached (PFloat cost) (PStr st) h e sn
             (PInt p) (PInt c) (PInt t) _ dt0 dt1 t0 t1); auto. }
  split; [exact Hl|].
  assert (Hk : str_keys fields = true) by reflexivity.
  pose proof (to_jval_record no_default fields Hk j Hjv) as M.
  repeat split; try reflexivity.
  - specialize (M "prompt_tokens"). cbn in M. destruct M as (jv & E & ->). now inversion E.
  - specialize (M "completion_tokens"). cbn in M. destruct M as (jv & E & ->). now inversion E.
  - specialize (M "total_tokens"). cbn in M. destruct M as (jv & E & ->). now inversion E.
  - specialize (M "cost"). cbn in M. destruct M as (jv & E & ->). now inversion E.
Qed.

Definition sample_start : pyval := PStr "2024-01-01 00:00:00.000000".

(** The call of the end-to-end scenario: 10, 5 and 15 tokens, a cost of
    0.002, started at midnight and logged a second and a half later. *)
Definition sample_call : result unit * effects :=
  log_chat_completion sample_logger sample_invocation (PInt 94601) (PInt 94777)
    sample_agent sample_request sample_response (PInt 0) sample_cost sample_start
    quiet_host no_effects.

Lemma chat_completion_usage_and_cost_witness :
  exists rec j sp,
    sample_call = (Ok tt, mkEff 2 [(RootInfo, rec)] [sp] [])
    /\ json_loads rec = Some j
    /\ member "prompt_tokens" j = Some (JNum "10")
    /\ member "completion_tokens" j = Some (JNum "5")
    /\ member "total_tokens" j = Some (JNum "15")
    /\ member "cost" j = Some (JNum "0.002")
    /\ lookup "prompt_tokens" (sp_attrs sp) = Some (PInt 10)
    /\ lookup "completion_tokens" (sp_attrs sp) = Some (PInt 5)
    /\ lookup "total_tokens" (sp_attrs sp) = Some (PInt 15)
    /\ lookup "cost" (sp_attrs sp) = Some sample_cost
    /\ lookup "data" (sp_attrs sp) = Some (PStr rec).
Proof.
  apply (chat_completion_usage_and_cost sample_logger sample_invocation (PInt 94601)
           (PInt 94777) sample_agent sample_request sample_response (PInt 0) sample_start
           (FFin false 0 (Decimal.D0 (Decimal.D0 (Decimal.D2 Decimal.Nil))) None)
           10 5 15 quiet_host no_effects (PStr "planner")
           1704067200000000000 1704067201500000000);
    vm_compute; reflexivity.
Defined.

(** The text of the cost in the record of the scenario is the text of
    the float: [0.002] occurs in it, after the key. *)
Example sample_call_cost_text :
  match logs (snd sample_call) with
  | [(RootInfo, rec)] => occurs ("cost" ++ String "034" ": 0.002,") rec
  | _ => false
  end = true.
Proof. vm_compute. reflexivity. Qed.




Definition sample_span : span :=
  hd (mkSpan "" None [] None) (spans (snd sample_call)).


(** The span of the scenario lasts the second and a half between the
    two time stamps. *)
Example sample_span_instants :
  sp_name sample_span = "llm_span"
  /\ sp_start sample_span = Some 1704067200000000000
  /\ sp_end sample_span = Some (Some 1704067201500000000).
Proof. repeat split; vm_compute; reflexivity. Qed.

(* ================================================================== *)
(** * Further properties of the module *)

(** ** The guard of each operation, and what a call leaves behind *)

(** [m], when it returns, has logged one record at level INFO. *)
Definition records {A} (m : M A) : Prop :=
  forall h e, accepting h ->
    forall a e', m h e = (Ok a, e') -> exists rec, logs e' = (RootInfo, rec) :: logs e.

Lemma records_bind {A B} (m : M A) (k : A -> M B) :
  silent m -> (forall a, records (k a)) -> records (bind m k).
Proof.
  intros Hm Hk h e Hh b e'. unfold bind. specialize (Hm h e).
  destruct (m h e) as [[a|x] e1]; cbn [snd] in Hm; [|discriminate].
  intros H. rewrite <- Hm. exact (Hk a h e1 Hh b e' H).
Qed.

Lemma records_emit (rec : string) : records (emit RootInfo rec).
Proof.
  intros h e Hh a e'. unfold emit. rewrite Hh. intros H. inversion H. now exists rec.
Qed.

Ltac recs :=
  repeat match goal with
    | |- records (bind _ _) => apply records_bind; [solve [quiet] | intro]
    | |- records (emit RootInfo _) => apply records_emit
    end.

Lemma emits_raise {A} (P : string -> Prop) (m : M A) (h : host) (e : effects) (x : exn)
      (e' : effects) :
  emits_info P m -> m h e = (Raise x, e') -> logs e' = logs e.
Proof.
  intros Hm H. specialize (Hm h e). rewrite H in Hm. cbn [fst snd] in Hm.
  destruct Hm as [G | (rec & _ & _ & G)]; [exact G | discriminate G].
Qed.

(** What a guarded body leaves behind when the logging entry points
    accept every message: the call returns, and the log holds one more
    entry, the record or the report of the failure. *)
Lemma guarded_outcome (body : M unit) (msg : exn -> string) (h : host) (e : effects) :
  accepting h -> only_exceptions body -> emits_info (fun _ => True) body ->
  records body ->
  exists e',
    try_except body (fun x => emit RootError (msg x)) h e = (Ok tt, e')
    /\ ((exists rec, logs e' = (RootInfo, rec) :: logs e)
        \/ (exists x, logs e' = (RootError, msg x) :: logs e)).
Proof.
  intros Hh Ho He Hr. unfold try_except.
  specialize (Ho h e Hh). 
  destruct (body h e) as [[[]|x] e1] eqn:E; cbn [fst] in Ho.
  - exists e1. split; auto. left. exact (Hr h e Hh tt e1 E).
  - rewrite Ho. unfold emit. rewrite Hh. eexists. split; [reflexivity|].
    right. exists x. cbn [logs]. now rewrite (emits_raise _ _ _ _ _ _ He E).
Qed.

Lemma emits_any {A} (P : string -> Prop) (m : M A) :
  emits_info P m -> emits_info (fun _ => True) m.
Proof.
  intros H h e. destruct (H h e) as [G | (rec & G & _ & R)]; [now left|].
  right. exists rec. auto.
Qed.

Lemma guarded_method (body : Z -> M unit) (msg : exn -> string) (h : host) (e : effects) :
  accepting h ->
  (forall t, only_exceptions (body t)) ->
  (forall t, emits_info (fun _ => True) (body t)) ->
  (forall t, records (body t)) ->
  exists e',
    (thread_id <- get_ident ;;
     try_except (body thread_id) (fun x => emit RootError (msg x))) h e = (Ok tt, e')
    /\ ((exists rec, logs e' = (RootInfo, rec) :: logs e)
        \/ (exists x, logs e' = (RootError, msg x) :: logs e)).
Proof.
  intros Hh Ho He Hr. unfold bind at 1. unfold get_ident at 1.
  now apply guarded_outcome.
Qed.

Ltac any_record := apply emits_any with (P := fun _ => True); emits; exact I.

Ltac frames E :=
  match type of E with
  | ?call = (_, ?e') =>
      split; [change (stdout e') with (stdout (snd (@pair (result unit) _ (Ok tt) e')));
              rewrite <- E |
              split; [change (spans e') with (spans (snd (@pair (result unit) _ (Ok tt) e')));
                      rewrite <- E |]]
  end.

(** X1: [log_new_agent] does all of its work under its guard: with
    logging entry points that accept every message it returns normally
    for every agent, records no span, writes nothing to standard
    output, and adds exactly one entry to the log, the record or the
    report of the failure. *)
Theorem new_agent_outcome (self : OtelLogger) (agent init_args : pyval)
        (h : host) (e : effects) :
  accepting h ->
  exists e',
    log_new_agent self agent init_args h e = (Ok tt, e')
    /\ stdout e' = stdout e /\ spans e' = spans e
    /\ ((exists rec, logs e' = (RootInfo, rec) :: logs e)
        \/ (exists x, logs e'
                      = (RootError, "[otel_logger] Failed to log new agent: " ++ exn_str x)
                          :: logs e)).
Proof.
  intros Hh.
  assert (G : exists e',
             log_new_agent self agent init_args h e = (Ok tt, e')
             /\ ((exists rec, logs e' = (RootInfo, rec) :: logs e)
                 \/ (exists x, logs e'
                      = (RootError, "[otel_logger] Failed to log new agent: " ++ exn_str x)
                          :: logs e))).
  { unfold log_new_agent. apply guarded_method; auto; intros t.
    - guarded.
      + destruct (hasattr agent "name"); [|exact I].
        pose proof (getattr_exception agent "name").
        now destruct (getattr agent "name").
      + destruct (hasattr agent "client"); [|exact I].
        pose proof (getattr_exception agent "client").
        destruct (getattr agent "client") as [c|]; auto.
        destruct (is_not_None c); [apply getattr_exception | exact I].
    - any_record.
    - recs. }
  destruct G as (e' & E & G). exists e'. split; [exact E|]. frames E; [| |exact G].
  - revert h e Hh e' E G. intros h e _ _ _ _. revert h e.
    change (keeps_stdout (log_new_agent self agent init_args)).
    unfold log_new_agent. quiet.
  - clear. unfold log_new_agent, py_id. run. all: split_sinks; reflexivity.
Qed.

Lemma new_agent_outcome_witness :
  accepting quiet_host
  /\ exists e',
       log_new_agent sample_logger (PInt 3) PNone quiet_host no_effects = (Ok tt, e')
       /\ stdout e' = stdout no_effects /\ spans e' = spans no_effects
       /\ ((exists rec, logs e' = (RootInfo, rec) :: logs no_effects)
           \/ (exists x, logs e'
                 = (RootError, "[otel_logger] Failed to log new agent: " ++ exn_str x)
                     :: logs no_effects)).
Proof.
  assert (H : accepting quiet_host) by (intros s msg; reflexivity).
  split; [exact H|].
  exact (new_agent_outcome sample_logger (PInt 3) PNone quiet_host no_effects H).
Defined.

(** X2: [log_new_wrapper] does all of its work under its guard: with
    logging entry points that accept every message it returns normally
    for every wrapper and every [init_args], records no span, writes
    nothing to standard output, and adds exactly one entry to the log,
    the record or the report of the failure. *)
Theorem new_wrapper_outcome (self : OtelLogger) (wrapper init_args : pyval)
        (h : host) (e : effects) :
  accepting h ->
  exists e',
    log_new_wrapper self wrapper init_args h e = (Ok tt, e')
    /\ stdout e' = stdout e /\ spans e' = spans e
    /\ ((exists rec, logs e' = (RootInfo, rec) :: logs e)
        \/ (exists x, logs e'
                      = (RootError, "[otel_logger] Failed to log new wrapper " ++ exn_str x)
                          :: logs e)).
Proof.
  intros Hh.
  assert (G : exists e',
             log_new_wrapper self wrapper init_args h e = (Ok tt, e')
             /\ ((exists rec, logs e' = (RootInfo, rec) :: logs e)
                 \/ (exists x, logs e'
                      = (RootError, "[otel_logger] Failed to log new wrapper " ++ exn_str x)
                          :: logs e))).
  { unfold log_new_wrapper. apply guarded_method; auto; intros t; cbv zeta.
    - guarded.
    - any_record.
    - recs. }
  destruct G as (e' & E & G). exists e'. split; [exact E|]. frames E; [| |exact G].
  - revert h e Hh e' E G. intros h e _ _ _ _. revert h e.
    change (keeps_stdout (log_new_wrapper self wrapper init_args)).
    unfold log_new_wrapper. quiet.
  - clear. unfold log_new_wrapper, py_id. run. all: split_sinks; reflexivity.
Qed.

Lemma new_wrapper_outcome_witness :
  accepting quiet_host
  /\ exists e',
       log_new_wrapper sample_logger PNone (PDict [(KStr "client", sample_leaf)])
         quiet_host no_effects = (Ok tt, e')
       /\ stdout e' = stdout no_effects /\ spans e' = spans no_effects
       /\ ((exists rec, logs e' = (RootInfo, rec) :: logs no_effects)
           \/ (exists x, logs e'
                 = (RootError, "[otel_logger] Failed to log new wrapper " ++ exn_str x)
                     :: logs no_effects)).
Proof.
  assert (H : accepting quiet_host) by (intros s msg; reflexivity).
  split; [exact H|].
  exact (new_wrapper_outcome sample_logger PNone (PDict [(KStr "client", sample_leaf)])
           quiet_host no_effects H).
Defined.

(** X3: [log_new_client] does all of its work under its guard: with
    logging entry points that accept every message it returns normally
    for every client, wrapper and [init_args], records no span, writes
    nothing to standard output, and adds exactly one entry to the log,
    the record or the report of the failure. *)
Theorem new_client_outcome (self : OtelLogger) (client wrapper init_args : pyval)
        (h : host) (e : effects) :
  accepting h ->
  exists e',
    log_new_client self client wrapper init_args h e = (Ok tt, e')
    /\ stdout e' = stdout e /\ spans e' = spans e
    /\ ((exists rec, logs e' = (RootInfo, rec) :: logs e)
        \/ (exists x, logs e'
                      = (RootError, "[otel_logger] Failed to log new client " ++ exn_str x)
                          :: logs e)).
Proof.
  intros Hh.
  assert (G : exists e',
             log_new_client self client wrapper init_args h e = (Ok tt, e')
             /\ ((exists rec, logs e' = (RootInfo, rec) :: logs e)
                 \/ (exists x, logs e'
                      = (RootError, "[otel_logger] Failed to log new client " ++ exn_str x)
                          :: logs e))).
  { unfold log_new_client. apply guarded_method; auto; intros t.
    - guarded.
    - any_record.
    - recs. }
  destruct G as (e' & E & G). exists e'. split; [exact E|]. frames E; [| |exact G].
  - revert h e Hh e' E G. intros h e _ _ _ _. revert h e.
    change (keeps_stdout (log_new_client self client wrapper init_args)).
    unfold log_new_client. quiet.
  - clear. unfold log_new_client, py_id. run. all: split_sinks; reflexivity.
Qed.

Lemma new_client_outcome_witness :
  accepting quiet_host
  /\ exists e',
       log_new_client sample_logger sample_leaf PNone (PDict [(KStr "http", sample_leaf)])
         quiet_host no_effects = (Ok tt, e')
       /\ stdout e' = stdout no_effects /\ spans e' = spans no_effects
       /\ ((exists rec, logs e' = (RootInfo, rec) :: logs no_effects)
           \/ (exists x, logs e'
                 = (RootError, "[otel_logger] Failed to log new client " ++ exn_str x)
                     :: logs no_effects)).
Proof.
  assert (H : accepting quiet_host) by (intros s msg; reflexivity).
  split; [exact H|].
  exact (new_client_outcome sample_logger sample_leaf PNone
           (PDict [(KStr "http", sample_leaf)]) quiet_host no_effects H).
Defined.

(** *** The exceptions of the steps *)

Definition soft {A} (r : result A) : Prop :=
  match r with Ok _ => True | Raise x => is_Exception x = true end.

Lemma strptime_exception (data : pyval) : soft (strptime data).
Proof.
  unfold soft, strptime. destruct data; auto.
  destruct (match_format s) as [[dt [|c r]]|]; auto.
  destruct (dt_year dt =? 0); auto.
  destruct (days_in_month (dt_year dt) (dt_month dt) <? dt_day dt); auto.
  destruct (59 <? dt_second dt); auto.
Qed.

Lemma local_exception (off u : Z) : soft (local off u).
Proof.
  unfold soft, local. destruct (u + off <? min_seconds); auto.
  destruct (max_seconds <=? u + off); auto.
Qed.

Lemma to_ns_exception (off : Z) (dt : datetime) : soft (to_ns off dt).
Proof.
  unfold soft, to_ns, timestamp, local_to_seconds.
  repeat match goal with
         | |- context [local ?o ?u] =>
             let H := fresh in
             pose proof (local_exception o u) as H; unfold soft in H;
             destruct (local o u); auto
         end.
Qed.

Lemma source_label_exception (source : pyval) : soft (source_label source).
Proof.
  unfold soft, source_label. destruct (hasattr source "name"); auto.
  pose proof (getattr_exception source "name"). now destruct (getattr source "name").
Qed.

Lemma get_module_exception (source : pyval) : soft (get_module source).
Proof. unfold soft, get_module. now destruct source. Qed.

Lemma usage_of_exception (response : pyval) (field : string) :
  soft (usage_of response field).
Proof.
  unfold soft, usage_of. pose proof (getattr_exception response "usage").
  destruct (getattr response "usage") as [u|]; auto. apply getattr_exception.
Qed.

Lemma oe_instant (dt : datetime) : only_exceptions (instant dt).
Proof. intros h e _. unfold instant. cbn [fst]. apply to_ns_exception. Qed.

Lemma oe_with_span (name : string) (start : option Z) (body : M unit) :
  only_exceptions body -> only_exceptions (with_span name start body).
Proof.
  intros Hb h e Hh. unfold with_span, span_start.
  match goal with
  | |- context [body h ?e1] => specialize (Hb h e1 Hh); destruct (body h e1) as [r e2]
  end.
  exact Hb.
Qed.

Lemma oe_ret {A} (a : A) : only_exceptions (ret a).
Proof. now intros h e _. Qed.

Lemma oe_set_attribute (k : string) (v : pyval) : only_exceptions (set_attribute k v).
Proof.
  intros h e _. unfold set_attribute.
  destruct (spans e) as [|sp rest]; cbn [fst]; auto. now destruct (sp_end sp).
Qed.

Lemma oe_span_end (t : option Z) : only_exceptions (span_end t).
Proof.
  intros h e _. unfold span_end.
  destruct (spans e) as [|sp rest]; cbn [fst]; auto. now destruct (sp_end sp).
Qed.

Ltac guarded2 :=
  repeat match goal with
    | |- only_exceptions (bind (lift _) _) => apply oe_bind; [apply oe_lift | intro]
    | |- only_exceptions (bind (instant _) _) => apply oe_bind; [apply oe_instant | intro]
    | |- only_exceptions (bind (with_span _ _ _) _) =>
        apply oe_bind; [apply oe_with_span | intro]
    | |- only_exceptions (bind (match ?x with _ => _ end) _) =>
        apply oe_bind; [destruct x | intro]
    | |- only_exceptions (bind (bind _ _) _) => apply oe_bind; [|intro]
    | |- only_exceptions (bind (set_attribute _ _) _) =>
        apply oe_bind; [apply oe_set_attribute | intro]
    | |- only_exceptions (bind _ _) =>
        apply oe_bind; [apply oe_total; intros; eexists; reflexivity | intro]
    | |- only_exceptions (emit _ _) => apply oe_emit
    | |- only_exceptions (ret _) => apply oe_ret
    | |- only_exceptions (span_end _) => apply oe_span_end
    | |- only_exceptions (set_attribute _ _) => apply oe_set_attribute
    | |- match json_dumps ?v with _ => _ end => apply json_dumps_exception
    | |- match getattr ?v ?n with _ => _ end => apply getattr_exception
    | |- match strptime ?v with _ => _ end => apply strptime_exception
    | |- match source_label ?v with _ => _ end => apply source_label_exception
    | |- match get_module ?v with _ => _ end => apply get_module_exception
    | |- match usage_of ?v ?f with _ => _ end => apply usage_of_exception
    end.

(** X4: once the source has given its name, [log_chat_completion] is
    under its guard: with logging entry points that accept every
    message the call returns normally, whatever the other arguments
    are, writes nothing to standard output, and adds exactly one entry
    to the log, the record or the report of the failure. *)
Theorem chat_completion_outcome (self : OtelLogger)
        (invocation_id client_id wrapper_id source request response
         is_cached cost start_time : pyval) (h : host) (e : effects) (sn : pyval) :
  accepting h ->
  chat_source_name source = Ok sn ->
  exists e',
    log_chat_completion self invocation_id client_id wrapper_id source request
      response is_cached cost start_time h e = (Ok tt, e')
    /\ stdout e' = stdout e
    /\ ((exists rec, logs e' = (RootInfo, rec) :: logs e)
        \/ (exists x, logs e'
                      = (RootError,
                         "[otel_logger] Failed to log chat completion: " ++ exn_str x)
                          :: logs e)).
Proof.
  intros Hh Hsn.
  assert (G : exists e',
             log_chat_completion self invocation_id client_id wrapper_id source request
               response is_cached cost start_time h e = (Ok tt, e')
             /\ ((exists rec, logs e' = (RootInfo, rec) :: logs e)
                 \/ (exists x, logs e'
                      = (RootError,
                         "[otel_logger] Failed to log chat completion: " ++ exn_str x)
                          :: logs e))).
  { unfold log_chat_completion. unfold bind at 1. unfold get_ident at 1.
    unfold bind at 1. unfold lift at 1. rewrite Hsn.
    apply guarded_outcome; auto.
    - guarded2.
    - any_record.
    - recs. }
  destruct G as (e' & E & G). exists e'. split; [exact E|]. split; [|exact G].
  change (stdout e') with (stdout (snd (@pair (result unit) _ (Ok tt) e'))).
  rewrite <- E.
  revert h e Hh e' E G. intros h e _ _ _ _. revert h e.
  match goal with |- forall h e, stdout (snd (?m h e)) = stdout e => change (keeps_stdout m) end.
  unfold log_chat_completion. quiet.
Qed.

Lemma chat_completion_outcome_witness :
  accepting quiet_host
  /\ exists e',
       log_chat_completion sample_logger sample_invocation (PInt 94601) (PInt 94777)
         sample_agent sample_request (PStr "no usage here") (PInt 0) sample_cost
         sample_start quiet_host no_effects = (Ok tt, e')
       /\ stdout e' = stdout no_effects
       /\ ((exists rec, logs e' = (RootInfo, rec) :: logs no_effects)
           \/ (exists x, logs e'
                 = (RootError,
                    "[otel_logger] Failed to log chat completion: " ++ exn_str x)
                     :: logs no_effects)).
Proof.
  assert (H : accepting quiet_host) by (intros s msg; reflexivity).
  split; [exact H|].
  apply (chat_completion_outcome sample_logger sample_invocation (PInt 94601)
           (PInt 94777) sample_agent sample_request (PStr "no usage here") (PInt 0)
           sample_cost sample_start quiet_host no_effects (PStr "planner") H).
  reflexivity.
Defined.

(** *** Which values a hook lets through *)











(** X6: an event whose source is not an [Agent] (a str, for one) never
    records a span, whether its record is emitted or not. *)
Theorem log_event_no_span_without_agent (self : OtelLogger) (source name : pyval)
        (kwargs : list (string * pyval)) (h : host) (e : effects) :
  is_Agent source = false ->
  spans (snd (log_event self source name kwargs h e)) = spans e.
Proof.
  intros H. unfold log_event. rewrite H. unfold print, py_id. run.
  all: split_sinks; reflexivity.
Qed.

Lemma log_event_no_span_without_agent_witness :
  spans (snd (log_event sample_logger (PStr "planner") (PStr "received")
                [("message", PStr "hi")] quiet_host no_effects))
  = spans no_effects.
Proof.
  apply (log_event_no_span_without_agent sample_logger (PStr "planner") (PStr "received")
           [("message", PStr "hi")] quiet_host no_effects).
  reflexivity.
Defined.

(** *** [log_event]: the record and the span *)








(** The [start_time] the span of an event is opened with. *)
Definition event_start (off : Z) (kwargs : list (string * pyval)) (start : option Z) : Prop :=
  match lookup "start_time" kwargs with
  | None | Some PNone => start = None
  | Some st => exists t, instant_of off st = Ok t /\ start = Some t
  end.

(** X8: when an event of an [Agent] has its record emitted, one span has
    been recorded for it: its name is the agent's name, a colon and the
    event's name; its attributes are the agent's name, the event's name
    and the record; it starts at the instant of the keyword argument
    [start_time] when there is one that is not [None], and otherwise at
    the tracer's clock; it always ends at the tracer's clock. *)
Theorem log_event_agent_span (self : OtelLogger) (source name : pyval)
        (kwargs : list (string * pyval)) (h : host) (e : effects) (rec : string) :
  is_Agent source = true ->
  logs (snd (log_event self source name kwargs h e)) = (RootInfo, rec) :: logs e ->
  exists n start,
    getattr source "name" = Ok n
    /\ event_start (h_utcoff h) kwargs start
    /\ spans (snd (log_event self source name kwargs h e))
       = mkSpan (py_str n ++ ":" ++ py_str name) start
           [("source_name", n); ("event_name", name); ("data", PStr rec)]
           (Some None) :: spans e.
Proof.
  intros Ha. unfold log_event, event_start, instant_of. rewrite Ha.
  unfold print, py_id.
  destruct (lookup "start_time" kwargs) as [[]|]; run.
  all: try no_info.
  all: unfold emit at 1;
    match goal with
    | |- context [h_fault ?hh RootInfo ?m] => destruct (h_fault hh RootInfo m) eqn:Ef
    end; cbn [fst snd logs spans set_spans]; [no_info|].
  all: intros H; injection H as <-;
    do 2 eexists; split; [reflexivity|]; split;
    [first [reflexivity | eexists; split; reflexivity]|];
    unfold emit; rewrite Ef; reflexivity.
Qed.

Lemma log_event_agent_span_witness :
  exists rec,
    logs (snd (log_event sample_logger sample_agent (PStr "reply")
                 [("start_time", sample_start)] quiet_host no_effects))
    = (RootInfo, rec) :: logs no_effects
    /\ exists n start,
         getattr sample_agent "name" = Ok n
         /\ event_start 0 [("start_time", sample_start)] start
         /\ spans (snd (log_event sample_logger sample_agent (PStr "reply")
                          [("start_time", sample_start)] quiet_host no_effects))
            = mkSpan (py_str n ++ ":" ++ "reply") start
                [("source_name", n); ("event_name", PStr "reply"); ("data", PStr rec)]
                (Some None) :: spans no_effects.
Proof.
  eexists. split; [vm_compute; reflexivity|].
  apply (log_event_agent_span sample_logger sample_agent (PStr "reply")
           [("start_time", sample_start)] quiet_host no_effects).
  - reflexivity.
  - vm_compute. reflexivity.
Defined.

(** *** [log_function_use] *)

Definition is_object (v : pyval) : bool :=
  match v with
  | PObj _ _ => true
  | _ => false
  end.

(** X9: [log_function_use] never logs a use whose source is a str (or
    any other value of a built-in type), though its signature allows
    one: reading [source.__module__] fails, and all the call does is
    report that the object has no attribute [__module__]. *)
Theorem function_use_builtin_source (self : OtelLogger)
        (source function args returned : pyval) (h : host) (e : effects) :
  is_object source = false ->
  log_function_use self source function args returned h e
  = emit RootError
      ("[otel_logger] Failed to log function use '" ++ type_name source
       ++ "' object has no attribute '__module__'") h e.
Proof.
  intros H. destruct source; try discriminate H; reflexivity.
Qed.

Lemma function_use_builtin_source_witness :
  log_function_use sample_logger (PStr "planner") PNone (PDict [(KStr "x", PInt 1)])
    (PInt 2) quiet_host no_effects
  = (Ok tt,
     mkEff 0
       [(RootError,
         "[otel_logger] Failed to log function use 'str' object has no attribute '__module__'")]
       [] []).
Proof.
  apply (function_use_builtin_source sample_logger (PStr "planner") PNone
           (PDict [(KStr "x", PInt 1)]) (PInt 2) quiet_host no_effects).
  reflexivity.
Defined.




Lemma guarded_outcome_any (body : M unit) (msg : exn -> string) (h : host) (e : effects) :
  accepting h -> emits_info (fun _ => True) body -> records body ->
  match try_except body (fun x => emit RootError (msg x)) h e with
  | (Ok _, e') =>
      (exists rec, logs e' = (RootInfo, rec) :: logs e)
      \/ (exists x, logs e' = (RootError, msg x) :: logs e)
  | (Raise x, e') => is_Exception x = false /\ logs e' = logs e
  end.
Proof.
  intros Hh He Hr. unfold try_except.
  destruct (body h e) as [[[]|x] e1] eqn:E.
  - left. exact (Hr h e Hh tt e1 E).
  - pose proof (emits_raise _ _ _ _ _ _ He E) as L.
    destruct (is_Exception x) eqn:Ex.
    + unfold emit. rewrite Hh. right. exists x. cbn [logs]. now rewrite L.
    + auto.
Qed.

Lemma method_unfold {A} (body : Z -> M A) (h : host) (e : effects) :
  bind get_ident body h e = body (h_thread h) h e.
Proof. reflexivity. Qed.

(** An object whose [to_json] is interrupted. *)
Definition interrupting : pyval :=
  PObj (mkInfo "Job" "app" "<job>" "<Job object>" false
          (Some (Raise (BaseOnly "KeyboardInterrupt" "")))) [].

(** X11: with logging entry points that accept every message,
    [log_function_use] returns normally, having written nothing to
    standard output and added exactly one entry to the log (the record
    or the report of the failure), unless a [to_json] method of the
    arguments or of the returned value raises an exception that is not
    an [Exception] ([KeyboardInterrupt], [SystemExit]): that one passes
    through, and nothing is logged. *)
Theorem function_use_outcome (self : OtelLogger)
        (source function args returned : pyval) (h : host) (e : effects) :
  accepting h ->
  match log_function_use self source function args returned h e with
  | (Ok _, e') =>
      stdout e' = stdout e
      /\ ((exists rec, logs e' = (RootInfo, rec) :: logs e)
          \/ (exists x, logs e'
                = (RootError, "[otel_logger] Failed to log function use " ++ exn_str x)
                    :: logs e))
  | (Raise x, e') =>
      is_Exception x = false /\ logs e' = logs e
      /\ (safe_serialize args = Raise x \/ safe_serialize returned = Raise x)
  end.
Proof.
  intros Hh.
  assert (K : keeps_stdout (log_function_use self source function args returned))
    by (unfold log_function_use; quiet).
  specialize (K h e).
  assert (W : forall x e', log_function_use self source function args returned h e
                           = (Raise x, e') ->
                           is_Exception x = false ->
                           safe_serialize args = Raise x \/ safe_serialize returned = Raise x).
  { intros x e'. unfold log_function_use, py_id. run.
    all: unfold emit; rewrite ?Hh; cbn [fst snd].
    all: repeat match goal with
           | |- context [if is_Exception ?y then _ else _] =>
               destruct (is_Exception y) eqn:?
           end.
    all: intros H Hx; inversion H; subst; auto.
    all: exfalso.
    all: repeat match goal with
           | H : source_label _ = Raise _ |- _ =>
               pose proof (source_label_exception source) as S; unfold soft in S;
               rewrite H in S; clear H
           | H : get_module _ = Raise _ |- _ =>
               pose proof (get_module_exception source) as S; unfold soft in S;
               rewrite H in S; clear H
           | H : json_dumps ?v = Raise _ |- _ =>
               pose proof (json_dumps_exception v) as S; rewrite H in S; clear H
           end; congruence. }
  unfold log_function_use in *. rewrite method_unfold in *. cbv beta in *.
  revert K W.
  match goal with
  | |- context [try_except ?b ?hd] =>
      assert (G := guarded_outcome_any b
                     (fun x => "[otel_logger] Failed to log function use " ++ exn_str x)
                     h e Hh ltac:(any_record) ltac:(recs));
      cbv beta in G;
      destruct (try_except b hd h e) as [[[]|x] e']
  end.
  - cbn [snd]. intros K _. split; [exact K | exact G].
  - cbn [snd]. intros _ W. destruct G as [Gx Gl].
    repeat split; auto. exact (W x e' eq_refl Gx).
Qed.

Lemma function_use_outcome_witness :
  accepting quiet_host
  /\ match log_function_use sample_logger sample_agent PNone sample_leaf interrupting
             quiet_host no_effects with
     | (Ok _, e') =>
         stdout e' = stdout no_effects
         /\ ((exists rec, logs e' = (RootInfo, rec) :: logs no_effects)
             \/ (exists x, logs e'
                   = (RootError, "[otel_logger] Failed to log function use " ++ exn_str x)
                       :: logs no_effects))
     | (Raise x, e') =>
         is_Exception x = false /\ logs e' = logs no_effects
         /\ (safe_serialize sample_leaf = Raise x \/ safe_serialize interrupting = Raise x)
     end.
Proof.
  assert (H : accepting quiet_host) by (intros s msg; reflexivity).
  split; [exact H|].
  exact (function_use_outcome sample_logger sample_agent PNone sample_leaf interrupting
           quiet_host no_effects H).
Defined.

(** *** [log_chat_completion] *)

Lemma getattr_missing (v : pyval) (name : string) :
  hasattr v name = false -> getattr v name = Raise (no_attribute v name).
Proof.
  unfold hasattr, getattr. destruct v; auto. now destruct (lookup name attrs).
Qed.

(** X12: a response without the attribute [usage] (a response that is a
    str, which the signature allows, is one) is never logged:
    [log_chat_completion] reads the clock once and then only reports
    that the object has no attribute [usage]. *)
Theorem chat_completion_without_usage (self : OtelLogger)
        (invocation_id client_id wrapper_id source request response
         is_cached cost start_time : pyval) (h : host) (e : effects) (sn : pyval) :
  chat_source_name source = Ok sn ->
  hasattr response "usage" = false ->
  log_chat_completion self invocation_id client_id wrapper_id source request
    response is_cached cost start_time h e
  = emit RootError
      ("[otel_logger] Failed to log chat completion: '" ++ type_name response
       ++ "' object has no attribute 'usage'")
      h (mkEff (S (ticks e)) (logs e) (spans e) (stdout e)).
Proof.
  intros Hsn Hu.
  unfold log_chat_completion, try_except, bind, lift, get_ident, get_current_ts, usage_of.
  rewrite Hsn, (getattr_missing _ _ Hu). reflexivity.
Qed.

Lemma chat_completion_without_usage_witness :
  log_chat_completion sample_logger sample_invocation (PInt 94601) (PInt 94777)
    sample_agent sample_request (PStr "cached answer") (PInt 1) sample_cost
    sample_start quiet_host no_effects
  = (Ok tt,
     mkEff 1
       [(RootError,
         "[otel_logger] Failed to log chat completion: 'str' object has no attribute 'usage'")]
       [] []).
Proof.
  apply (chat_completion_without_usage sample_logger sample_invocation (PInt 94601)
           (PInt 94777) sample_agent sample_request (PStr "cached answer") (PInt 1)
           sample_cost sample_start quiet_host no_effects (PStr "planner"));
    reflexivity.
Defined.

(** X13: when [start_time] is not a string of the expected format,
    [log_chat_completion] emits no record and records no span, whatever
    the other arguments and the host are. *)
Theorem chat_completion_bad_start_time (self : OtelLogger)
        (invocation_id client_id wrapper_id source request response
         is_cached cost start_time : pyval) (h : host) (e : effects) (x : exn) :
  strptime start_time = Raise x ->
  spans (snd (log_chat_completion self invocation_id client_id wrapper_id source
                request response is_cached cost start_time h e)) = spans e
  /\ forall rec,
       logs (snd (log_chat_completion self invocation_id client_id wrapper_id source
                    request response is_cached cost start_time h e))
       <> (RootInfo, rec) :: logs e.
Proof.
  intros Hx. split.
  - unfold log_chat_completion. run.
    all: try congruence.
    all: split_sinks; reflexivity.
  - intros rec H.
    destruct (chat_completion_went_through _ _ _ _ _ _ _ _ _ _ _ _ _ H)
      as (sn & p & c & t & dt0 & dt1 & t0 & t1 & _ & _ & _ & _ & _ & P0 & _).
    congruence.
Qed.

Lemma chat_completion_bad_start_time_witness :
  spans (snd (log_chat_completion sample_logger sample_invocation (PInt 94601)
                (PInt 94777) sample_agent sample_request sample_response (PInt 0)
                sample_cost (PStr "2024-01-01T00:00:00") quiet_host no_effects))
  = spans no_effects
  /\ forall rec,
       logs (snd (log_chat_completion sample_logger sample_invocation (PInt 94601)
                    (PInt 94777) sample_agent sample_request sample_response (PInt 0)
                    sample_cost (PStr "2024-01-01T00:00:00") quiet_host no_effects))
       <> (RootInfo, rec) :: logs no_effects.
Proof.
  eapply (chat_completion_bad_start_time sample_logger sample_invocation (PInt 94601)
            (PInt 94777) sample_agent sample_request sample_response (PInt 0)
            sample_cost (PStr "2024-01-01T00:00:00") quiet_host no_effects).
  vm_compute. reflexivity.
Defined.

(** X14: a record of [log_chat_completion] never comes without its span.
    When the record is emitted, a span [llm_span] has been recorded
    with an explicit start and an explicit end, the record as its
    attribute [data], and the same source name as the record: the
    source itself when it is a str, ["Unknown"] when it is [None], else
    its attribute [name]. *)
Theorem chat_completion_record_names_source (self : OtelLogger)
        (invocation_id client_id wrapper_id source request response
         is_cached cost start_time : pyval) (h : host) (e : effects) (rec : string) :
  logs (snd (log_chat_completion self invocation_id client_id wrapper_id source
               request response is_cached cost start_time h e))
  = (RootInfo, rec) :: logs e ->
  exists sn j jn sp t0 t1,
    chat_source_name source = Ok sn
    /\ json_loads rec = Some j
    /\ to_jval no_default sn = Ok jn
    /\ member "source_name" j = Some jn
    /\ spans (snd (log_chat_completion self invocation_id client_id wrapper_id source
                     request response is_cached cost start_time h e))
       = sp :: spans e
    /\ sp_name sp = "llm_span"
    /\ sp_start sp = Some t0 /\ sp_end sp = Some (Some t1)
    /\ lookup "source_name" (sp_attrs sp) = Some sn
    /\ lookup "data" (sp_attrs sp) = Some (PStr rec).
Proof.
  intros H.
  destruct (chat_completion_went_through _ _ _ _ _ _ _ _ _ _ _ _ _ H)
    as (sn & p & c & t & dt0 & dt1 & t0 & t1 & Hsn & _ & _ & _ & Hrec & _ & _ & _ & _ & Hsp).
  destruct (record_member (chat_fields invocation_id client_id wrapper_id request
                             response is_cached cost start_time (h_clock h (ticks e))
                             (h_thread h) sn p c t)
              rec "source_name" eq_refl Hrec) as (j & Hj & Hm).
  cbn in Hm. destruct Hm as (jn & Hn & Hm).
  exists sn, j, jn. eexists. exists t0, t1.
  split; [exact Hsn|]. split; [exact Hj|]. split; [exact Hn|]. split; [exact Hm|].
  split; [exact Hsp|]. repeat split.
Qed.

Lemma chat_completion_record_names_source_witness :
  exists rec,
    logs (snd (log_chat_completion sample_logger sample_invocation (PInt 94601)
                 (PInt 94777) PNone sample_request sample_response (PInt 0)
                 sample_cost sample_start quiet_host no_effects))
    = (RootInfo, rec) :: logs no_effects
    /\ exists sn j jn sp t0 t1,
         chat_source_name PNone = Ok sn
         /\ json_loads rec = Some j
         /\ to_jval no_default sn = Ok jn
         /\ member "source_name" j = Some jn
         /\ spans (snd (log_chat_completion sample_logger sample_invocation (PInt 94601)
                          (PInt 94777) PNone sample_request sample_response (PInt 0)
                          sample_cost sample_start quiet_host no_effects))
            = sp :: spans no_effects
         /\ sp_name sp = "llm_span"
         /\ sp_start sp = Some t0 /\ sp_end sp = Some (Some t1)
         /\ lookup "source_name" (sp_attrs sp) = Some sn
         /\ lookup "data" (sp_attrs sp) = Some (PStr rec).
Proof.
  eexists. split; [vm_compute; reflexivity|].
  apply (chat_completion_record_names_source sample_logger sample_invocation
           (PInt 94601) (PInt 94777) PNone sample_request sample_response (PInt 0)
           sample_cost sample_start quiet_host no_effects).
  vm_compute. reflexivity.
Defined.

(** *** [log_new_agent] and [log_new_client] *)

Definition agent_record (h : host) (agent : pyval) (rec : string) : Prop :=
  exists j,
    json_loads rec = Some j
    /\ member "id" j = Some (JNum (int_repr (h_id h agent)))
    /\ member "agent_type" j = Some (JStr (type_name agent))
    /\ member "thread_id" j = Some (JNum (int_repr (h_thread h)))
    /\ (hasattr agent "name" = false \/ getattr agent "name" = Ok PNone ->
        member "agent_name" j = Some (JStr ""))
    /\ (hasattr agent "client" = false \/ getattr agent "client" = Ok PNone ->
        member "wrapper_id" j = Some (JStr ""))
    /\ member "args" j = None.

(** X15: the record of [log_new_agent] is a JSON object that holds the
    identity of the agent, the name of its class and the thread id; the
    agent's name is the empty string when the agent has no attribute
    [name] or its name is [None], and so is the wrapper id when there
    is no client; the [init_args] are not part of the record. *)
Theorem new_agent_record_fields (self : OtelLogger) (agent init_args : pyval)
        (h : host) (e : effects) (rec : string) :
  logs (snd (log_new_agent self agent init_args h e)) = (RootInfo, rec) :: logs e ->
  agent_record h agent rec.
Proof.
  unfold log_new_agent, py_id. run.
  all: try no_info.
  unfold emit at 1.
  match goal with
  | |- context [h_fault ?hh RootInfo ?m] => destruct (h_fault hh RootInfo m) eqn:Ef
  end; cbn [fst snd logs spans set_spans]; [no_info|].
  intros H; injection H as <-.
  match goal with
  | H : json_dumps (PDict ?items) = Ok ?r |- _ =>
      destruct (json_dumps_with_valid no_default _ _ H) as (j & Hj & _ & Hl);
      pose proof (to_jval_record no_default items eq_refl j Hj) as M
  end.
  exists j. split; [exact Hl|].
  split; [specialize (M "id"); cbn in M; destruct M as (jv & E & ->); now inversion E|].
  split; [specialize (M "agent_type"); cbn in M; destruct M as (jv & E & ->);
          now inversion E|].
  split; [specialize (M "thread_id"); cbn in M; destruct M as (jv & E & ->);
          now inversion E|].
  split; [|split].
  - intros Hn. specialize (M "agent_name"). cbn in M. destruct M as (jv & E & ->).
    f_equal. 
    match goal with
    | H : (if hasattr agent "name" then _ else _) = Ok ?a |- _ =>
        assert (a = PStr "") as ->
    end.
    { destruct Hn as [Hn | Hn]; [rewrite Hn in *; congruence|].
      destruct (hasattr agent "name"); [rewrite Hn in *; cbn in *; congruence | congruence]. }
    now inversion E.
  - intros Hn. specialize (M "wrapper_id"). cbn in M. destruct M as (jv & E & ->).
    f_equal.
    match goal with
    | H : (if hasattr agent "client" then _ else _) = Ok ?a |- _ =>
        assert (a = PStr "") as ->
    end.
    { destruct Hn as [Hn | Hn]; [rewrite Hn in *; congruence|].
      destruct (hasattr agent "client"); [rewrite Hn in *; cbn in *; congruence | congruence]. }
    now inversion E.
  - specialize (M "args"). exact M.
Qed.

Lemma new_agent_record_fields_witness :
  exists rec,
    logs (snd (log_new_agent sample_logger sample_leaf PNone
                 quiet_host no_effects))
    = (RootInfo, rec) :: logs no_effects
    /\ agent_record quiet_host sample_leaf rec.
Proof.
  eexists. split; [vm_compute; reflexivity|].
  apply (new_agent_record_fields sample_logger sample_leaf PNone
           quiet_host no_effects).
  vm_compute. reflexivity.
Defined.

Definition client_record (h : host) (sid : string) (client wrapper : pyval)
           (items : list (pykey * pyval)) (rec : string) : Prop :=
  exists j js jk,
    json_loads rec = Some j
    /\ member "client_id" j = Some (JNum (int_repr (h_id h client)))
    /\ member "wrapper_id" j = Some (JNum (int_repr (h_id h wrapper)))
    /\ member "class" j = Some (JStr (type_name client))
    /\ member "session_id" j = Some (JStr sid)
    /\ member "json_state" j = Some (JStr js)
    /\ json_loads js = Some jk
    /\ forall k v, dict_get k items = Some v ->
                   exists jv, to_jval no_default v = Ok jv /\ member k jk = Some jv.

(** X16: [log_new_client] redacts nothing.  The record it emits for a
    mapping of [init_args] is a JSON object with the identities of the
    client and the wrapper, the client's class and the session id, and
    its [json_state] is a string that parses to an object with a member
    for every item of [init_args], an [api_key] included. *)
Theorem new_client_keeps_every_argument (self : OtelLogger) (client wrapper : pyval)
        (items : list (pykey * pyval)) (h : host) (e : effects) (rec : string) :
  str_keys items = true ->
  logs (snd (log_new_client self client wrapper (PDict items) h e))
  = (RootInfo, rec) :: logs e ->
  client_record h (session_id self) client wrapper items rec.
Proof.
  intros Hk. unfold log_new_client, py_id. run.
  all: try no_info.
  unfold emit at 1.
  match goal with
  | |- context [h_fault ?hh RootInfo ?m] => destruct (h_fault hh RootInfo m) eqn:Ef
  end; cbn [fst snd logs spans set_spans]; [no_info|].
  intros H; injection H as <-.
  match goal with
  | H : json_dumps (PDict items) = Ok ?js, H' : json_dumps (PDict ?fields) = Ok ?r |- _ =>
      destruct (json_dumps_with_valid no_default _ _ H) as (jk & Hjk & _ & Hlk);
      destruct (json_dumps_with_valid no_default _ _ H') as (j & Hj & _ & Hl);
      pose proof (to_jval_record no_default fields eq_refl j Hj) as M;
      pose proof (to_jval_record no_default items Hk jk Hjk) as Mk;
      exists j, js, jk
  end.
  split; [exact Hl|].
  split; [specialize (M "client_id"); cbn in M; destruct M as (jv & E & ->);
          now inversion E|].
  split; [specialize (M "wrapper_id"); cbn in M; destruct M as (jv & E & ->);
          now inversion E|].
  split; [specialize (M "class"); cbn in M; destruct M as (jv & E & ->);
          now inversion E|].
  split; [specialize (M "session_id"); cbn in M; destruct M as (jv & E & ->);
          now inversion E|].
  split; [specialize (M "json_state"); cbn in M; destruct M as (jv & E & ->);
          now inversion E|].
  split; [exact Hlk|].
  intros k v Hkv. specialize (Mk k). now rewrite Hkv in Mk.
Qed.

Lemma new_client_keeps_every_argument_witness :
  exists rec,
    logs (snd (log_new_client sample_logger sample_leaf PNone (PDict init_args_a)
                 quiet_host no_effects))
    = (RootInfo, rec) :: logs no_effects
    /\ client_record quiet_host (session_id sample_logger) sample_leaf PNone
         init_args_a rec
    /\ occurs "sk-live-123" rec = true.
Proof.
  eexists. split; [vm_compute; reflexivity|]. split; [|vm_compute; reflexivity].
  apply (new_client_keeps_every_argument sample_logger sample_leaf PNone init_args_a
           quiet_host no_effects).
  - reflexivity.
  - vm_compute. reflexivity.
Defined.

(** *** [start] and [__init__] *)

Lemma start_accepted (self : OtelLogger) (h : host) (e : effects) :
  h_fault h RootInfo ("Started new session with Session ID: " ++ session_id self) = None ->
  start self h e
  = (Ok (session_id self),
     mkEff (ticks e)
       ((RootInfo, "Started new session with Session ID: " ++ session_id self) :: logs e)
       (spans e) (stdout e)).
Proof.
  intros Hf. unfold start, finally_return, try_except, emit. now rewrite Hf.
Qed.

Lemma repeat_shift {A} (a : A) (n : nat) (l : list A) :
  (repeat a n ++ a :: l = a :: repeat a n ++ l)%list.
Proof. induction n as [|n IH]; cbn [repeat app]; congruence. Qed.

(** X17: [start] announces the session each time it is called: [n] calls
    whose announcement the logger accepts return the same id [n] times
    and leave [n] copies of the announcement in the log, and nothing
    else. *)
Theorem start_announces_every_time (self : OtelLogger) (n : nat) (h : host) :
  h_fault h RootInfo ("Started new session with Session ID: " ++ session_id self) = None ->
  forall e,
    repeat_call n (start self) h e
    = (Ok (repeat (session_id self) n),
       mkEff (ticks e)
         (repeat (RootInfo, "Started new session with Session ID: " ++ session_id self) n
          ++ logs e)
         (spans e) (stdout e)).
Proof.
  intros Hf. induction n as [|n IH]; intros e.
  - destruct e. reflexivity.
  - cbn [repeat_call]. unfold bind at 1. rewrite (start_accepted self h e Hf).
    unfold bind at 1. rewrite IH. unfold ret. cbn [ticks logs spans stdout repeat].
    now rewrite repeat_shift.
Qed.

Lemma start_announces_every_time_witness :
  repeat_call 3 (start sample_logger) quiet_host no_effects
  = (Ok [session_id sample_logger; session_id sample_logger; session_id sample_logger],
     mkEff 0
       (repeat (RootInfo, "Started new session with Session ID: " ++ session_id sample_logger)
               3 ++ [])
       [] []).
Proof.
  apply (start_announces_every_time sample_logger 3 quiet_host). reflexivity.
Defined.

(** X18: in the module as it is, constructing a logger with
    [EXPORTER_TYPE] set to anything but ["otlp"] raises [NameError]:
    the branch names [AzureMonitorLogExporter], which the module never
    imports. *)
Theorem init_fails_without_otlp (cfg : pyval) (env : environ) (rnd : Z) :
  String.eqb (environ_get env "EXPORTER_TYPE" "otlp") "otlp" = false ->
  init cfg env rnd = Raise (NameError "name 'AzureMonitorLogExporter' is not defined").
Proof.
  intros H. unfold init, init_in. rewrite H. reflexivity.
Qed.

Lemma init_fails_without_otlp_witness :
  init PNone (env_of (Some "azure")) 7
  = Raise (NameError "name 'AzureMonitorLogExporter' is not defined").
Proof.
  apply (init_fails_without_otlp PNone (env_of (Some "azure")) 7). reflexivity.
Defined.

(** *** [safe_serialize] and [json.dumps] *)

Lemma traverse_ext {A B} (f g : A -> result B) (l : list A) (ys : list B) :
  Forall (fun x => forall y, f x = Ok y -> g x = Ok y) l ->
  traverse f l = Ok ys -> traverse g l = Ok ys.
Proof.
  intros H. revert ys. induction H as [|x l Hx Hl IH]; intros ys; cbn [traverse]; auto.
  destruct (f x) as [y|] eqn:E; [|discriminate].
  rewrite (Hx y eq_refl).
  destruct (traverse f l) as [ys'|]; [|discriminate].
  now rewrite (IH ys' eq_refl).
Qed.

Lemma to_jval_any_hook (h : hook) (v : pyval) :
  forall j, to_jval no_default v = Ok j -> to_jval h v = Ok j.
Proof.
  induction v as [| b | z | f | s | l IH | l IH | items IH | i attrs]
    using pyval_induction; intros j H; try exact H.
  - cbn [to_jval] in *.
    destruct (traverse (to_jval no_default) l) as [js|] eqn:E; [|discriminate].
    now rewrite (traverse_ext _ (to_jval h) l js IH E).
  - cbn [to_jval] in *.
    destruct (traverse (to_jval no_default) l) as [js|] eqn:E; [|discriminate].
    now rewrite (traverse_ext _ (to_jval h) l js IH E).
  - cbn [to_jval] in *.
    match type of H with
    | match traverse ?f items with _ => _ end = _ =>
        match goal with
        | |- match traverse ?g items with _ => _ end = _ =>
            destruct (traverse f items) as [ms|] eqn:E; [|discriminate];
            rewrite (traverse_ext f g items ms); auto
        end
    end.
    clear E H. induction IH as [|[k x] l Hx Hl IHl]; constructor; auto.
    cbn [snd] in Hx. intros [k' y].
    destruct (key_json k); [|discriminate].
    destruct (to_jval no_default x) as [jx|] eqn:Ex; [|discriminate].
    now rewrite (Hx jx eq_refl).
  - discriminate H.
Qed.

(** X19: on a value that plain [json.dumps] encodes, the hooks change
    nothing: [safe_serialize] and the encoding [log_event] starts with
    return the very text [json.dumps] returns, and that text parses to
    the tree of the value. *)
Theorem safe_serialize_extends_dumps (v : pyval) (s : string) :
  json_dumps v = Ok s ->
  safe_serialize v = Ok s
  /\ json_dumps_with event_default v = Ok s
  /\ json_loads s = Some (safe_tree v).
Proof.
  unfold json_dumps, safe_serialize, json_dumps_with. intros H.
  destruct (to_jval no_default v) as [j|] eqn:E; [|discriminate].
  rewrite (to_jval_any_hook default v j E), (to_jval_any_hook event_default v j E).
  repeat split; auto.
  assert (S : safe_input v = true).
  { pose proof (safe_serialize_returns v) as R.
    unfold safe_serialize, json_dumps_with in R.
    rewrite (to_jval_any_hook default v j E) in R. now symmetry. }
  pose proof (to_jval_safe v S) as T.
  rewrite (to_jval_any_hook default v j E) in T. inversion T; subst.
  inversion H; subst.
  apply json_loads_render. apply (to_jval_wf default v). now apply to_jval_safe.
Qed.

Lemma safe_serialize_extends_dumps_witness :
  exists s,
    json_dumps sample_request = Ok s
    /\ safe_serialize sample_request = Ok s
    /\ json_dumps_with event_default sample_request = Ok s
    /\ json_loads s = Some (safe_tree sample_request).
Proof.
  eexists. split; [vm_compute; reflexivity|].
  apply (safe_serialize_extends_dumps sample_request). vm_compute. reflexivity.
Defined.



(* ================================================================== *)
(** ** [stop] *)

#[local] Open Scope list_scope.

(** What one call of [stop] leaves of a list of distinct handlers: a
    [FileHandler] goes, and the handler after it is passed over. *)
Fixpoint survivors (is_file : Z -> bool) (l : list Z) : list Z :=
  match l with
  | [] => []
  | x :: t =>
      if is_file x
      then match t with
           | [] => []
           | y :: t' => y :: survivors is_file t'
           end
      else x :: survivors is_file t
  end.

(** The handlers one call closes, in the order it closes them. *)
Fixpoint closed_by (is_file : Z -> bool) (l : list Z) : list Z :=
  match l with
  | [] => []
  | x :: t =>
      if is_file x
      then x :: match t with
                | [] => []
                | y :: t' => closed_by is_file t'
                end
      else closed_by is_file t
  end.

Definition count_file (is_file : Z -> bool) (l : list Z) : nat :=
  List.length (filter is_file l).

Definition not_file (is_file : Z -> bool) (x : Z) : bool := negb (is_file x).

Section Stop.
Variable is_file : Z -> bool.

Lemma remove_handler_absent (x : Z) (pre suf : list Z) :
  ~ In x pre -> remove_handler x (pre ++ x :: suf) = pre ++ suf.
Proof.
  induction pre as [|y pre IH]; intros H; cbn [remove_handler app].
  - now rewrite Z.eqb_refl.
  - destruct (Z.eqb_spec x y) as [->|Hn].
    + exfalso. apply H. now left.
    + rewrite IH; auto. intros Hin. apply H. now right.
Qed.

Lemma nth_error_middle (pre suf : list Z) :
  nth_error (pre ++ suf) (List.length pre) = nth_error suf 0.
Proof.
  induction pre; cbn; auto.
Qed.

Lemma stop_loop_scan (fuel : nat) :
  forall pre suf cl,
    NoDup (pre ++ suf) -> (List.length suf <= fuel)%nat ->
    stop_loop is_file fuel (List.length pre) (pre ++ suf) cl
    = (pre ++ survivors is_file suf, rev (closed_by is_file suf) ++ cl).
Proof.
  induction fuel as [|fuel IH]; intros pre suf cl Hnd Hlen.
  - destruct suf; [|cbn in Hlen; lia]. reflexivity.
  - cbn [stop_loop]. rewrite nth_error_middle.
    destruct suf as [|x t]; [reflexivity|]. cbn [nth_error].
    cbn [survivors closed_by]. cbn [List.length] in Hlen.
    destruct (is_file x) eqn:Ex.
    + rewrite remove_handler_absent.
      2:{ apply NoDup_remove_2 in Hnd. intros Hin. apply Hnd.
          apply in_or_app. now left. }
      apply NoDup_remove_1 in Hnd.
      destruct t as [|y t'].
      * rewrite List.app_nil_r. destruct fuel; cbn [stop_loop].
        -- reflexivity.
        -- replace (nth_error pre (S (List.length pre))) with (@None Z).
           ++ reflexivity.
           ++ symmetry. apply nth_error_None. lia.
      * replace (pre ++ y :: t') with ((pre ++ [y]) ++ t') in *
          by (rewrite <- List.app_assoc; reflexivity).
        replace (S (List.length pre)) with (List.length (pre ++ [y]))
          by (rewrite List.length_app; cbn; lia).
        rewrite IH; auto; [|cbn [List.length] in Hlen; lia].
        cbn [rev]. rewrite <- !List.app_assoc. reflexivity.
    + replace (pre ++ x :: t) with ((pre ++ [x]) ++ t) in *
        by (rewrite <- List.app_assoc; reflexivity).
      replace (S (List.length pre)) with (List.length (pre ++ [x]))
        by (rewrite List.length_app; cbn; lia).
      rewrite IH; auto; [|lia].
      rewrite <- !List.app_assoc. reflexivity.
Qed.

Lemma remove_handler_length (x : Z) (l : list Z) :
  (List.length (remove_handler x l) <= List.length l)%nat.
Proof.
  induction l as [|y l IH]; cbn; auto. destruct (x =? y); cbn; lia.
Qed.

Lemma remove_handler_In (x : Z) (l : list Z) :
  In x l -> S (List.length (remove_handler x l)) = List.length l.
Proof.
  induction l as [|y l IH]; cbn; [tauto|].
  destruct (Z.eqb_spec x y); auto. intros [H|H]; [congruence|].
  cbn. now rewrite IH.
Qed.

Lemma stop_loop_fuel (fuel : nat) :
  forall k i hs cl,
    (List.length hs <= i + fuel)%nat ->
    stop_loop is_file (fuel + k) i hs cl = stop_loop is_file fuel i hs cl.
Proof.
  induction fuel as [|fuel IH]; intros k i hs cl H.
  - cbn [Nat.add stop_loop]. destruct k; [reflexivity|]. cbn [stop_loop].
    replace (nth_error hs i) with (@None Z); [reflexivity|].
    symmetry. apply nth_error_None. lia.
  - cbn [Nat.add stop_loop]. destruct (nth_error hs i) as [hd|] eqn:E; [|reflexivity].
    destruct (is_file hd).
    + apply IH. pose proof (remove_handler_In hd hs (nth_error_In _ _ E)). lia.
    + apply IH. lia.
Qed.

Lemma survivors_ind (P : list Z -> Prop) :
  P [] ->
  (forall x, is_file x = true -> P [x]) ->
  (forall x y t, is_file x = true -> P t -> P (x :: y :: t)) ->
  (forall x t, is_file x = false -> P t -> P (x :: t)) ->
  forall l, P l.
Proof.
  intros H0 H1 H2 H3 l.
  assert (G : forall n l, (List.length l <= n)%nat -> P l).
  { induction n as [|n IH]; intros [|x [|y t]] Hl; cbn [List.length] in Hl; auto; try lia.
    - destruct (is_file x) eqn:E; auto.
    - destruct (is_file x) eqn:E.
      + apply H2; auto. apply IH. lia.
      + apply H3; auto. apply IH. cbn [List.length]. lia. }
  apply (G (List.length l)). lia.
Qed.

Lemma survivors_incl (l : list Z) : incl (survivors is_file l) l.
Proof.
  induction l as [|x Hx|x y t Hx IH|x t Hx IH] using survivors_ind;
    cbn [survivors]; rewrite ?Hx.
  - apply incl_refl.
  - apply incl_nil_l.
  - apply incl_tl. apply incl_cons; [now left|]. now apply incl_tl.
  - apply incl_cons; [now left|]. now apply incl_tl.
Qed.

Lemma survivors_NoDup (l : list Z) : NoDup l -> NoDup (survivors is_file l).
Proof.
  induction l as [|x Hx|x y t Hx IH|x t Hx IH] using survivors_ind;
    cbn [survivors]; rewrite ?Hx; intros H.
  - constructor.
  - constructor.
  - inversion H as [|? ? _ H1]; subst. inversion H1 as [|? ? Hy Ht]; subst.
    constructor; auto. intros Hin. apply Hy. now apply survivors_incl.
  - inversion H as [|? ? Hn Ht]; subst.
    constructor; auto. intros Hin. apply Hn. now apply survivors_incl.
Qed.

Lemma survivors_not_file (l : list Z) :
  filter (not_file is_file) (survivors is_file l) = filter (not_file is_file) l.
Proof.
  unfold not_file.
  induction l as [|x Hx|x y t Hx IH|x t Hx IH] using survivors_ind;
    cbn [survivors filter]; rewrite ?Hx; cbn [negb filter]; auto.
  - now rewrite IH.
  - rewrite Hx. cbn [negb]. now rewrite IH.
Qed.

Lemma stop_handlers_scan (hs : list Z) :
  NoDup hs ->
  stop_handlers is_file hs = (survivors is_file hs, rev (closed_by is_file hs)).
Proof.
  intros H. unfold stop_handlers.
  pose proof (stop_loop_scan (List.length hs) [] hs [] H (le_n _)) as G.
  cbn [List.length app] in G. rewrite G. now rewrite List.app_nil_r.
Qed.

Lemma survivors_none (l : list Z) :
  count_file is_file l = O -> survivors is_file l = l.
Proof.
  unfold count_file.
  induction l as [|x Hx|x y t Hx IH|x t Hx IH] using survivors_ind;
    cbn [survivors filter]; rewrite ?Hx; cbn [List.length]; intros H;
    try discriminate; auto.
  now rewrite IH.
Qed.

Lemma count_file_cons (x : Z) (l : list Z) :
  count_file is_file (x :: l)
  = ((if is_file x then 1 else 0) + count_file is_file l)%nat.
Proof. unfold count_file. cbn [filter]. now destruct (is_file x). Qed.

Lemma survivors_fewer (l : list Z) :
  count_file is_file l <> O ->
  (count_file is_file (survivors is_file l) < count_file is_file l)%nat.
Proof.
  induction l as [|x Hx|x y t Hx IH|x t Hx IH] using survivors_ind;
    cbn [survivors]; rewrite ?Hx; rewrite ?count_file_cons, ?Hx; intros H.
  - now contradiction H.
  - cbn. lia.
  - destruct (count_file is_file t) eqn:E.
    + rewrite (survivors_none t E), E. lia.
    + assert (S n <> O) by lia. specialize (IH H0). lia.
  - cbn [Nat.add] in *. auto.
Qed.

Lemma no_file_filter (l : list Z) :
  count_file is_file l = O -> filter (not_file is_file) l = l.
Proof.
  unfold count_file, not_file. induction l as [|x l IH]; cbn [filter]; auto.
  destruct (is_file x); cbn [List.length negb]; intros H; [discriminate|].
  now rewrite IH.
Qed.

Lemma remove_handler_not_file (x : Z) (l : list Z) :
  is_file x = true ->
  filter (not_file is_file) (remove_handler x l) = filter (not_file is_file) l.
Proof.
  intros Hx. unfold not_file.
  induction l as [|y l IH]; cbn [remove_handler filter]; auto.
  destruct (Z.eqb_spec x y) as [<-|Hn].
  - now rewrite Hx.
  - cbn [filter]. now rewrite IH.
Qed.

Lemma remove_handler_incl (x : Z) (l : list Z) : incl (remove_handler x l) l.
Proof.
  induction l as [|y l IH]; cbn [remove_handler]; [apply incl_refl|].
  destruct (x =? y); [now apply incl_tl|].
  apply incl_cons; [now left|]. now apply incl_tl.
Qed.

Lemma stop_loop_frame (hs0 : list Z) (fuel : nat) :
  forall i hs cl,
    incl hs hs0 ->
    Forall (fun x => is_file x = true /\ In x hs0) cl ->
    filter (not_file is_file) (fst (stop_loop is_file fuel i hs cl))
    = filter (not_file is_file) hs
    /\ incl (fst (stop_loop is_file fuel i hs cl)) hs0
    /\ Forall (fun x => is_file x = true /\ In x hs0)
              (snd (stop_loop is_file fuel i hs cl)).
Proof.
  induction fuel as [|fuel IH]; intros i hs cl Hi Hc; cbn [stop_loop]; auto.
  destruct (nth_error hs i) as [hd|] eqn:E; auto.
  destruct (is_file hd) eqn:Eh.
  - destruct (IH (S i) (remove_handler hd hs) (hd :: cl)) as (G1 & G2 & G3).
    + intros z Hz. apply Hi. now apply (remove_handler_incl hd hs).
    + constructor; auto. split; auto. apply Hi. now apply (nth_error_In _ _ E).
    + rewrite G1. split; auto. now apply remove_handler_not_file.
  - now apply IH.
Qed.

(** X21: [stop] touches [FileHandler]s only.  Whatever the handlers of
    the root logger are, the handlers that are not [FileHandler]s are
    all still installed afterwards, in their order (the handler that
    [__init__] added is one of them, so records keep flowing after
    [stop]); no handler is added; and every handler that was closed is
    a [FileHandler] that was installed. *)
Theorem stop_keeps_other_handlers (hs : list Z) :
  filter (not_file is_file) (fst (stop_handlers is_file hs))
  = filter (not_file is_file) hs
  /\ incl (fst (stop_handlers is_file hs)) hs
  /\ Forall (fun x => is_file x = true /\ In x hs) (snd (stop_handlers is_file hs)).
Proof.
  unfold stop_handlers. apply stop_loop_frame; [apply incl_refl | constructor].
Qed.

(** X22: [stop] removes handlers from the list it is iterating over, so
    the handler that follows a removed one is never looked at.  On a
    list of distinct handlers one call leaves exactly the handlers of
    [survivors]: each [FileHandler] it meets is closed and removed, and
    the next handler stays, a [FileHandler] or not.  The loop ends
    because the list is exhausted, with any fuel of at least the length
    of the list. *)
Theorem stop_skips_after_each_removal (hs : list Z) :
  NoDup hs ->
  stop_handlers is_file hs = (survivors is_file hs, rev (closed_by is_file hs))
  /\ forall n, (List.length hs <= n)%nat ->
               stop_loop is_file n 0 hs [] = stop_handlers is_file hs.
Proof.
  intros H. split.
  - now apply stop_handlers_scan.
  - intros n Hn. unfold stop_handlers.
    replace n with (List.length hs + (n - List.length hs))%nat by lia.
    apply stop_loop_fuel. lia.
Qed.

Lemma survivors_half (l : list Z) :
  (forall x, In x l -> is_file x = true) ->
  List.length (survivors is_file l) = Nat.div2 (List.length l)
  /\ List.length (closed_by is_file l) = (List.length l - Nat.div2 (List.length l))%nat.
Proof.
  induction l as [|x Hx|x y t Hx IH|x t Hx IH] using survivors_ind;
    cbn [survivors closed_by]; rewrite ?Hx; intros H.
  - now split.
  - now split.
  - destruct IH as [I1 I2]; [intros z Hz; apply H; now right; right|].
    cbn [List.length Nat.div2]. rewrite I1, I2. split; auto.
    pose proof (Nat.div2_decr (List.length t) (List.length t)). lia.
  - rewrite (H x) in Hx by now left. discriminate.
Qed.

(** X23: when the handlers of the root logger are [n] distinct
    [FileHandler]s, one call of [stop] closes and removes every other
    one: the larger half is closed, and the smaller half, [n / 2]
    handlers, is still installed and open. *)
Theorem stop_closes_every_other_file_handler (hs : list Z) :
  NoDup hs ->
  (forall x, In x hs -> is_file x = true) ->
  List.length (fst (stop_handlers is_file hs)) = Nat.div2 (List.length hs)
  /\ List.length (snd (stop_handlers is_file hs))
     = (List.length hs - Nat.div2 (List.length hs))%nat.
Proof.
  intros Hn Hf.
  rewrite (stop_handlers_scan hs Hn).
  cbn [fst snd]. rewrite List.length_rev. now apply survivors_half.
Qed.
End Stop.

Lemma stop_closes_every_other_file_handler_witness :
  NoDup [101; 102; 103]
  /\ List.length (fst (stop_handlers (fun x => 100 <=? x) [101; 102; 103])) = 1%nat
  /\ List.length (snd (stop_handlers (fun x => 100 <=? x) [101; 102; 103])) = 2%nat.
Proof.
  assert (H : NoDup [101; 102; 103])
    by (repeat (constructor; [cbn; lia|]); constructor).
  split; [exact H|].
  apply (stop_closes_every_other_file_handler (fun x => 100 <=? x) [101; 102; 103] H).
  intros x Hx. cbn in Hx.
  destruct Hx as [<- | [<- | [<- | []]]]; reflexivity.
Defined.

Lemma stop_skips_after_each_removal_witness :
  NoDup [7; 101; 102; 8; 103]
  /\ stop_handlers (fun x => 100 <=? x) [7; 101; 102; 8; 103] = ([7; 102; 8], [103; 101])
  /\ forall n, (5 <= n)%nat ->
               stop_loop (fun x => 100 <=? x) n 0 [7; 101; 102; 8; 103] []
               = stop_handlers (fun x => 100 <=? x) [7; 101; 102; 8; 103].
Proof.
  assert (H : NoDup [7; 101; 102; 8; 103])
    by (repeat (constructor; [cbn; lia|]); constructor).
  split; [exact H|].
  exact (stop_skips_after_each_removal (fun x => 100 <=? x) [7; 101; 102; 8; 103] H).
Defined.

(** X24: calling [stop] again does finish the work: on distinct handlers,
    as many calls as there are [FileHandler]s (or more) leave exactly
    the handlers that are not [FileHandler]s.  With at most one
    [FileHandler] a single call is enough. *)
Theorem stop_repeated_removes_all (is_file : Z -> bool) (n : nat) :
  forall hs,
    NoDup hs -> (count_file is_file hs <= n)%nat ->
    stop_times is_file n hs = filter (not_file is_file) hs.
Proof.
  induction n as [|n IH]; intros hs Hnd Hc; cbn [stop_times].
  - symmetry. apply no_file_filter. lia.
  - rewrite (stop_handlers_scan is_file hs Hnd). cbn [fst].
    destruct (count_file is_file hs) eqn:E.
    + rewrite (survivors_none is_file hs E). apply IH; auto. lia.
    + rewrite IH.
      * apply survivors_not_file.
      * now apply survivors_NoDup.
      * assert (count_file is_file hs <> O) by lia.
        pose proof (survivors_fewer is_file hs H). lia.
Qed.

Lemma stop_repeated_removes_all_witness :
  NoDup [101; 102; 7; 103]
  /\ stop_times (fun x => 100 <=? x) 3 [101; 102; 7; 103] = [7].
Proof.
  assert (H : NoDup [101; 102; 7; 103])
    by (repeat (constructor; [cbn; lia|]); constructor).
  split; [exact H|].
  apply (stop_repeated_removes_all (fun x => 100 <=? x) 3 [101; 102; 7; 103] H).
  cbn. lia.
Defined.

#[local] Open Scope string_scope.
#[local] Open Scope Z_scope.

(* ================================================================== *)
(** ** The precision of the instants *)

Lemma rne_half (y : Q) :
  (inject_Z (rne y) - y <= 1 # 2)%Q /\ (y - inject_Z (rne y) <= 1 # 2)%Q.
Proof.
  unfold rne.
  pose proof (Qfloor_le y) as H1. pose proof (Qlt_floor y) as H2.
  rewrite inject_Z_plus in H2. change (inject_Z 1) with 1%Q in H2.
  set (f := Qfloor y) in *.
  destruct (Qcompare_spec (y - inject_Z f) (1 # 2)) as [E|E|E].
  - destruct (Z.even f); rewrite ?inject_Z_plus; change (inject_Z 1) with 1%Q; lra.
  - lra.
  - rewrite inject_Z_plus. change (inject_Z 1) with 1%Q. lra.
Qed.

Lemma pow2_half (e : Z) : (pow2 (e - 1) == (1 # 2) * pow2 e)%Q.
Proof.
  replace (e - 1) with (e + -1) by lia. rewrite pow2_add.
  assert (E : (pow2 (-1) == 1 # 2)%Q) by reflexivity. rewrite E. lra.
Qed.

Lemma round53_pos_error (x : Q) (k : Z) :
  (0 < x)%Q -> (x < pow2 k)%Q ->
  (round53_pos x - x <= pow2 (k - 54))%Q /\ (x - round53_pos x <= pow2 (k - 54))%Q.
Proof.
  intros Hx Hk.
  destruct (ilog2_spec x Hx) as [L1 L2].
  assert (Hl : ilog2 x < k) by (apply pow2_lt_inv; lra).
  unfold round53_pos. set (e := ilog2 x - 52) in *.
  set (y := (x * pow2 (- e))%Q).
  destruct (rne_half y) as [R1 R2].
  assert (Ex : (x == y * pow2 e)%Q).
  { unfold y. rewrite <- Qmult_assoc, pow2_cancel. lra. }
  pose proof (pow2_pos e) as Hp.
  assert (Hb : (pow2 (e - 1) <= pow2 (k - 54))%Q) by (apply pow2_le; unfold e; lia).
  rewrite pow2_half in Hb.
  set (m := inject_Z (rne y)) in *.
  split.
  - assert (G : ((m - y) * pow2 e <= (1 # 2) * pow2 e)%Q)
      by (apply Qmult_le_compat_r; lra).
    rewrite Ex. lra.
  - assert (G : ((y - m) * pow2 e <= (1 # 2) * pow2 e)%Q)
      by (apply Qmult_le_compat_r; lra).
    rewrite Ex. lra.
Qed.

Lemma round53_error (x : Q) (k : Z) :
  (0 <= x)%Q -> (x < pow2 k)%Q ->
  (round53 x - x <= pow2 (k - 54))%Q /\ (x - round53 x <= pow2 (k - 54))%Q.
Proof.
  intros Hx Hk. pose proof (pow2_pos (k - 54)) as Hp.
  unfold round53. destruct (Qnum x) as [|p|p] eqn:E.
  - assert (x == 0)%Q by (unfold Qeq; rewrite E; reflexivity). lra.
  - apply round53_pos_error; auto. apply Qnum_pos. now exists p.
  - exfalso. assert (x < 0)%Q by (apply Qnum_neg; now exists p). lra.
Qed.

Lemma round53_nonneg (x : Q) : (0 <= x)%Q -> (0 <= round53 x)%Q.
Proof. intros H. change 0%Q with (round53 0). now apply round53_mono. Qed.

Lemma fraction_error (us : Z) :
  0 <= us < 1000000 ->
  let b := fdiv (float_of_int us) (float_of_int 1000000) in
  (b - inject_Z us / 1000000 <= pow2 (-54))%Q
  /\ (inject_Z us / 1000000 - b <= pow2 (-54))%Q.
Proof.
  intros Hus. cbv zeta. unfold fdiv, float_of_int.
  assert (E1 : (round53 (inject_Z us) == inject_Z us)%Q) by (apply round53_int; lia).
  assert (E2 : (round53 (inject_Z 1000000) == inject_Z 1000000)%Q)
    by (apply round53_int; lia).
  assert (E : (round53 (inject_Z us) / round53 (inject_Z 1000000)
               == inject_Z us / 1000000)%Q) by (rewrite E1, E2; reflexivity).
  rewrite (round53_comp _ _ E).
  assert (H0 : (0 <= inject_Z us)%Q)
    by (change 0%Q with (inject_Z 0); rewrite <- Zle_Qle; lia).
  assert (H1 : (inject_Z us < inject_Z 1000000)%Q) by (rewrite <- Zlt_Qlt; lia).
  assert (Hc : (inject_Z 1000000 == 1000000)%Q) by reflexivity.
  apply (round53_error _ 0).
  - apply Qle_shift_div_l; lra.
  - change (pow2 0) with 1%Q. apply Qlt_shift_div_r; lra.
Qed.

Lemma stamp_error (s us : Z) :
  0 <= s < 2 ^ 31 -> 0 <= us < 1000000 ->
  let x := (inject_Z s + inject_Z us / 1000000)%Q in
  (stamp s us - x <= pow2 (-22) + pow2 (-54))%Q
  /\ (x - stamp s us <= pow2 (-22) + pow2 (-54))%Q
  /\ (0 <= stamp s us)%Q
  /\ (0 <= x)%Q /\ (x <= inject_Z (2 ^ 31))%Q.
Proof.
  intros Hs Hus. cbv zeta.
  destruct (fraction_error us Hus) as [B1 B2]. cbv zeta in B1, B2.
  destruct (fraction_range us Hus) as [B3 B4].
  unfold stamp, fadd.
  set (b := fdiv (float_of_int us) (float_of_int 1000000)) in *.
  assert (Es : (float_of_int s == inject_Z s)%Q) by (apply round53_int; lia).
  assert (E : (float_of_int s + b == inject_Z s + b)%Q) by (rewrite Es; reflexivity).
  rewrite (round53_comp _ _ E).
  assert (S0 : (0 <= inject_Z s)%Q)
    by (change 0%Q with (inject_Z 0); rewrite <- Zle_Qle; lia).
  assert (S1 : (inject_Z s <= inject_Z (2 ^ 31 - 1))%Q) by (rewrite <- Zle_Qle; lia).
  assert (S2 : (inject_Z (2 ^ 31 - 1) == 2147483647)%Q) by reflexivity.
  assert (S3 : (inject_Z (2 ^ 31) == 2147483648)%Q) by reflexivity.
  assert (U0 : (0 <= inject_Z us)%Q)
    by (change 0%Q with (inject_Z 0); rewrite <- Zle_Qle; lia).
  assert (U1 : (inject_Z us < inject_Z 1000000)%Q) by (rewrite <- Zlt_Qlt; lia).
  assert (Hc : (inject_Z 1000000 == 1000000)%Q) by reflexivity.
  assert (F0 : (0 <= inject_Z us / 1000000)%Q) by (apply Qle_shift_div_l; lra).
  assert (F1 : (inject_Z us / 1000000 <= 1)%Q) by (apply Qle_shift_div_r; lra).
  assert (P32 : (pow2 32 == 4294967296)%Q) by reflexivity.
  destruct (round53_error (inject_Z s + b) 32) as [R1 R2]; [lra | lra |].
  replace (32 - 54) with (-22) in R1, R2 by lia.
  pose proof (round53_nonneg (inject_Z s + b)) as R0.
  repeat split; lra.
Qed.

Lemma nanos_error (s us : Z) :
  0 <= s < 2 ^ 31 -> 0 <= us < 1000000 ->
  let d := fmul (stamp s us) (float_of_int 1000000000) in
  let n := inject_Z (s * 1000000000 + us * 1000) in
  (d - n <= 367)%Q /\ (n - d <= 367)%Q /\ (0 <= d)%Q.
Proof.
  intros Hs Hus. cbv zeta.
  destruct (stamp_error s us Hs Hus) as (C1 & C2 & C0 & X0 & X1). cbv zeta in *.
  set (c := stamp s us) in *.
  set (x := (inject_Z s + inject_Z us / 1000000)%Q) in *.
  assert (N : (inject_Z (s * 1000000000 + us * 1000) == 1000000000 * x)%Q).
  { unfold x. rewrite inject_Z_plus, !inject_Z_mult.
    change (inject_Z 1000000000) with 1000000000%Q.
    change (inject_Z 1000) with 1000%Q. field. }
  unfold fmul.
  assert (E9 : (float_of_int 1000000000 == 1000000000)%Q)
    by (apply (round53_int 1000000000); lia).
  assert (E : (c * float_of_int 1000000000 == c * 1000000000)%Q)
    by (rewrite E9; reflexivity).
  rewrite (round53_comp _ _ E).
  assert (S3 : (inject_Z (2 ^ 31) == 2147483648)%Q) by reflexivity.
  assert (P22 : (pow2 (-22) == 1 # 4194304)%Q) by reflexivity.
  assert (P54 : (pow2 (-54) == 1 # 18014398509481984)%Q) by reflexivity.
  assert (P61 : (pow2 61 == 2305843009213693952)%Q) by reflexivity.
  assert (P7 : (pow2 7 == 128)%Q) by reflexivity.
  destruct (round53_error (c * 1000000000) 61) as [R1 R2]; [lra | lra |].
  replace (61 - 54) with 7 in R1, R2 by lia.
  pose proof (round53_nonneg (c * 1000000000)) as R0.
  rewrite N. repeat split; lra.
Qed.

(** X25: the detour through doubles in [int(dt.timestamp() * 1e9)] keeps
    the microsecond.  For a date-time between the epoch and 2^31
    seconds after it (January 2038), the instant computed is within 367
    nanoseconds of the exact one, so rounding it to the microsecond
    gives back the exact count of microseconds. *)
Theorem to_ns_precision (off : Z) (dt : datetime) (t : Z) :
  to_ns off dt = Ok t ->
  0 <= dt_micro dt < 1000000 ->
  0 <= utc_to_seconds dt - off - epoch < 2 ^ 31 ->
  let micros := (utc_to_seconds dt - off - epoch) * 1000000 + dt_micro dt in
  Z.abs (t - micros * 1000) <= 367
  /\ (t + 500) / 1000 = micros.
Proof.
  intros H Hus Hs. cbv zeta.
  destruct (to_ns_stamp off dt t H) as [-> _].
  set (s := utc_to_seconds dt - off - epoch) in *. set (us := dt_micro dt) in *.
  destruct (nanos_error s us Hs Hus) as (D1 & D2 & D0). cbv zeta in *.
  set (d := fmul (stamp s us) (float_of_int 1000000000)) in *.
  unfold int_of_float.
  assert (Hd : Qle_bool 0 d = true) by now apply Qle_bool_iff.
  rewrite Hd.
  pose proof (Qfloor_le d) as F1. pose proof (Qlt_floor d) as F2.
  rewrite inject_Z_plus in F2. change (inject_Z 1) with 1%Q in F2.
  set (t := Qfloor d) in *.
  set (n := s * 1000000000 + us * 1000) in *.
  assert (T1 : t <= n + 367).
  { rewrite Zle_Qle, inject_Z_plus. change (inject_Z 367) with 367%Q. lra. }
  assert (T2 : n < t + 368).
  { rewrite Zlt_Qlt, inject_Z_plus. change (inject_Z 368) with 368%Q. lra. }
  assert (En : (s * 1000000 + us) * 1000 = n) by (unfold n; lia).
  rewrite En. split; [lia|].
  symmetry. apply (Z.div_unique _ _ _ (t + 500 - (s * 1000000 + us) * 1000)); lia.
Qed.

Lemma to_ns_precision_witness :
  to_ns 0 (mkDT 2024 2 29 12 34 56 654321) = Ok 1709210096654320896
  /\ Z.abs (1709210096654320896 - 1709210096654321 * 1000) <= 367
  /\ (1709210096654320896 + 500) / 1000 = 1709210096654321.
Proof.
  assert (H : to_ns 0 (mkDT 2024 2 29 12 34 56 654321) = Ok 1709210096654320896)
    by (vm_compute; reflexivity).
  split; [exact H|].
  apply (to_ns_precision 0 (mkDT 2024 2 29 12 34 56 654321) 1709210096654320896 H).
  - cbn. lia.
  - vm_compute. split; [discriminate | reflexivity].
Defined.
